(** * VisionTale: video assembly service and image effects

    A shallow embedding of [server/utils/image_effect.py] and
    [server/services/video_service.py].

    Conventions of the embedding.
    - Python [int] is [Z]; a Python [float] is the rational [Q] it
      denotes (a decimal such as 0.3 or 1.16 is read as the binary64
      number nearest to it, [fl (3 # 10)] or [fl (116 # 100)]), and
      [int(x)] truncates toward zero.  The float operations of
      [pan_effect] and of the frame count and frame times of
      [_process_segment] round their result to binary64 ([fl]: nearest,
      ties to even, within the normal range); [fade_effect] and
      [get_progress] are modelled on the exact operations.
    - [math.cos] and [math.pi] are library values: they are parameters.
    - A PIL image is a symbolic term recording how it was obtained from a
      decoded bitmap (resize, crop, brightness), with its pixel size.
    - Exceptions are values of [exn]; fallible pure code returns
      [exn + A], stateful code runs in a state-and-exception monad.
    - The disk is a finite map from path strings to files; whether
      [os.remove] fails on a file that exists (a file locked by another
      process) is the environment's answer.
    - moviepy, the [ffmpeg] subprocess and the process id are
      collaborators: an [Env] gives their answers.  The nanosecond clock
      is part of the world and advances at every reading.
    - A job is modelled on its own; other requests reach it through
      [cancel_generation], at the points where the job yields, and
      through [get_progress].  A second [generate_video] call on the same
      service object is modelled by [begin_job], the part of a call that
      runs before it first yields. *)

From Stdlib Require Import QArith Qround Qminmax Lqa ZArith Lia Ascii.
From stdpp Require Import gmap strings pretty list.

Local Open Scope Z_scope.

(** ** Python values and exceptions *)

Inductive exn : Type :=
  | ValueError (msg : string)
  | FileNotFoundError (msg : string)
  | ZeroDivisionError
  | OSError (msg : string)
  | IndexError (msg : string)
  | CalledProcessError (stderr : string)
  | KeyError (key : string)
  | TypeError (msg : string)
  | PermissionError (msg : string).

Definition result (A : Type) : Type := (exn + A)%type.

Definition rbind {A B : Type} (r : result A) (k : A -> result B) : result B :=
  match r with
  | inl e => inl e
  | inr a => k a
  end.

Declare Scope py_scope.
Delimit Scope py_scope with py.
Notation "'try!' x <- r ; k" := (rbind r (fun x => k))
  (at level 10, x name, r at level 100, k at level 200) : py_scope.
Local Open Scope py_scope.

(** [int(x)] on a float: truncation toward zero. *)
Definition py_int (x : Q) : Z := Z.quot (Qnum x) (Z.pos (Qden x)).

(** [a < b] and [a <= b] on floats. *)
Definition Qltb (a b : Q) : bool := if Qlt_le_dec a b then true else false.
Definition Qleb (a b : Q) : bool := negb (Qltb b a).

(** [max(a, b)]: the first argument unless the second is larger. *)
Definition py_max (a b : Q) : Q := if Qltb a b then b else a.

(** [a / b]: raises on a zero divisor. *)
Definition truediv (a b : Q) : result Q :=
  if Qeq_bool b 0 then inl ZeroDivisionError else inr (a / b)%Q.

(** ** Binary64 arithmetic *)

(** A binary64 number is [m * 2^e] with [|m| < 2^53]; the exponent range
    is not bounded here (no overflow, no subnormal numbers). *)

(** The odd factor of [p]. *)
Fixpoint odd_part (p : positive) : positive :=
  match p with
  | xO p' => odd_part p'
  | _ => p
  end.

Definition pow2 (e : Z) : Q :=
  if 0 <=? e then inject_Z (2 ^ e) else (/ inject_Z (2 ^ (- e)))%Q.

(** Whether a fraction in lowest terms is a binary64 number. *)
Definition representable (q : Q) : bool :=
  Pos.eqb (odd_part (Qden q)) 1
  && match Qnum q with
     | Z0 => true
     | Zpos p | Zneg p => Z.pos (odd_part p) <? 2 ^ 53
     end.

(** The integer nearest to [t], the even one of two at equal distance. *)
Definition round_half_even (t : Q) : Z :=
  let f := Qfloor t in
  match Qcompare (t - inject_Z f) (1 # 2) with
  | Lt => f
  | Gt => f + 1
  | Eq => if Z.even f then f else f + 1
  end.

(** Rounding of [a > 0]: with [2^52 <= a / 2^e < 2^53], the nearest
    multiple of [2^e]. *)
Definition round_positive (a : Q) : Q :=
  let k := Z.log2 (Qnum a) - Z.log2 (Z.pos (Qden a)) in
  let e := (if Qle_bool (pow2 k) a then k else k - 1) - 52 in
  (inject_Z (round_half_even (a / pow2 e)) * pow2 e)%Q.

(** The binary64 number nearest to [q], ties to even.  A binary64
    number is its own rounding. *)
Definition fl (q : Q) : Q :=
  let r := Qred q in
  if representable r then r
  else match Qnum r with
       | Z0 => r
       | Zpos _ => Qred (round_positive r)
       | Zneg _ => Qred (- round_positive (- r))
       end.

(** [a + b], [a - b], [a * b] and [a / b] on floats.  An [int] operand
    is converted first, exactly for the pixel and frame counts at hand
    (below [2^53]). *)
Definition fadd (a b : Q) : Q := fl (a + b).
Definition fsub (a b : Q) : Q := fl (a - b).
Definition fmul (a b : Q) : Q := fl (a * b).
Definition fdiv (a b : Q) : result Q :=
  if Qeq_bool b 0 then inl ZeroDivisionError else inr (fl (a / b)).

(** ** PIL images *)

Inductive Image : Type :=
  | Bitmap (w h : Z) (name : string)
  | Resized (src : Image) (w h : Z)
  | Cropped (src : Image) (left upper right lower : Z)
  | Enhanced (src : Image) (brightness : Q).

Fixpoint width (im : Image) : Z :=
  match im with
  | Bitmap w _ _ => w
  | Resized _ w _ => w
  | Cropped _ l _ r _ => r - l
  | Enhanced src _ => width src
  end.

Fixpoint height (im : Image) : Z :=
  match im with
  | Bitmap _ h _ => h
  | Resized _ _ h => h
  | Cropped _ _ u _ lo => lo - u
  | Enhanced src _ => height src
  end.

(** [Image.resize((w, h), LANCZOS)]: PIL rejects an empty target size. *)
Definition resize (im : Image) (w h : Z) : result Image :=
  if (w <=? 0) || (h <=? 0)
  then inl (ValueError "height and width must be > 0")
  else inr (Resized im w h).

(** [Image.crop((left, upper, right, lower))]: the result has size
    [(right - left, lower - upper)]; PIL rejects an inverted box. *)
Definition crop (im : Image) (left upper right lower : Z) : result Image :=
  if right <? left
  then inl (ValueError "Coordinate 'right' is less than 'left'")
  else if lower <? upper
  then inl (ValueError "Coordinate 'lower' is less than 'upper'")
  else inr (Cropped im left upper right lower).

(** The [params] dictionary handed to the effects.  Keys read with
    [params.get(key, default)] may be absent; [output_size] is read with
    [params['output_size']]. *)
Module Params.
Record t : Type := {
  output_size : Z * Z;
  fade_duration : option Q;
  use_pan : option bool;
  pan_range : option (Q * Q);
  segment_index : option Z
}.
End Params.

(** ** image_effect.py *)

Module ImageEffects.
Section Effects.

(** [math.cos] and [math.pi]. *)
Variable cos : Q -> Q.
Variable pi : Q.

Definition fade_effect (image : Image) (time_val duration : Q)
    (params : Params.t) : Image :=
  if Qleb (default 0%Q (Params.fade_duration params)) 0 then image
  else
    let fade_duration := default 0%Q (Params.fade_duration params) in
    let brightness :=
      if Qltb time_val fade_duration then
        (time_val / fade_duration)%Q
      else if Qltb (duration - time_val) fade_duration then
        ((duration - time_val) / fade_duration)%Q
      else 1%Q in
    if Qltb brightness 1 then Enhanced image brightness else image.

Definition _ease_in_out_progress (progress : Q) : Q :=
  fmul (1 # 2) (fsub 1 (cos (fmul pi progress))).

Definition pan_effect (image : Image) (time_val duration : Q)
    (params : Params.t) : result Image :=
  let '(output_w, output_h) := Params.output_size params in
  let '(h_range, v_range) :=
    default (fl (3 # 10), 0%Q) (Params.pan_range params) in
  let segment_index := default 0 (Params.segment_index params) in
  let use_horizontal :=
    if Qltb 0 h_range && Qltb 0 v_range then segment_index mod 2 =? 0
    else if Qltb 0 v_range then false
    else true in
  if Qleb h_range 0 && Qleb v_range 0 then
    try! img_aspect <- fdiv (inject_Z (width image))
                            (inject_Z (height image));
    try! out_aspect <- fdiv (inject_Z output_w) (inject_Z output_h);
    if Qltb out_aspect img_aspect then
      let new_height := output_h in
      let new_width := py_int (fmul (inject_Z new_height) img_aspect) in
      try! scaled_img <- resize image new_width new_height;
      let left := (new_width - output_w) / 2 in
      crop scaled_img left 0 (left + output_w) output_h
    else
      let new_width := output_w in
      try! q <- fdiv (inject_Z new_width) img_aspect;
      let new_height := py_int q in
      try! scaled_img <- resize image new_width new_height;
      let top := (new_height - output_h) / 2 in
      crop scaled_img 0 top output_w (top + output_h)
  else
    let img_w := width image in
    let img_h := height image in
    try! scale_ratio <-
      (if use_horizontal then
         let required_width := fmul (inject_Z output_w) (fadd 1 h_range) in
         try! ratio_w <- fdiv required_width (inject_Z img_w);
         try! ratio_h <- fdiv (inject_Z output_h) (inject_Z img_h);
         inr (py_max ratio_w ratio_h)
       else
         let required_height := fmul (inject_Z output_h) (fadd 1 v_range) in
         try! ratio_h <- fdiv required_height (inject_Z img_h);
         try! ratio_w <- fdiv (inject_Z output_w) (inject_Z img_w);
         inr (py_max ratio_w ratio_h));
    let new_width := py_int (fmul (inject_Z img_w) scale_ratio) in
    let new_height := py_int (fmul (inject_Z img_h) scale_ratio) in
    try! scaled_img <- resize image new_width new_height;
    try! p <- fdiv time_val duration;
    let progress := _ease_in_out_progress p in
    if use_horizontal then
      let max_x_offset := width scaled_img - output_w in
      let x_offset := py_int (fmul (inject_Z max_x_offset) progress) in
      let y_offset := (height scaled_img - output_h) / 2 in
      crop scaled_img x_offset y_offset
           (x_offset + output_w) (y_offset + output_h)
    else
      let max_y_offset := height scaled_img - output_h in
      let y_offset := py_int (fmul (inject_Z max_y_offset) progress) in
      let x_offset := (width scaled_img - output_w) / 2 in
      crop scaled_img x_offset y_offset
           (x_offset + output_w) (y_offset + output_h).

Definition apply_effects (image : Image) (time_val duration : Q)
    (params : Params.t) : result Image :=
  let processed_image := image in
  try! processed_image <-
    (if default true (Params.use_pan params)
     then pan_effect processed_image time_val duration params
     else inr processed_image);
  inr (fade_effect processed_image time_val duration params).

End Effects.
End ImageEffects.

(** ** Strings and paths ([str], [os.path], POSIX flavour) *)

Definition is_slash (c : ascii) : bool := Ascii.eqb c "/".
Definition is_dot (c : ascii) : bool := Ascii.eqb c ".".

(** [c.isdigit()] for an ASCII character [c]: one of [0] to [9]. *)
Definition ascii_isdigit (c : ascii) : bool :=
  ((48 <=? nat_of_ascii c) && (nat_of_ascii c <=? 57))%nat.

Fixpoint all_chars (p : ascii -> bool) (s : string) : bool :=
  match s with
  | EmptyString => true
  | String c r => p c && all_chars p r
  end.

(** [s.isdigit()] for a string [s] of ASCII characters: non-empty and
    digits only.  Python's [str.isdigit] also accepts the digits of
    other scripts and digit-like characters such as superscripts; the
    properties of the directory listing are stated for names made of
    ASCII characters ([ascii_name]), on which the two agree. *)
Definition isdigit (s : string) : bool :=
  match s with
  | EmptyString => false
  | _ => all_chars ascii_isdigit s
  end.

(** A name all of whose characters are ASCII. *)
Definition ascii_name (s : string) : bool :=
  all_chars (fun c => (nat_of_ascii c <? 128)%nat) s.

Fixpoint int_digits (acc : Z) (s : string) : Z :=
  match s with
  | EmptyString => acc
  | String c r => int_digits (10 * acc + (Z.of_nat (nat_of_ascii c) - 48)) r
  end.

(** [int(s)] for a string of digits. *)
Definition py_int_of_str (s : string) : Z := int_digits 0 s.

(** [str(n)] / f-string formatting of a non-negative integer. *)
Definition str_of_N (n : N) : string := pretty n.

Fixpoint ends_with_slash (s : string) : bool :=
  match s with
  | EmptyString => false
  | String c EmptyString => is_slash c
  | String _ r => ends_with_slash r
  end.

Definition starts_with_slash (s : string) : bool :=
  match s with
  | String c _ => is_slash c
  | EmptyString => false
  end.

(** [os.path.join(a, b)]. *)
Definition join (a b : string) : string :=
  if starts_with_slash b then b
  else match a with
       | EmptyString => b
       | _ => if ends_with_slash a then a +:+ b else a +:+ "/" +:+ b
       end.

(** [p[:i], p[i:]] with [i = p.rfind('/') + 1]. *)
Fixpoint split_last_slash (p : string) : string * string :=
  match p with
  | EmptyString => (EmptyString, EmptyString)
  | String c r =>
      let '(h, t) := split_last_slash r in
      match h with
      | EmptyString =>
          if is_slash c then (String c EmptyString, r)
          else (EmptyString, String c r)
      | _ => (String c h, t)
      end
  end.

Fixpoint rstrip_slash (s : string) : string :=
  match s with
  | EmptyString => EmptyString
  | String c r =>
      match rstrip_slash r with
      | EmptyString => if is_slash c then EmptyString else String c EmptyString
      | r' => String c r'
      end
  end.

(** [os.path.dirname(p)]. *)
Definition dirname (p : string) : string :=
  let head := fst (split_last_slash p) in
  if all_chars is_slash head then head else rstrip_slash head.

(** [os.path.basename(p)]. *)
Definition basename (p : string) : string := snd (split_last_slash p).

(** Split [s] at its last dot: [(s[:i], s[i:])] with [i = s.rfind('.')],
    or [None] when [s] has no dot. *)
Fixpoint split_last_dot (s : string) : option (string * string) :=
  match s with
  | EmptyString => None
  | String c r =>
      match split_last_dot r with
      | Some (a, b) => Some (String c a, b)
      | None => if is_dot c then Some (EmptyString, String c r) else None
      end
  end.

(** [os.path.splitext(p)]: the extension starts at the last dot of the
    last component, unless only dots precede it there. *)
Definition splitext (p : string) : string * string :=
  let '(head, tail) := split_last_slash p in
  match split_last_dot tail with
  | Some (a, ext) =>
      if all_chars is_dot a then (p, EmptyString) else (head +:+ a, ext)
  | None => (p, EmptyString)
  end.

(** [s.replace('\\', '/')]. *)
Fixpoint replace_backslash (s : string) : string :=
  match s with
  | EmptyString => EmptyString
  | String c r =>
      String (if Ascii.eqb c "\" then "/"%char else c) (replace_backslash r)
  end.

(** [needle in s]. *)
Fixpoint contains (needle s : string) : bool :=
  String.prefix needle s ||
  match s with
  | EmptyString => false
  | String _ r => contains needle r
  end.

(** [sorted(l, key=int)]: stable insertion sort on the integer value. *)
Fixpoint insert_by_int (x : string) (l : list string) : list string :=
  match l with
  | [] => [x]
  | y :: r =>
      if py_int_of_str x <? py_int_of_str y then x :: l
      else y :: insert_by_int x r
  end.

Definition sorted_by_int (l : list string) : list string :=
  foldr insert_by_int [] (reverse l).

(** ** Settings, files and the service object *)

(** [final_settings]: the defaults overlaid with the caller's dictionary,
    plus the ['chapter_path'] key set by [generate_video]. *)
Module Settings.
Record t : Type := {
  resolution : Z * Z;
  fps : Q;
  threads : Z;
  use_cuda : bool;
  codec : string;
  batch_size : Z;
  fade_duration : Q;
  use_pan : bool;
  pan_range : Q * Q;
  chapter_path : option string
}.
End Settings.

(** The caller's [video_settings] dictionary: every key is optional. *)
Module Overrides.
Record t : Type := {
  resolution : option (Z * Z);
  fps : option Q;
  threads : option Z;
  use_cuda : option bool;
  codec : option string;
  batch_size : option Z;
  fade_duration : option Q;
  use_pan : option bool;
  pan_range : option (Q * Q)
}.
End Overrides.

(** [{**default_settings, **video_settings}]. *)
Definition overlay (d : Settings.t) (o : Overrides.t) : Settings.t :=
  {| Settings.resolution :=
       default (Settings.resolution d) (Overrides.resolution o);
     Settings.fps := default (Settings.fps d) (Overrides.fps o);
     Settings.threads := default (Settings.threads d) (Overrides.threads o);
     Settings.use_cuda := default (Settings.use_cuda d) (Overrides.use_cuda o);
     Settings.codec := default (Settings.codec d) (Overrides.codec o);
     Settings.batch_size :=
       default (Settings.batch_size d) (Overrides.batch_size o);
     Settings.fade_duration :=
       default (Settings.fade_duration d) (Overrides.fade_duration o);
     Settings.use_pan := default (Settings.use_pan d) (Overrides.use_pan o);
     Settings.pan_range :=
       default (Settings.pan_range d) (Overrides.pan_range o);
     Settings.chapter_path := Settings.chapter_path d |}.

Definition with_chapter_path (s : Settings.t) (p : string) : Settings.t :=
  {| Settings.resolution := Settings.resolution s;
     Settings.fps := Settings.fps s;
     Settings.threads := Settings.threads s;
     Settings.use_cuda := Settings.use_cuda s;
     Settings.codec := Settings.codec s;
     Settings.batch_size := Settings.batch_size s;
     Settings.fade_duration := Settings.fade_duration s;
     Settings.use_pan := Settings.use_pan s;
     Settings.pan_range := Settings.pan_range s;
     Settings.chapter_path := Some p |}.

Definition with_use_cuda (s : Settings.t) (b : bool) : Settings.t :=
  {| Settings.resolution := Settings.resolution s;
     Settings.fps := Settings.fps s;
     Settings.threads := Settings.threads s;
     Settings.use_cuda := b;
     Settings.codec := Settings.codec s;
     Settings.batch_size := Settings.batch_size s;
     Settings.fade_duration := Settings.fade_duration s;
     Settings.use_pan := Settings.use_pan s;
     Settings.pan_range := Settings.pan_range s;
     Settings.chapter_path := Settings.chapter_path s |}.

(** What a file on disk holds, as far as the service can tell. *)
Inductive Payload : Type :=
  | Blob
  | ImageData (img : Image)
  | AudioData (duration : option Q)
  | VideoData (frames : list Image) (fps : Q)
  | ConcatList (lines : list string)
  | MergedVideo (inputs : list string).

Record File : Type := { st_size : Z; payload : Payload }.

(** A loaded [AudioFileClip]. *)
Record AudioFileClip : Type := { filename : string; duration : option Q }.

(** The fields of a [VideoService] instance. *)
Record VideoService : Type := {
  default_settings : Settings.t;
  stop_flag : bool;
  cuda_available : bool;
  progress : Z;
  total_segments : Z;
  current_task : option string
}.

(** The service object together with the disk and the nanosecond clock.
    [dirs] maps a directory to its entries; it is read once per job. *)
Record World : Type := {
  self : VideoService;
  files : gmap string File;
  dirs : gmap string (list string);
  clock : N
}.

Definition set_self (f : VideoService -> VideoService) (w : World) : World :=
  {| self := f (self w); files := files w; dirs := dirs w; clock := clock w |}.

Definition set_files (f : gmap string File -> gmap string File) (w : World)
    : World :=
  {| self := self w; files := f (files w); dirs := dirs w; clock := clock w |}.

Definition set_clock (c : N) (w : World) : World :=
  {| self := self w; files := files w; dirs := dirs w; clock := c |}.

Definition set_stop_flag (b : bool) (s : VideoService) : VideoService :=
  {| default_settings := default_settings s; stop_flag := b;
     cuda_available := cuda_available s; progress := progress s;
     total_segments := total_segments s; current_task := current_task s |}.

Definition set_progress (p : Z) (s : VideoService) : VideoService :=
  {| default_settings := default_settings s; stop_flag := stop_flag s;
     cuda_available := cuda_available s; progress := p;
     total_segments := total_segments s; current_task := current_task s |}.

Definition set_total_segments (n : Z) (s : VideoService) : VideoService :=
  {| default_settings := default_settings s; stop_flag := stop_flag s;
     cuda_available := cuda_available s; progress := progress s;
     total_segments := n; current_task := current_task s |}.

Definition set_current_task (t : option string) (s : VideoService)
    : VideoService :=
  {| default_settings := default_settings s; stop_flag := stop_flag s;
     cuda_available := cuda_available s; progress := progress s;
     total_segments := total_segments s; current_task := t |}.

(** ** The outside of the service *)

(** Points of a job at which a [cancel_generation()] of another
    request is modelled: after the flag has been reset, before each
    frame, and before the check that follows a batch.  These are the
    points after which the job still reads the flag.  A request that
    arrives later, while the merge or the clean-up is awaited, is not
    modelled: the job never reads the flag again, and the flag stays set
    until the next job resets it. *)
Inductive Checkpoint : Type :=
  | AfterClear
  | BeforeFrame (subdir : string) (i : Z)
  | BeforeBatchCheck (i : Z).

(** Outcome of moviepy's [write_videofile]; [debris] says whether a
    failed run leaves partial output behind. *)
Inductive EncodeOutcome : Type :=
  | Encoded (size : Z)
  | EncodeFailed (e : exn) (debris : bool).

(** Outcome of [subprocess.run] for the [ffmpeg] concat command: the
    process exits with status 0, or with another status and possibly a
    partial output file, or it cannot be started at all (no [ffmpeg]
    executable), which [subprocess.run] reports by raising [e]. *)
Inductive FfmpegOutcome : Type :=
  | Exit0 (size : Z)
  | ExitNonzero (stderr : string) (debris : bool)
  | NotStarted (e : exn).

Record Env : Type := {
  math_cos : Q -> Q;
  math_pi : Q;
  getpid : N;
  cpu_count : Z;
  abspath : string -> string;
  ffmpeg_encoders : result string;
  write_videofile :
    string -> string -> list Image -> Q -> list string -> Z -> EncodeOutcome;
  ffmpeg : list string -> FfmpegOutcome;
  remove_error : string -> N -> option exn;
  cancel_requested : Checkpoint -> bool
}.

(** ** State and exceptions *)

Definition M (S A : Type) : Type := S -> result A * S.

Definition ret {S A : Type} (a : A) : M S A := fun s => (inr a, s).

Definition raise {S A : Type} (e : exn) : M S A := fun s => (inl e, s).

Definition bind {S A B : Type} (m : M S A) (k : A -> M S B) : M S B :=
  fun s =>
    match m s with
    | (inl e, s') => (inl e, s')
    | (inr a, s') => k a s'
    end.

Notation "'do!' x <- m ; k" := (bind m (fun x => k))
  (at level 10, x name, m at level 100, k at level 200) : py_scope.
Notation "'do!' ' p <- m ; k" := (bind m (fun p => k))
  (at level 10, p pattern, m at level 100, k at level 200) : py_scope.
Notation "'run!' m ; k" := (bind m (fun _ => k))
  (at level 10, m at level 100, k at level 200) : py_scope.

Definition lift {S A : Type} (r : result A) : M S A := fun s => (r, s).

Definition get {S : Type} : M S S := fun s => (inr s, s).

Definition modify {S : Type} (f : S -> S) : M S unit := fun s => (inr tt, f s).

(** Run [m] and hand back its exception as a value
    ([except Exception as e] / [return_exceptions=True]). *)
Definition catch {S A : Type} (m : M S A) : M S (result A) :=
  fun s => let '(r, s') := m s in (inr r, s').

(** [try: body finally: final]. *)
Definition try_finally {S A : Type} (body : M S A) (final : M S unit) : M S A :=
  fun s =>
    let '(r, s1) := body s in
    match final s1 with
    | (inl e, s2) => (inl e, s2)
    | (inr _, s2) => (r, s2)
    end.

(** ** video_service.py *)

Section Service.

Variable env : Env.

(** *** Primitives: the flag, the clock, the disk *)

(** [self.stop_flag.is_set()]. *)
Definition is_set : M World bool :=
  fun w => (inr (stop_flag (self w)), w).

(** [cancel_generation]: sets the flag and acknowledges. *)
Definition cancel_generation : M World bool :=
  fun w => (inr true, set_self (set_stop_flag true) w).

(** Another request may call [cancel_generation()] at a checkpoint. *)
Definition interference (cp : Checkpoint) : M World unit :=
  if cancel_requested env cp
  then (run! cancel_generation; ret tt)
  else ret tt.

(** [time.time_ns()]: successive readings differ. *)
Definition time_ns : M World N :=
  fun w => (inr (clock w), set_clock (clock w + 1)%N w).

(** [os.path.exists(path)]. *)
Definition exists_ (path : string) : M World bool :=
  fun w => (inr (bool_decide (is_Some (files w !! path))), w).

(** [os.path.getsize(path)]. *)
Definition getsize (path : string) : M World Z :=
  fun w =>
    match files w !! path with
    | Some f => (inr (st_size f), w)
    | None => (inl (FileNotFoundError path), w)
    end.

(** Creating or overwriting a file. *)
Definition write_file (path : string) (f : File) : M World unit :=
  modify (set_files (insert path f)).

(** [time.sleep(seconds)], in nanoseconds. *)
Definition sleep (ns : N) : M World unit :=
  modify (fun w => set_clock (clock w + ns)%N w).

(** [os.remove(path)]: on a file that exists, [remove_error] says
    whether the removal fails at this time (a file locked by another
    process raises [PermissionError]). *)
Definition os_remove (path : string) : M World unit :=
  fun w =>
    match files w !! path with
    | Some _ =>
        match remove_error env path (clock w) with
        | Some e => (inl e, w)
        | None => (inr tt, set_files (delete path) w)
        end
    | None => (inl (FileNotFoundError path), w)
    end.

(** [os.replace(src, dst)]: an atomic rename over the destination. *)
Definition os_replace (src dst : string) : M World unit :=
  fun w =>
    match files w !! src with
    | Some f => (inr tt, set_files (fun m => <[dst := f]> (delete src m)) w)
    | None => (inl (FileNotFoundError src), w)
    end.

(** [os.listdir(path)]. *)
Definition listdir (path : string) : M World (list string) :=
  fun w =>
    match dirs w !! path with
    | Some entries => (inr entries, w)
    | None => (inl (FileNotFoundError path), w)
    end.

(** [os.path.isdir(path)], read off a world. *)
Definition isdir (w : World) (path : string) : bool :=
  bool_decide (is_Some (dirs w !! path)).

(** [Image.open(path)], converted to RGB and copied. *)
Definition Image_open (path : string) : M World Image :=
  fun w =>
    match files w !! path with
    | Some {| payload := ImageData img |} => (inr img, w)
    | Some _ => (inl (OSError ("cannot identify image file " +:+ path)), w)
    | None => (inl (FileNotFoundError path), w)
    end.

(** [AudioFileClip(path)]. *)
Definition AudioFileClip_open (path : string) : M World AudioFileClip :=
  fun w =>
    match files w !! path with
    | Some {| payload := AudioData d |} =>
        (inr {| filename := path; duration := d |}, w)
    | Some _ =>
        (inl (OSError ("failed to read the duration of file " +:+ path)),
         w)
    | None => (inl (FileNotFoundError path), w)
    end.

(** *** __init__ and _check_hardware *)

Definition initial_default_settings : Settings.t :=
  {| Settings.resolution := (1024, 1024);
     Settings.fps := 20;
     Settings.threads := Z.max 2 (cpu_count env / 2);
     Settings.use_cuda := true;
     Settings.codec := "h264_nvenc";
     Settings.batch_size := Z.max 2 (cpu_count env / 2);
     Settings.fade_duration := 1;
     Settings.use_pan := true;
     Settings.pan_range := ((1 # 2)%Q, (1 # 2)%Q);
     Settings.chapter_path := None |}.

(** Returns the availability and the (possibly updated) defaults. *)
Definition _check_hardware (default_settings : Settings.t)
    : bool * Settings.t :=
  match ffmpeg_encoders env with
  | inr stdout =>
      let cuda_available := contains "h264_nvenc" stdout in
      if negb cuda_available
      then (cuda_available, with_use_cuda default_settings false)
      else (cuda_available, default_settings)
  | inl _ => (false, default_settings)
  end.

Definition __init__ : VideoService :=
  let '(cuda, defaults) := _check_hardware initial_default_settings in
  {| default_settings := defaults;
     stop_flag := false;
     cuda_available := cuda;
     progress := 0;
     total_segments := 0;
     current_task := None |}.

(** *** _load_resources *)

Definition check_resource (path : string) : M World unit :=
  do! present <- exists_ path;
  if negb present then raise (FileNotFoundError ("File not found: " +:+ path))
  else
    do! size <- getsize path;
    if size <? 1024 then raise (ValueError ("File too small: " +:+ path))
    else ret tt.

Definition _load_resources (subdir_path : string) (resolution : Z * Z)
    : M World (Image * AudioFileClip) :=
  let image_path := join subdir_path "image.png" in
  let audio_path := join subdir_path "audio.mp3" in
  run! check_resource image_path;
  run! check_resource audio_path;
  do! image <- Image_open image_path;
  do! audio <- AudioFileClip_open audio_path;
  match duration audio with
  | None =>
      raise (ValueError
        ("Audio file duration too short or invalid: " +:+ audio_path))
  | Some d =>
      if Qltb d (5 # 100) then
        raise (ValueError
          ("Audio file duration too short or invalid: " +:+ audio_path))
      else ret (image, audio)
  end.

(** *** _apply_effects *)

Definition _apply_effects (image : Image) (time_val duration : Q)
    (settings : Settings.t) (subdir : string) : result Image :=
  let effect_params :=
    {| Params.output_size := Settings.resolution settings;
       Params.fade_duration := Some (Settings.fade_duration settings);
       Params.use_pan := Some (Settings.use_pan settings);
       Params.pan_range := Some (Settings.pan_range settings);
       Params.segment_index :=
         Some (if isdigit subdir then py_int_of_str subdir else 0) |} in
  ImageEffects.apply_effects (math_cos env) (math_pi env)
    image time_val duration effect_params.

(** *** _write_temp_video *)

(** The [ffmpeg_params] list: hardware codec when enabled and
    available, software codec at a fixed quality otherwise. *)
Definition video_ffmpeg_params (settings : Settings.t)
    (cuda_available : bool) : list string :=
  if Settings.use_cuda settings && cuda_available
  then ["-c:v"; "h264_nvenc"; "-preset"; "medium"]
  else ["-c:v"; "libx264"; "-preset"; "medium"; "-crf"; "23"].

(** Building the [ImageSequenceClip], fitting the audio to it and
    calling [final_clip.write_videofile(...)]: the outcome is the
    encoder's, for these frames and parameters. *)
Definition encode (w : World) (frames : list Image)
    (output_path temp_audio_path : string) (settings : Settings.t)
    : EncodeOutcome :=
  write_videofile env output_path temp_audio_path frames
    (Settings.fps settings)
    (video_ffmpeg_params settings (cuda_available (self w)))
    (Settings.threads settings).

Definition _write_temp_video (frames : list Image) (audio : AudioFileClip)
    (output_path temp_audio_path : string) (settings : Settings.t)
    : M World unit :=
  do! w <- get;
  match encode w frames output_path temp_audio_path settings with
  | Encoded size =>
      run! write_file output_path
             {| st_size := size;
                payload := VideoData frames (Settings.fps settings) |};
      modify (set_files (delete temp_audio_path))
  | EncodeFailed e debris =>
      run! (if debris then
              run! write_file output_path {| st_size := 0; payload := Blob |};
              write_file temp_audio_path {| st_size := 0; payload := Blob |}
            else ret tt);
      raise e
  end.

(** *** _process_segment *)

(** The frame loop [for i in range(total_frames)], entered at index [i]
    with [n] iterations left. *)
Fixpoint render_frames (n : nat) (i : Z) (frames : list Image)
    (image : Image) (duration : Q) (settings : Settings.t)
    (subdir : string) : M World (list Image) :=
  match n with
  | O => ret frames
  | S n' =>
      run! interference (BeforeFrame subdir i);
      do! stop <- is_set;
      if stop then ret frames
      else
        do! time_val <- lift (fdiv (inject_Z i) (Settings.fps settings));
        do! frame <- lift (_apply_effects image time_val duration
                             settings subdir);
        render_frames n' (i + 1) (frames ++ [frame])
                      image duration settings subdir
  end.

Definition temp_video_name (subdir : string) : string :=
  "vid_" +:+ subdir +:+ "_" +:+ str_of_N (getpid env) +:+ ".mp4".

Definition temp_audio_name (subdir : string) (now : N) : string :=
  "temp_audio_" +:+ subdir +:+ "_" +:+ str_of_N (getpid env) +:+ "_"
    +:+ str_of_N now +:+ ".m4a".

Definition _process_segment (subdir temp_dir : string)
    (settings : Settings.t) : M World (string * string) :=
  let temp_file := join temp_dir (temp_video_name subdir) in
  do! now <- time_ns;
  let temp_audio_path :=
    join (dirname temp_file) (temp_audio_name subdir now) in
  do! chapter_path <-
    lift (match Settings.chapter_path settings with
          | Some p => inr p
          | None => inl (KeyError "chapter_path")
          end);
  do! ' (image, audio) <-
    _load_resources (join chapter_path subdir) (Settings.resolution settings);
  do! duration <-
    lift (match duration audio with
          | Some d => inr d
          | None => inl (TypeError "unsupported operand type(s) for *")
          end);
  let total_frames := py_int (fmul duration (Settings.fps settings)) in
  if total_frames =? 0 then
    raise (ValueError
      ("Calculated total frames is 0, video duration too short. Subdir: "
         +:+ subdir))
  else
    do! frames <-
      render_frames (Z.to_nat total_frames) 0 [] image duration settings
        subdir;
    run! _write_temp_video frames audio temp_file temp_audio_path settings;
    do! size <- getsize temp_file;
    run! modify (set_self (fun s => set_progress (progress s + 1) s));
    ret (temp_file, temp_audio_path).

(** *** _cleanup_temp_files *)

(** The retry loop [for i in range(attempts)] for one path, entered at
    attempt [i] with [n] attempts left.  After a [PermissionError] the
    loop goes on to the next attempt, after a warning and a pause of
    half a second when [i < attempts - 1], after an error message
    otherwise; any other exception ends the loop. *)
Fixpoint remove_with_retries (n : nat) (i attempts : Z) (f_path : string)
    : M World unit :=
  match n with
  | O => ret tt
  | S n' =>
      do! r <- catch (os_remove f_path);
      match r with
      | inr _ => ret tt
      | inl (PermissionError _) =>
          run! (if i <? attempts - 1 then sleep 500000000 else ret tt);
          remove_with_retries n' (i + 1) attempts f_path
      | inl _ => ret tt
      end
  end.

Fixpoint _cleanup_temp_files (files : list string) : M World unit :=
  match files with
  | [] => ret tt
  | f_path :: rest =>
      do! present <- exists_ f_path;
      run! (if negb present then ret tt
            else remove_with_retries 3 0 3 f_path);
      _cleanup_temp_files rest
  end.

(** *** _merge_videos *)

Definition concat_line (file : string) : string :=
  "file '" +:+ replace_backslash (abspath env file) +:+ "'".

(** [subprocess.run(cmd, check=True, capture_output=True)] for the
    concat command: on exit status 0 the output file holds the listed
    inputs joined in order. *)
Definition run_concat (cmd : list string) (concat_list output : string)
    : M World unit :=
  do! w <- get;
  match ffmpeg env cmd with
  | Exit0 size =>
      let inputs :=
        match files w !! concat_list with
        | Some {| payload := ConcatList lines |} => lines
        | _ => []
        end in
      write_file output {| st_size := size; payload := MergedVideo inputs |}
  | ExitNonzero stderr debris =>
      run! (if debris
            then write_file output {| st_size := 0; payload := Blob |}
            else ret tt);
      raise (CalledProcessError stderr)
  | NotStarted e => raise e
  end.

Definition remove_if_exists (path : string) : M World unit :=
  do! present <- exists_ path;
  if present then os_remove path else ret tt.

Definition _merge_videos (temp_files : list string) (output_path : string)
    (settings : Settings.t) : M World string :=
  let concat_list := join (dirname output_path) "concat.txt" in
  let '(root, ext) := splitext output_path in
  let temp_output_path :=
    root +:+ ".tmp_" +:+ str_of_N (getpid env) +:+ ext in
  try_finally
    (run! write_file concat_list
            {| st_size := 0;
               payload := ConcatList (map concat_line temp_files) |};
     do! w <- get;
     let cmd :=
       ["ffmpeg"; "-f"; "concat"; "-safe"; "0"; "-i"; concat_list;
        "-c"; "copy"; "-movflags"; "+faststart"; "-y"; temp_output_path] in
     let cmd :=
       if Settings.use_cuda settings && cuda_available (self w)
       then match cmd with
            | c :: rest =>
                c :: ["-hwaccel"; "cuda"; "-hwaccel_output_format"; "cuda"]
                  ++ rest
            | [] => []
            end
       else cmd in
     run! run_concat cmd concat_list temp_output_path;
     run! os_replace temp_output_path output_path;
     ret output_path)
    (run! remove_if_exists concat_list;
     remove_if_exists temp_output_path).

(** *** generate_video *)

(** The two lists [generate_video] fills while rendering; they outlive
    an exception, since the [finally] block reads them. *)
Record Locals : Type := {
  temp_video_files : list string;
  all_temp_files : list string
}.

Definition Job : Type := (World * Locals)%type.

(** A service operation run inside the job. *)
Definition in_job {A : Type} (m : M World A) : M Job A :=
  fun j =>
    let '(r, w') := m (fst j) in (r, (w', snd j)).

(** [asyncio.gather] with [return_exceptions=True]: one result per
    segment of the batch, in batch order, an exception being a result.
    The segments of a batch share only the counter and the flag, and
    write to paths of their own; their interleaving is modelled by the
    run in batch order, with a cancellation possible before any frame
    of any of them. *)
Fixpoint gather (batch : list string) (temp_dir : string)
    (settings : Settings.t) : M World (list (result (string * string))) :=
  match batch with
  | [] => ret []
  | subdir :: rest =>
      do! r <- catch (_process_segment subdir temp_dir settings);
      do! rs <- gather rest temp_dir settings;
      ret (r :: rs)
  end.

(** [for result in batch_results: ...]. *)
Fixpoint collect (batch_results : list (result (string * string)))
    : M Job unit :=
  match batch_results with
  | [] => ret tt
  | inl _ :: rest => collect rest
  | inr (video_path, audio_path) :: rest =>
      run! modify (fun j : Job =>
             (fst j,
              {| temp_video_files := temp_video_files (snd j) ++ [video_path];
                 all_temp_files :=
                   all_temp_files (snd j) ++ [video_path; audio_path] |}));
      collect rest
  end.

(** [range(0, stop, step)]. *)
Definition py_range0 (stop step : Z) : result (list Z) :=
  if step =? 0 then inl (ValueError "range() arg 3 must not be zero")
  else if step <? 0 then inr []
  else inr ((fun k => k * step) <$> seqZ 0 ((stop + step - 1) / step)).

(** [l[i:j]] for [0 <= i]. *)
Definition slice {A : Type} (l : list A) (i j : Z) : list A :=
  take (Z.to_nat (j - i)) (drop (Z.to_nat i) l).

(** The body of [for i in range(0, len(subdirs), batch_size)], over the
    remaining values of [i]. *)
Fixpoint run_batches (starts : list Z) (subdirs : list string)
    (batch_size : Z) (chapter_path : string) (final_settings : Settings.t)
    : M Job unit :=
  match starts with
  | [] => ret tt
  | i :: later =>
      let batch := slice subdirs i (i + batch_size) in
      do! batch_results <- in_job (gather batch chapter_path final_settings);
      run! collect batch_results;
      run! in_job (interference (BeforeBatchCheck i));
      do! stop <- in_job is_set;
      if stop then raise (ValueError "Video generation cancelled by user")
      else run_batches later subdirs batch_size chapter_path final_settings
  end.

(** The segment directories of a chapter, in ascending numeric order. *)
Definition list_segments (chapter_path : string) : M World (list string) :=
  do! entries <- listdir chapter_path;
  do! w <- get;
  ret (sorted_by_int
         (filter (fun d => isdir w (join chapter_path d) && isdigit d = true)
                 entries)).

(** Progress initialisation, under the lock. *)
Definition start_job (subdirs : list string) (chapter_path : string)
    : M World unit :=
  modify (set_self (fun s =>
    set_current_task (Some (basename chapter_path))
      (set_total_segments (Z.of_nat (length subdirs))
        (set_progress 0 s)))).

(** The [try] block of [generate_video]. *)
Definition generate_video_body (chapter_path output_path : string)
    (final_settings : Settings.t) : M Job string :=
  do! subdirs <- in_job (list_segments chapter_path);
  match subdirs with
  | [] => raise (ValueError "No valid video segments")
  | _ =>
      run! in_job (start_job subdirs chapter_path);
      let batch_size := Settings.batch_size final_settings in
      do! starts <-
        lift (py_range0 (Z.of_nat (length subdirs)) batch_size);
      run! run_batches starts subdirs batch_size chapter_path final_settings;
      do! j <- get;
      if negb (length (temp_video_files (snd j)) =? length subdirs)%nat then
        raise (ValueError
          "Some video segments failed to generate, cannot merge. Check logs.")
      else
        match temp_video_files (snd j) with
        | [] => raise (ValueError "No valid video segments generated")
        | _ =>
            run! in_job (modify (set_self
                   (set_current_task (Some "Merging videos"))));
            do! result <-
              in_job (_merge_videos (temp_video_files (snd j)) output_path
                        final_settings);
            run! in_job (modify (set_self (fun s =>
                   set_progress (total_segments s)
                     (set_current_task (Some "Completed") s))));
            ret result
        end
  end.

(** The [finally] block of [generate_video]. *)
Definition generate_video_finally : M Job unit :=
  do! j <- get;
  match all_temp_files (snd j) with
  | [] => ret tt
  | _ => in_job (_cleanup_temp_files (all_temp_files (snd j)))
  end.

Definition no_overrides : Overrides.t :=
  {| Overrides.resolution := None; Overrides.fps := None;
     Overrides.threads := None; Overrides.use_cuda := None;
     Overrides.codec := None; Overrides.batch_size := None;
     Overrides.fade_duration := None; Overrides.use_pan := None;
     Overrides.pan_range := None |}.

(** What [generate_video] sets up before its [try] block: the absolute
    chapter path, the final settings, the output path, and the world
    once the stop flag has been cleared. *)
Definition job_context (chapter_path : string)
    (video_settings : option Overrides.t) (w : World)
    : string * Settings.t * string * World :=
  let chapter_path := abspath env chapter_path in
  let w := set_self (set_stop_flag false) w in
  let w := snd (interference AfterClear w) in
  let final_settings :=
    with_chapter_path
      (overlay (default_settings (self w))
               (default no_overrides video_settings))
      chapter_path in
  let output_path := join chapter_path "video.mp4" in
  (chapter_path, final_settings, output_path, w).

Definition no_locals : Locals :=
  {| temp_video_files := []; all_temp_files := [] |}.

Definition generate_video (chapter_path : string)
    (video_settings : option Overrides.t) : M World string :=
  fun w =>
    let '(chapter_path, final_settings, output_path, w) :=
      job_context chapter_path video_settings w in
    let '(r, j) :=
      try_finally
        (generate_video_body chapter_path output_path final_settings)
        generate_video_finally
        (w, no_locals) in
    (r, fst j).

(** What a call of [generate_video] does before it first yields to the
    event loop (lines 189-221, up to the first [await]): the flag is
    cleared, the segments are listed and the progress is initialised.
    Nothing else runs in between, so a job already under way on the same
    service object sees this as one step. *)
Definition begin_job (chapter_path : string)
    (video_settings : option Overrides.t) : M World (list string) :=
  fun w =>
    let '(chapter_path, final_settings, output_path, w) :=
      job_context chapter_path video_settings w in
    (do! subdirs <- list_segments chapter_path;
     match subdirs with
     | [] => raise (ValueError "No valid video segments")
     | _ =>
         run! start_job subdirs chapter_path;
         ret subdirs
     end) w.

End Service.

(** *** get_progress *)

Module Progress.
Record t : Type := {
  progress : Z;
  total : Z;
  percentage : Z;
  current_task : option string
}.
End Progress.

Definition get_progress : M World Progress.t :=
  fun w =>
    let total := Z.max 1 (total_segments (self w)) in
    match truediv (inject_Z (progress (self w))) (inject_Z total) with
    | inl e => (inl e, w)
    | inr q =>
        let percentage := py_int (q * 100) in
        (inr {| Progress.progress := progress (self w);
                Progress.total := total;
                Progress.percentage := percentage;
                Progress.current_task := current_task (self w) |}, w)
    end.

(** ** States a service object can be in *)

(** The states of a service object whose jobs do not overlap.  The
    object is constructed, then serves requests one after the other:
    cancellation requests and video jobs, each job ending before the
    next begins.  While a job renders, any selection [finished] of its
    segments may have finished, in any order.  The disk and the clock
    change freely between two observations.  (The controller does not
    prevent a second [generate_video] call while one is running: see
    [begin_job].) *)
Inductive reachable : World -> Prop :=
  | reach_init (env : Env) (fs : gmap string File)
      (ds : gmap string (list string)) (c : N) :
      reachable {| self := __init__ env; files := fs; dirs := ds; clock := c |}
  | reach_outside (w : World) (fs : gmap string File)
      (ds : gmap string (list string)) (c : N) :
      reachable w ->
      reachable {| self := self w; files := fs; dirs := ds; clock := c |}
  | reach_cancel (w : World) :
      reachable w -> reachable (snd (cancel_generation w))
  | reach_job_done (env : Env) (w : World) (chapter_path : string)
      (video_settings : option Overrides.t) :
      reachable w ->
      reachable (snd (generate_video env chapter_path video_settings w))
  | reach_job_running (env : Env) (w w0 w1 : World)
      (chapter_path cp output_path : string)
      (video_settings : option Overrides.t) (final_settings : Settings.t)
      (subdirs finished : list string) :
      reachable w ->
      job_context env chapter_path video_settings w
        = (cp, final_settings, output_path, w0) ->
      list_segments cp w0 = (inr subdirs, w1) ->
      subdirs <> [] ->
      finished ⊆+ subdirs ->
      reachable (snd (gather env finished cp final_settings
                        (snd (start_job subdirs cp w1)))).

(** A segment directory holding a usable picture and a narration of
    [seconds] seconds. *)
Definition segment_on_disk (w : World) (dir : string) (image : Image)
    (seconds : Q) : Prop :=
  exists fi fa : File,
    files w !! join dir "image.png" = Some fi /\
    (1024 <= st_size fi)%Z /\ payload fi = ImageData image /\
    files w !! join dir "audio.mp3" = Some fa /\
    (1024 <= st_size fa)%Z /\ payload fa = AudioData (Some seconds).

(** What remains of [_process_segment] once the resources are loaded
    and the frame count is known to be non-zero. *)
Definition render_and_encode (env : Env)
    (subdir temp_file temp_audio_path : string)
    (image : Image) (audio : AudioFileClip) (seconds : Q)
    (settings : Settings.t) : M World (string * string) :=
  do! frames <-
    render_frames env
      (Z.to_nat (py_int (fmul seconds (Settings.fps settings)))) 0 []
      image seconds settings subdir;
  run! _write_temp_video env frames audio temp_file temp_audio_path settings;
  do! size <- getsize temp_file;
  run! modify (set_self (fun s => set_progress (progress s + 1) s));
  ret (temp_file, temp_audio_path).

(** The clips, and all the temp files, named by the results of a batch. *)
Definition video_paths (rs : list (result (string * string))) : list string :=
  flat_map (fun r => match r with inr (v, _) => [v] | inl _ => [] end) rs.

Definition temp_paths (rs : list (result (string * string))) : list string :=
  flat_map (fun r => match r with inr (v, a) => [v; a] | inl _ => [] end) rs.

(** The batches [subdirs[i:i+batch_size]] for the given values of [i]. *)
Definition batches_of (starts : list Z) (subdirs : list string)
    (batch_size : Z) : list (list string) :=
  map (fun i => slice subdirs i (i + batch_size)) starts.

(** The world when the merge starts, and when the job has completed. *)
Definition merging (w : World) : World :=
  set_self (set_current_task (Some "Merging videos")) w.

Definition completed (w : World) : World :=
  set_self (fun s => set_progress (total_segments s)
                       (set_current_task (Some "Completed") s)) w.

(** The counter is between zero and the total. *)
Definition counter_in_range (w : World) : Prop :=
  (0 <= progress (self w) <= total_segments (self w))%Z.

(** The error a cancelled job raises. *)
Definition cancellation_error : exn :=
  ValueError "Video generation cancelled by user".

(** The error of a job some of whose segments failed. *)
Definition partial_failure_error : exn :=
  ValueError
    "Some video segments failed to generate, cannot merge. Check logs.".

(** The frames of a segment for the indices [i], [i + 1], ...,
    [i + n - 1], when each of them can be computed. *)
Fixpoint frame_sequence (env : Env) (n : nat) (i : Z) (image : Image)
    (duration : Q) (settings : Settings.t) (subdir : string)
    : result (list Image) :=
  match n with
  | O => inr []
  | S n' =>
      try! time_val <- fdiv (inject_Z i) (Settings.fps settings);
      try! frame <- _apply_effects env image time_val duration settings subdir;
      try! rest <- frame_sequence env n' (i + 1) image duration settings subdir;
      inr (frame :: rest)
  end.

(** ** Vocabulary of the proofs *)

(** [preserves R m]: running [m] relates the state before to the state
    after by [R], whether [m] returns or raises. *)
Definition preserves {S A : Type} (R : S -> S -> Prop) (m : M S A) : Prop :=
  forall s, R s (snd (m s)).

(** A relation on worlds, read on the world of a job. *)
Definition on_world (R : World -> World -> Prop) (j j' : Job) : Prop :=
  R (fst j) (fst j').

(** The file at [path] is the same. *)
Definition same_file (path : string) (w w' : World) : Prop :=
  files w' !! path = files w !! path.

(** The progress counter and the total are the same. *)
Definition same_counters (w w' : World) : Prop :=
  progress (self w') = progress (self w) /\
  total_segments (self w') = total_segments (self w).

(** A set stop flag stays set. *)
Definition flag_kept (w w' : World) : Prop :=
  stop_flag (self w) = true -> stop_flag (self w') = true.

(** The disk is the same. *)
Definition same_disk (w w' : World) : Prop := files w' = files w.

(** The stop flag is the same. *)
Definition same_flag (w w' : World) : Prop :=
  stop_flag (self w') = stop_flag (self w).

(** [ends_in t s]: the string [t] ends with [s]. *)
Definition ends_in (t s : string) : Prop := exists p, t = p +:+ s.

(** [join a b] is [b] after some prefix that depends on [a] only when [b]
    is relative. *)
Definition join_prefix (a : string) : string :=
  match a with
  | EmptyString => EmptyString
  | _ => if ends_with_slash a then a else a +:+ "/"
  end.

(** [returns P m]: every value [m] returns satisfies [P]. *)
Definition returns {S A : Type} (P : A -> Prop) (m : M S A) : Prop :=
  forall s a s', m s = (inr a, s') -> P a.

(** [on_error R m]: when [m] raises, [R] relates the states around it. *)
Definition on_error {S A : Type} (R : S -> S -> Prop) (m : M S A) : Prop :=
  forall s e s', m s = (inl e, s') -> R s s'.

(** [never_raises m]: [m] always returns. *)
Definition never_raises {S A : Type} (m : M S A) : Prop :=
  forall s, exists a, fst (m s) = inr a.

(** No file is locked: every removal of a file that exists succeeds. *)
Definition unlocked (env : Env) : Prop :=
  forall path now, remove_error env path now = None.

(** moviepy's [ImageSequenceClip] cannot be built from no frame at all:
    the encoder fails on an empty frame list, before writing. *)
Definition rejects_empty_clips (env : Env) : Prop :=
  forall output_path temp_audio_path fps ffmpeg_params threads,
  exists e,
    write_videofile env output_path temp_audio_path [] fps ffmpeg_params
      threads = EncodeFailed e false.

(** ** A concrete chapter, used to run the model *)

Module Demo.

(** [math.pi]: the binary64 number nearest to pi. *)
Definition pi : Q := 884279719003555 # 281474976710656.

(** A polynomial stand-in for [math.cos] on [[0, pi]], exact at both
    ends: [1 - 2 (3 u^2 - 2 u^3)] with [u = x / pi], rounded. *)
Definition cos (x : Q) : Q :=
  let u := (x / pi)%Q in
  fl (1 - 2 * (3 * (u * u) - 2 * (u * u * u))).

(** The encoder refuses an empty frame list (moviepy's
    [ImageSequenceClip] indexes its first frame) and otherwise
    succeeds. *)
Definition encoder (output_path temp_audio_path : string)
    (frames : list Image) (fps : Q) (ffmpeg_params : list string)
    (threads : Z) : EncodeOutcome :=
  match frames with
  | [] => EncodeFailed (IndexError "list index out of range") false
  | _ => Encoded (2048 * Z.of_nat (length frames))
  end.

(** No cancellation request arrives. *)
Definition quiet : Env :=
  {| math_cos := cos;
     math_pi := pi;
     getpid := 4242%N;
     cpu_count := 4;
     abspath := fun p => p;
     ffmpeg_encoders := inr "V..... libx264  H.264 (codec h264)";
     write_videofile := encoder;
     ffmpeg := fun _ => Exit0 65536;
     remove_error := fun _ _ => None;
     cancel_requested := fun _ => false |}.

(** A cancellation request arrives just before the checkpoint [cp]. *)
Definition cancelling (cp : Checkpoint -> bool) : Env :=
  {| math_cos := cos;
     math_pi := pi;
     getpid := 4242%N;
     cpu_count := 4;
     abspath := fun p => p;
     ffmpeg_encoders := inr "V..... libx264  H.264 (codec h264)";
     write_videofile := encoder;
     ffmpeg := fun _ => Exit0 65536;
     remove_error := fun _ _ => None;
     cancel_requested := cp |}.

Definition chapter : string := "/projects/demo/ch1".

Definition picture (name : string) : File :=
  {| st_size := 204800; payload := ImageData (Bitmap 1600 1200 name) |}.

Definition narration (seconds : Q) : File :=
  {| st_size := 48000; payload := AudioData (Some seconds) |}.

Definition old_video : File :=
  {| st_size := 1000000; payload := MergedVideo ["previous run"] |}.

(** Two segments, narrated for 2 and 3 seconds, and a video left by an
    earlier run. *)
Definition disk : gmap string File :=
  <["/projects/demo/ch1/1/image.png" := picture "one"]>
  (<["/projects/demo/ch1/1/audio.mp3" := narration 2]>
  (<["/projects/demo/ch1/2/image.png" := picture "two"]>
  (<["/projects/demo/ch1/2/audio.mp3" := narration 3]>
  (<["/projects/demo/ch1/video.mp4" := old_video]> ∅)))).

Definition tree : gmap string (list string) :=
  <["/projects/demo/ch1" := ["2"; "notes"; "1"; "video.mp4"]]>
  (<["/projects/demo/ch1/1" := ["image.png"; "audio.mp3"]]>
  (<["/projects/demo/ch1/2" := ["image.png"; "audio.mp3"]]>
  (<["/projects/demo/ch1/notes" := []]> ∅))).

(** A freshly constructed service over that disk. *)
Definition world : World :=
  {| self := __init__ quiet; files := disk; dirs := tree;
     clock := 1700000000000000000%N |}.

(** Two frames per second instead of the default twenty. *)
Definition slow : Overrides.t :=
  {| Overrides.resolution := Some (640, 360); Overrides.fps := Some 2%Q;
     Overrides.threads := None; Overrides.use_cuda := None;
     Overrides.codec := None; Overrides.batch_size := None;
     Overrides.fade_duration := None; Overrides.use_pan := None;
     Overrides.pan_range := None |}.

Definition slow_settings : Settings.t :=
  with_chapter_path (overlay (default_settings (self world)) slow) chapter.

(** The default settings of that service, for this chapter. *)
Definition default_job_settings : Settings.t :=
  with_chapter_path (overlay (default_settings (self world)) no_overrides)
    chapter.

(** The narration of segment 2 was left empty by the step before. *)
Definition broken_disk : gmap string File :=
  <["/projects/demo/ch1/2/audio.mp3" := {| st_size := 0; payload := Blob |}]>
    disk.

Definition broken_world : World :=
  {| self := __init__ quiet; files := broken_disk; dirs := tree;
     clock := 1700000000000000000%N |}.

(** A cancellation request lands while segment 2 is about to render its
    fourth frame. *)
Definition stop_at_fourth_frame : Env :=
  cancelling (fun cp => match cp with
                        | BeforeFrame "2" 3 => true
                        | _ => false
                        end).

(** A cancellation request lands right after the job has reset the
    flag. *)
Definition stop_after_reset : Env :=
  cancelling (fun cp => match cp with AfterClear => true | _ => false end).

(** Another process holds [concat.txt] open: removing it fails. *)
Definition locked_list : Env :=
  {| math_cos := cos;
     math_pi := pi;
     getpid := 4242%N;
     cpu_count := 4;
     abspath := fun p => p;
     ffmpeg_encoders := inr "V..... libx264  H.264 (codec h264)";
     write_videofile := encoder;
     ffmpeg := fun _ => Exit0 65536;
     remove_error := fun path _ =>
       if bool_decide (path = "/projects/demo/ch1/concat.txt")
       then Some (PermissionError "[WinError 32] concat.txt")
       else None;
     cancel_requested := fun _ => false |}.

(** No [ffmpeg] executable is installed. *)
Definition no_ffmpeg : Env :=
  {| math_cos := cos;
     math_pi := pi;
     getpid := 4242%N;
     cpu_count := 4;
     abspath := fun p => p;
     ffmpeg_encoders := inl (FileNotFoundError "ffmpeg");
     write_videofile := encoder;
     ffmpeg := fun _ => NotStarted (FileNotFoundError "ffmpeg");
     remove_error := fun _ _ => None;
     cancel_requested := fun _ => false |}.

(** Segment 1 is narrated for 0.3 s: its duration is the binary64
    number nearest to 0.3. *)
Definition short_world : World :=
  {| self := __init__ quiet;
     files := <["/projects/demo/ch1/1/audio.mp3" := narration (fl (3 # 10))]>
                disk;
     dirs := tree;
     clock := 1700000000000000000%N |}.

(** A second chapter, of one segment, beside the first. *)
Definition chapter2 : string := "/projects/demo/ch2".

Definition two_chapters : World :=
  {| self := __init__ quiet;
     files := <["/projects/demo/ch2/1/image.png" := picture "three"]>
              (<["/projects/demo/ch2/1/audio.mp3" := narration 2]> disk);
     dirs := <["/projects/demo/ch2" := ["1"]]>
             (<["/projects/demo/ch2/1" := ["image.png"; "audio.mp3"]]> tree);
     clock := 1700000000000000000%N |}.

End Demo.

(** ** Inputs for the effects *)

Definition demo_picture : Image := Bitmap 1600 1200 "one".

Definition demo_still : Params.t :=
  {| Params.output_size := (640, 360);
     Params.fade_duration := Some 1%Q;
     Params.use_pan := Some true;
     Params.pan_range := Some (0%Q, 0%Q);
     Params.segment_index := Some 2 |}.

Definition demo_moving : Params.t :=
  {| Params.output_size := (640, 360);
     Params.fade_duration := Some 1%Q;
     Params.use_pan := Some true;
     Params.pan_range := Some ((1 # 2)%Q, (1 # 2)%Q);
     Params.segment_index := Some 2 |}.

Definition demo_no_fade : Params.t :=
  {| Params.output_size := (640, 360);
     Params.fade_duration := Some 0%Q;
     Params.use_pan := Some true;
     Params.pan_range := Some (0%Q, 0%Q);
     Params.segment_index := Some 2 |}.

(** A 1152 x 896 picture asked for at its own size, without motion. *)
Definition cover_picture : Image := Bitmap 1152 896 "cover".

Definition cover_params : Params.t :=
  {| Params.output_size := (1152, 896);
     Params.fade_duration := Some 1%Q;
     Params.use_pan := Some true;
     Params.pan_range := Some (0%Q, 0%Q);
     Params.segment_index := Some 1 |}.

(** ** Vocabulary of the further properties *)

(** [ascending l]: along [l] the integer values of the names never
    decrease. *)
Fixpoint ascending (l : list string) : Prop :=
  match l with
  | [] => True
  | x :: r =>
      Forall (fun y => (py_int_of_str x <= py_int_of_str y)%Z) r
      /\ ascending r
  end.

(** The size of a picture. *)
Definition size_of (im : Image) : Z * Z := (width im, height im).

(** Panning switched off. *)
Definition demo_no_pan : Params.t :=
  {| Params.output_size := (640, 360);
     Params.fade_duration := Some 1%Q;
     Params.use_pan := Some false;
     Params.pan_range := Some ((1 # 2)%Q, (1 # 2)%Q);
     Params.segment_index := Some 2 |}.

(** A caller asking for batches of size zero. *)
Definition demo_zero_batch : Overrides.t :=
  {| Overrides.resolution := None; Overrides.fps := Some 2%Q;
     Overrides.threads := None; Overrides.use_cuda := None;
     Overrides.codec := None; Overrides.batch_size := Some 0%Z;
     Overrides.fade_duration := None; Overrides.use_pan := None;
     Overrides.pan_range := None |}.

(** A cancellation request lands while the first batch is being
    encoded: it is seen at the check after that batch. *)
Definition demo_stop_after_batch : Env :=
  Demo.cancelling (fun cp => match cp with
                             | BeforeBatchCheck 0 => true
                             | _ => false
                             end).

(** Collaborators with which nothing goes wrong: no cancellation
    request arrives, the encoder succeeds on every non-empty frame list,
    [ffmpeg] exits with status 0, and no file is locked. *)
Definition cooperative (env : Env) : Prop :=
  (forall cp, cancel_requested env cp = false)
  /\ (forall output_path temp_audio_path frames fps ffmpeg_params threads,
        frames <> [] ->
        exists size,
          write_videofile env output_path temp_audio_path frames fps
            ffmpeg_params threads = Encoded size)
  /\ (forall cmd, exists size, ffmpeg env cmd = Exit0 size)
  /\ unlocked env.

(** A segment directory the job can render: a loadable picture of
    positive size and a narration long enough for at least one frame,
    the frame count being the one the code computes. *)
Definition usable_segment (w : World) (cp : string) (settings : Settings.t)
    (subdir : string) : Prop :=
  exists image seconds,
    segment_on_disk w (join cp subdir) image seconds
    /\ (5 # 100 <= seconds)%Q
    /\ (0 < width image)%Z /\ (0 < height image)%Z
    /\ (1 <= py_int (fmul seconds (Settings.fps settings)))%Z.

(** The files a segment reads ([image.png] and [audio.mp3], in any
    directory) are the same in [w'] as in [w]. *)
Definition sources_kept (w w' : World) : Prop :=
  forall dir name,
    name = "image.png" \/ name = "audio.mp3" ->
    files w' !! join dir name = files w !! join dir name.

(** * Properties *)

(** ** Arithmetic of the embedding *)

Lemma Qltb_true (a b : Q) : Qltb a b = true <-> (a < b)%Q.
Proof.
  unfold Qltb. destruct (Qlt_le_dec a b) as [H | H]; split; intros; try easy.
  exfalso. apply (Qlt_not_le _ _ H0 H).
Qed.

Lemma Qltb_false (a b : Q) : Qltb a b = false <-> (b <= a)%Q.
Proof.
  unfold Qltb. destruct (Qlt_le_dec a b) as [H | H]; split; intros; try easy.
  exfalso. apply (Qlt_not_le _ _ H H0).
Qed.

Lemma Qleb_true (a b : Q) : Qleb a b = true <-> (a <= b)%Q.
Proof.
  unfold Qleb. rewrite negb_true_iff. apply Qltb_false.
Qed.

Lemma Qleb_false (a b : Q) : Qleb a b = false <-> (b < a)%Q.
Proof.
  unfold Qleb. rewrite negb_false_iff. apply Qltb_true.
Qed.

Lemma py_int_nonneg (q : Q) : (0 <= q)%Q -> py_int q = Qfloor q.
Proof.
  destruct q as [n d]. unfold Qle, py_int, Qfloor. simpl. intros H.
  apply Z.quot_div_nonneg; lia.
Qed.

Lemma py_int_opp (q : Q) : py_int (- q) = - py_int q.
Proof.
  destruct q as [n d]. unfold py_int. simpl. apply Z.quot_opp_l. lia.
Qed.

Lemma py_int_comp (p q : Q) : (p == q)%Q -> py_int p = py_int q.
Proof.
  intros E. destruct (Qlt_le_dec p 0) as [Hneg | Hpos].
  - assert (Hp : py_int (- p) = py_int (- q)).
    { rewrite !py_int_nonneg; [ | lra | lra ].
      apply Qfloor_comp. lra. }
    rewrite !py_int_opp in Hp. lia.
  - rewrite !py_int_nonneg; [ | lra | lra ]. apply Qfloor_comp, E.
Qed.

Lemma py_int_inject_Z (z : Z) : py_int (inject_Z z) = z.
Proof. unfold py_int. simpl. apply Z.quot_1_r. Qed.

Lemma py_int_lower (z : Z) (q : Q) :
  (0 <= z)%Z -> (inject_Z z <= q)%Q -> (z <= py_int q)%Z.
Proof.
  intros Hz H.
  assert (Hq : (0 <= q)%Q).
  { apply Qle_trans with (inject_Z z); [ | exact H ].
    change 0%Q with (inject_Z 0). rewrite <- Zle_Qle. exact Hz. }
  rewrite py_int_nonneg by exact Hq.
  rewrite <- (Qfloor_Z z). apply Qfloor_resp_le, H.
Qed.

Lemma truediv_ok (a b : Q) : ~ (b == 0)%Q -> truediv a b = inr (a / b)%Q.
Proof.
  intros H. unfold truediv.
  destruct (Qeq_bool b 0) eqn:E; [ | reflexivity ].
  apply Qeq_bool_eq in E. contradiction.
Qed.

Lemma inject_Z_pos (z : Z) : (0 < z)%Z -> (0 < inject_Z z)%Q.
Proof. intros H. change 0%Q with (inject_Z 0). rewrite <- Zlt_Qlt. exact H. Qed.

Lemma inject_Z_nonzero (z : Z) : (0 < z)%Z -> ~ (inject_Z z == 0)%Q.
Proof. intros H E. apply inject_Z_pos in H. lra. Qed.

(** ** Binary64 rounding *)

Lemma fl_comp (x y : Q) : (x == y)%Q -> fl x = fl y.
Proof. intros E. unfold fl. rewrite (Qred_complete x y E). reflexivity. Qed.

Lemma odd_part_le (p : positive) : (odd_part p <= p)%positive.
Proof. induction p; simpl; lia. Qed.

Lemma representable_int (n : Z) :
  (Z.abs n < 2 ^ 53)%Z -> representable (inject_Z n) = true.
Proof.
  intros H. unfold representable. simpl.
  destruct n as [ | p | p ]; [ reflexivity | | ];
    apply Z.ltb_lt; pose proof (odd_part_le p); lia.
Qed.

Lemma Qred_inject_Z (n : Z) : Qred (inject_Z n) = inject_Z n.
Proof.
  unfold Qred, inject_Z.
  pose proof (Z.ggcd_gcd n 1) as G.
  pose proof (Z.ggcd_correct_divisors n 1) as D.
  destruct (Z.ggcd n 1) as [g [a b]]. simpl in G.
  rewrite Z.gcd_1_r in G. subst g. destruct D as [Da Db].
  replace a with n by lia. replace b with 1%Z by lia. reflexivity.
Qed.

(** An integer below [2^53] in absolute value is a binary64 number. *)
Lemma fl_int (n : Z) :
  (Z.abs n < 2 ^ 53)%Z -> fl (inject_Z n) = inject_Z n.
Proof.
  intros H. unfold fl. rewrite Qred_inject_Z.
  rewrite representable_int by exact H. reflexivity.
Qed.

Lemma fl_eq_int (q : Q) (n : Z) :
  (q == inject_Z n)%Q -> (Z.abs n < 2 ^ 53)%Z -> fl q = inject_Z n.
Proof. intros E H. rewrite (fl_comp _ _ E). apply fl_int, H. Qed.

Lemma pow2_pos (e : Z) : (0 < pow2 e)%Q.
Proof.
  unfold pow2. destruct (Z.leb_spec 0 e).
  - change 0%Q with (inject_Z 0). rewrite <- Zlt_Qlt.
    apply Z.pow_pos_nonneg; lia.
  - apply Qinv_lt_0_compat. change 0%Q with (inject_Z 0). rewrite <- Zlt_Qlt.
    apply Z.pow_pos_nonneg; lia.
Qed.

Lemma round_half_even_nonneg (t : Q) : (0 <= t)%Q -> (0 <= round_half_even t)%Z.
Proof.
  intros H. unfold round_half_even.
  assert (F : (0 <= Qfloor t)%Z).
  { rewrite <- (Qfloor_Z 0). apply Qfloor_resp_le. exact H. }
  destruct (Qcompare _ _); [ destruct (Z.even _) | | ]; lia.
Qed.

Lemma round_positive_nonneg (a : Q) : (0 <= a)%Q -> (0 <= round_positive a)%Q.
Proof.
  intros H. unfold round_positive.
  set (e := (_ - 52)%Z).
  pose proof (pow2_pos e) as P.
  apply Qmult_le_0_compat; [ | lra ].
  change 0%Q with (inject_Z 0). rewrite <- Zle_Qle.
  apply round_half_even_nonneg. apply Qle_shift_div_l; lra.
Qed.

(** Rounding keeps the sign. *)
Lemma fl_nonneg (q : Q) : (0 <= q)%Q -> (0 <= fl q)%Q.
Proof.
  intros H. unfold fl.
  assert (Hr : (0 <= Qred q)%Q) by (rewrite Qred_correct; exact H).
  destruct (representable (Qred q)); [ exact Hr | ].
  destruct (Qnum (Qred q)) eqn:E.
  - exact Hr.
  - rewrite Qred_correct. apply round_positive_nonneg, Hr.
  - exfalso. unfold Qle in Hr. simpl in Hr. rewrite E in Hr. lia.
Qed.

Lemma fl_0 : fl 0 = 0%Q.
Proof. reflexivity. Qed.

Lemma fl_1 : fl 1 = 1%Q.
Proof. reflexivity. Qed.

Lemma fdiv_ok (a b : Q) : ~ (b == 0)%Q -> fdiv a b = inr (fl (a / b)).
Proof.
  intros H. unfold fdiv.
  destruct (Qeq_bool b 0) eqn:E; [ | reflexivity ].
  apply Qeq_bool_eq in E. contradiction.
Qed.

Lemma pow2_add (k y : Z) :
  (0 <= y)%Z -> (pow2 (k + y) == pow2 k * inject_Z (2 ^ y))%Q.
Proof.
  intros Hy. unfold pow2.
  assert (P : forall z, (0 <= z)%Z -> ~ (inject_Z (2 ^ z) == 0)%Q).
  { intros z Hz. apply inject_Z_nonzero. apply Z.pow_pos_nonneg; lia. }
  destruct (Z.leb_spec 0 k) as [Hk | Hk].
  - destruct (Z.leb_spec 0 (k + y)); [ | lia ].
    rewrite Z.pow_add_r by lia. rewrite inject_Z_mult. reflexivity.
  - destruct (Z.leb_spec 0 (k + y)) as [Hs | Hs].
    + assert (E : (2 ^ y = 2 ^ (- k) * 2 ^ (k + y))%Z).
      { rewrite <- Z.pow_add_r by lia. f_equal. lia. }
      rewrite E, inject_Z_mult. field. apply P. lia.
    + assert (E : (2 ^ (- k) = 2 ^ (- (k + y)) * 2 ^ y)%Z).
      { rewrite <- Z.pow_add_r by lia. f_equal. lia. }
      rewrite E, inject_Z_mult. field. split; apply P; lia.
Qed.

Lemma round_half_even_near (t : Q) :
  (inject_Z (round_half_even t) <= t + 1)%Q
  /\ (t - 1 <= inject_Z (round_half_even t))%Q.
Proof.
  pose proof (Qfloor_le t) as Hlo. pose proof (Qlt_floor t) as Hhi.
  assert (E : (inject_Z (Qfloor t + 1) == inject_Z (Qfloor t) + 1)%Q)
    by (rewrite inject_Z_plus; reflexivity).
  unfold round_half_even. cbv zeta.
  set (up := inject_Z (Qfloor t + 1)) in *.
  destruct (Qcompare _ _); [ destruct (Z.even _) | | ]; fold up; split; lra.
Qed.

(** The exponent chosen by [round_positive] is not above that of its
    argument. *)
Lemma binade_below (a : Q) :
  (0 < a)%Q ->
  let k := (Z.log2 (Qnum a) - Z.log2 (Z.pos (Qden a)))%Z in
  (pow2 (if Qle_bool (pow2 k) a then k else k - 1) <= a)%Q.
Proof.
  intros Ha k. destruct (Qle_bool (pow2 k) a) eqn:E.
  - apply Qle_bool_iff, E.
  - destruct a as [n d]. unfold Qlt in Ha. cbn [Qnum Qden] in Ha, k.
    assert (Hn : (0 < n)%Z) by lia.
    pose proof (Z.log2_spec n Hn) as [Ln _].
    pose proof (Z.log2_spec (Z.pos d) ltac:(lia)) as [_ Ld].
    pose proof (Z.log2_nonneg n) as Nn.
    pose proof (Z.log2_nonneg (Z.pos d)) as Nd.
    pose proof (pow2_add (k - 1) (Z.log2 (Z.pos d) + 1) ltac:(lia)) as Hp.
    replace (k - 1 + (Z.log2 (Z.pos d) + 1))%Z with (Z.log2 n) in Hp
      by (subst k; lia).
    unfold pow2 at 1 in Hp. destruct (Z.leb_spec 0 (Z.log2 n)); [ | lia ].
    pose proof (pow2_pos (k - 1)) as Pp.
    assert (Q1 : (inject_Z (2 ^ Z.log2 n) <= inject_Z n)%Q)
      by (rewrite <- Zle_Qle; exact Ln).
    assert (Q2 : (inject_Z (Z.pos d)
                  <= inject_Z (2 ^ (Z.log2 (Z.pos d) + 1)))%Q)
      by (rewrite <- Zle_Qle; replace (Z.log2 (Z.pos d) + 1)%Z
            with (Z.succ (Z.log2 (Z.pos d))) by lia; lia).
    assert (Q3 : (0 < inject_Z (Z.pos d))%Q) by (apply inject_Z_pos; lia).
    assert (Ea : (n # d == inject_Z n / inject_Z (Z.pos d))%Q)
      by apply Qmake_Qdiv.
    rewrite Ea. apply Qle_shift_div_l; [ exact Q3 | ].
    set (p := pow2 (k - 1)) in *. nra.
Qed.

(** The rounding of a positive number is within a factor two of it. *)
Lemma round_positive_bounds (a : Q) :
  (0 < a)%Q -> (a <= 2 * round_positive a)%Q /\ (round_positive a <= 2 * a)%Q.
Proof.
  intros Ha. unfold round_positive.
  set (k := (Z.log2 (Qnum a) - Z.log2 (Z.pos (Qden a)))%Z).
  pose proof (binade_below a Ha) as Hk. cbv zeta in Hk. fold k in Hk.
  set (k' := if Qle_bool (pow2 k) a then k else (k - 1)%Z) in *.
  set (e := (k' - 52)%Z).
  pose proof (pow2_pos e) as Pe. pose proof (pow2_pos k') as Pk.
  pose proof (pow2_add e 52 ltac:(lia)) as Hs.
  replace (e + 52)%Z with k' in Hs by (subst e; lia).
  set (t := (a / pow2 e)%Q).
  assert (Ea : (a == t * pow2 e)%Q) by (subst t; field; lra).
  assert (Ht : (2 <= t)%Q).
  { subst t. apply Qle_shift_div_l; [ exact Pe | ].
    assert (H52 : (2 <= inject_Z (2 ^ 52))%Q) by (vm_compute; discriminate).
    set (c := inject_Z (2 ^ 52)) in *. set (p := pow2 e) in *.
    set (q := pow2 k') in *. nra. }
  destruct (round_half_even_near t) as [Hup Hlow].
  set (m := inject_Z (round_half_even t)) in *.
  set (p := pow2 e) in *. clearbody m t p.
  clear - Pe Ea Ht Hup Hlow.
  assert (H1 : (0 <= (2 * m - t) * p)%Q)
    by (apply Qmult_le_0_compat; lra).
  assert (H2 : (0 <= (2 * t - m) * p)%Q)
    by (apply Qmult_le_0_compat; lra).
  split; lra.
Qed.

Lemma fl_bounds (q : Q) :
  (0 < q)%Q -> (q <= 2 * fl q)%Q /\ (fl q <= 2 * q)%Q.
Proof.
  intros Hq. unfold fl.
  pose proof (Qred_correct q) as Er.
  destruct (representable (Qred q)); [ rewrite Er; split; lra | ].
  destruct (Qnum (Qred q)) eqn:E.
  - exfalso.
    assert (H0 : (Qred q == 0)%Q) by (unfold Qeq; rewrite E; reflexivity).
    lra.
  - rewrite Qred_correct.
    destruct (round_positive_bounds (Qred q)) as [H1 H2]; [ lra | ].
    split; lra.
  - exfalso.
    assert (H0 : (Qred q < 0)%Q) by (unfold Qlt; rewrite E; simpl; lia).
    lra.
Qed.

Lemma fl_pos (q : Q) : (0 < q)%Q -> (0 < fl q)%Q.
Proof. intros Hq. destruct (fl_bounds q Hq). lra. Qed.

(** ** Fade *)

(** C6. [fade_effect] returns its input when [fade_duration <= 0] (or is
    absent).  Otherwise it scales the brightness by
    [time_val / fade_duration] while [time_val < fade_duration], whatever
    the total duration (the fade-in wins when the two ramps overlap), by
    [(duration - time_val) / fade_duration] in the last [fade_duration]
    seconds, and leaves the image as it is (multiplier 1) in between.
    With [fade_duration = 1] the multiplier at [time_val = 0] is [0];
    at [time_val = duration / 2] with [duration > 2 * fade_duration] the
    image is unchanged. *)
Theorem fade_effect_multiplier (image : Image) (time_val duration : Q)
    (params : Params.t) :
  let fd := default 0%Q (Params.fade_duration params) in
  ((fd <= 0)%Q ->
     ImageEffects.fade_effect image time_val duration params = image) /\
  ((0 < fd)%Q -> (time_val < fd)%Q ->
     ImageEffects.fade_effect image time_val duration params
     = Enhanced image (time_val / fd)) /\
  ((0 < fd)%Q -> (fd <= time_val)%Q -> (duration - time_val < fd)%Q ->
     ImageEffects.fade_effect image time_val duration params
     = Enhanced image ((duration - time_val) / fd)) /\
  ((0 < fd)%Q -> (fd <= time_val)%Q -> (fd <= duration - time_val)%Q ->
     ImageEffects.fade_effect image time_val duration params = image) /\
  (Params.fade_duration params = Some 1%Q ->
     exists m, ImageEffects.fade_effect image 0 duration params
               = Enhanced image m /\ (m == 0)%Q) /\
  ((0 < fd)%Q -> (2 * fd < duration)%Q ->
     ImageEffects.fade_effect image (duration / 2) duration params = image).
Proof.
  intros fd. unfold ImageEffects.fade_effect. fold fd.
  assert (Hdiv : forall x, (0 < fd)%Q -> (x < fd)%Q -> (x / fd < 1)%Q).
  { intros x Hfd Hx. apply Qlt_shift_div_r; lra. }
  repeat split.
  - intros H. apply Qleb_true in H. rewrite H. reflexivity.
  - intros Hfd Ht. apply Qleb_false in Hfd. rewrite Hfd.
    apply Qltb_true in Ht as Ht'. rewrite Ht'.
    apply Qleb_false in Hfd.
    pose proof (Hdiv _ Hfd Ht) as Hb. apply Qltb_true in Hb. rewrite Hb.
    reflexivity.
  - intros Hfd Ht Hout. apply Qleb_false in Hfd. rewrite Hfd.
    apply Qltb_false in Ht. rewrite Ht.
    apply Qltb_true in Hout as Hout'. rewrite Hout'.
    apply Qleb_false in Hfd.
    pose proof (Hdiv _ Hfd Hout) as Hb. apply Qltb_true in Hb. rewrite Hb.
    reflexivity.
  - intros Hfd Ht Hmid. apply Qleb_false in Hfd. rewrite Hfd.
    apply Qltb_false in Ht. rewrite Ht.
    apply Qltb_false in Hmid. rewrite Hmid. reflexivity.
  - intros E. subst fd. rewrite E. simpl. exists (0 / 1)%Q.
    split; [ reflexivity | ]. unfold Qeq. reflexivity.
  - intros Hfd Hd. apply Qleb_false in Hfd. rewrite Hfd.
    apply Qleb_false in Hfd.
    assert (H1 : (fd <= duration / 2)%Q).
    { apply Qle_shift_div_l; lra. }
    assert (H2 : (fd <= duration - duration / 2)%Q).
    { assert (E : (duration - duration / 2 == duration / 2)%Q) by field.
      rewrite E. exact H1. }
    apply Qltb_false in H1. rewrite H1.
    apply Qltb_false in H2. rewrite H2. reflexivity.
Qed.

(** ** Pan without motion *)

Lemma resize_ok (im : Image) (w h : Z) :
  (0 < w)%Z -> (0 < h)%Z -> resize im w h = inr (Resized im w h).
Proof.
  intros Hw Hh. unfold resize.
  destruct (Z.leb_spec w 0); [ lia | ].
  destruct (Z.leb_spec h 0); [ lia | ]. reflexivity.
Qed.

Lemma crop_ok (im : Image) (l u r lo : Z) :
  (l <= r)%Z -> (u <= lo)%Z -> crop im l u r lo = inr (Cropped im l u r lo).
Proof.
  intros Hw Hh. unfold crop.
  destruct (Z.ltb_spec r l); [ lia | ].
  destruct (Z.ltb_spec lo u); [ lia | ]. reflexivity.
Qed.

(** C7. A 1152 x 896 picture asked for at 1152 x 896 with
    [pan_range = (0, 0)].  Both aspect ratios are the binary64 number
    [1.2857142857142858], just above 9/7, so the width is kept and
    [new_height = int(1152 / 1.2857142857142858)
                = int(895.9999999999999) = 895]: the picture is resized
    to 1152 x 895, one row short of the output, and the crop box starts
    at [top = (895 - 896) // 2 = -1], outside the resized picture.  The
    returned image has the output size, but the source was neither
    scaled uniformly nor made to cover the output. *)
Theorem pan_effect_still_falls_short (cos : Q -> Q)
    (pi time_val duration : Q) :
  let img_aspect := (5790342378047781 # 4503599627370496)%Q in
  let quotient := (7881299347898367 # 8796093022208)%Q in
  fdiv (inject_Z (width cover_picture)) (inject_Z (height cover_picture))
    = inr img_aspect
  /\ fdiv 1152 896 = inr img_aspect
  /\ fdiv 1152 img_aspect = inr quotient
  /\ (quotient < 896)%Q /\ py_int quotient = 895%Z
  /\ ImageEffects.pan_effect cos pi cover_picture time_val duration
       cover_params
     = inr (Cropped (Resized cover_picture 1152 895) 0 (-1) 1152 895)
  /\ (height (Resized cover_picture 1152 895)
      < snd (Params.output_size cover_params))%Z.
Proof.
  cbv zeta. repeat split; vm_compute; reflexivity.
Qed.

(** ** Pan with motion *)

Lemma py_max_l (a b : Q) : (a <= py_max a b)%Q.
Proof.
  unfold py_max. destruct (Qltb a b) eqn:E; [ | lra ].
  apply Qltb_true in E. lra.
Qed.

Lemma py_max_r (a b : Q) : (b <= py_max a b)%Q.
Proof.
  unfold py_max. destruct (Qltb a b) eqn:E; [ lra | ].
  apply Qltb_false in E. lra.
Qed.

Lemma py_max_cases (a b : Q) : py_max a b = a \/ py_max a b = b.
Proof. unfold py_max. destruct (Qltb a b); auto. Qed.

Lemma py_max_Qmax (a b : Q) : (py_max a b == Qmax a b)%Q.
Proof.
  unfold py_max.
  destruct (Q.max_spec a b) as [[L E] | [L E]]; rewrite E.
  - apply Qltb_true in L. rewrite L. reflexivity.
  - apply Qltb_false in L. rewrite L. reflexivity.
Qed.

Section PanMotion.

Variable cos : Q -> Q.
Variable pi : Q.

(** [pan_effect] on the moving path, with the axis flag, the scale
    factor and the offsets as the code computes them. *)
Lemma pan_effect_moving (image : Image) (time_val duration : Q)
    (params : Params.t) (ow oh : Z) (h v : Q) :
  Params.output_size params = (ow, oh) ->
  Params.pan_range params = Some (h, v) ->
  (0 < h)%Q \/ (0 < v)%Q ->
  (0 < width image)%Z -> (0 < height image)%Z ->
  ~ (duration == 0)%Q ->
  let w := inject_Z (width image) in
  let ht := inject_Z (height image) in
  let use_horizontal :=
    if Qltb 0 h && Qltb 0 v
    then (default 0 (Params.segment_index params) mod 2 =? 0)%Z
    else if Qltb 0 v then false else true in
  let scale :=
    if use_horizontal
    then py_max (fl (fmul (inject_Z ow) (fadd 1 h) / w))
                (fl (inject_Z oh / ht))
    else py_max (fl (inject_Z ow / w))
                (fl (fmul (inject_Z oh) (fadd 1 v) / ht)) in
  let nw := py_int (fmul w scale) in
  let nh := py_int (fmul ht scale) in
  let progress :=
    ImageEffects._ease_in_out_progress cos pi (fl (time_val / duration)) in
  let x := if use_horizontal then py_int (fmul (inject_Z (nw - ow)) progress)
           else ((nw - ow) / 2)%Z in
  let y := if use_horizontal then ((nh - oh) / 2)%Z
           else py_int (fmul (inject_Z (nh - oh)) progress) in
  ImageEffects.pan_effect cos pi image time_val duration params
  = (try! scaled_img <- resize image nw nh;
     crop scaled_img x y (x + ow) (y + oh)).
Proof.
  intros Hsize Hrange Hpos Hw Hht Hd.
  pose proof (inject_Z_pos _ Hw) as Qw.
  pose proof (inject_Z_pos _ Hht) as Qht.
  intros w ht use_horizontal scale nw nh progress x y.
  assert (Hmoving : Qleb h 0 && Qleb v 0 = false).
  { apply andb_false_iff. destruct Hpos as [P | P];
      [ left | right ]; apply Qleb_false; exact P. }
  unfold ImageEffects.pan_effect. rewrite Hsize, Hrange.
  cbn [default from_option id]. cbv beta iota zeta.
  rewrite Hmoving. fold use_horizontal. fold w ht.
  assert (Escale :
    (if use_horizontal
     then try! ratio_w <- fdiv (fmul (inject_Z ow) (fadd 1 h)) w;
          try! ratio_h <- fdiv (inject_Z oh) ht;
          inr (py_max ratio_w ratio_h)
     else try! ratio_h <- fdiv (fmul (inject_Z oh) (fadd 1 v)) ht;
          try! ratio_w <- fdiv (inject_Z ow) w;
          inr (py_max ratio_w ratio_h)) = inr scale).
  { subst scale. destruct use_horizontal;
      rewrite !fdiv_ok by (subst w ht; lra); reflexivity. }
  rewrite Escale. cbn [rbind]. fold nw nh.
  unfold resize. destruct ((nw <=? 0)%Z || (nh <=? 0)%Z); [ reflexivity | ].
  cbn [rbind]. rewrite fdiv_ok by exact Hd. cbn [rbind width height].
  fold progress. subst x y.
  destruct use_horizontal; reflexivity.
Qed.

(** What is assumed of [math.cos] and [math.pi]: the cosine is a
    function of the value of its argument, [cos(0) = 1] and
    [cos(pi) = -1], and [math.pi] is a binary64 number. *)
Hypothesis cos_value : forall x y : Q, (x == y)%Q -> (cos x == cos y)%Q.
Hypothesis cos_0 : (cos 0 == 1)%Q.
Hypothesis cos_pi : (cos pi == -1)%Q.
Hypothesis pi_binary64 : (fl pi == pi)%Q.

Lemma ease_in_out_start (p : Q) :
  (p == 0)%Q -> ImageEffects._ease_in_out_progress cos pi p = 0%Q.
Proof.
  intros E. unfold ImageEffects._ease_in_out_progress, fmul, fsub.
  assert (E0 : fl (pi * p) = 0%Q).
  { apply (fl_eq_int _ 0); [ rewrite E; ring | reflexivity ]. }
  rewrite E0.
  assert (E1 : fl (1 - cos 0) = 0%Q).
  { apply (fl_eq_int _ 0); [ rewrite cos_0; ring | reflexivity ]. }
  rewrite E1. reflexivity.
Qed.

Lemma ease_in_out_end (p : Q) :
  (p == 1)%Q -> ImageEffects._ease_in_out_progress cos pi p = 1%Q.
Proof.
  intros E. unfold ImageEffects._ease_in_out_progress, fmul, fsub.
  assert (E0 : (fl (pi * p) == pi)%Q).
  { rewrite (fl_comp (pi * p) pi) by (rewrite E; ring). exact pi_binary64. }
  assert (E1 : fl (1 - cos (fl (pi * p))) = 2%Q).
  { apply (fl_eq_int _ 2); [ | reflexivity ].
    rewrite (cos_value _ _ E0), cos_pi. reflexivity. }
  rewrite E1. reflexivity.
Qed.

(** C8. When at least one pan range is positive, [pan_effect] resizes
    the source by one scale factor and crops it to the output size,
    where (every float operation being rounded to binary64):
    - the pan is horizontal exactly when the segment index is even if
      both ranges are positive, vertical if only the vertical range is
      positive, horizontal otherwise;
    - the scale factor is
      [max(output_w * (1 + h_range) / image_w, output_h / image_h)] for
      a horizontal pan and
      [max(output_w / image_w, output_h * (1 + v_range) / image_h)]
      for a vertical one (neither division fails), and the source is
      resized to [(int(image_w * scale), int(image_h * scale))], which
      succeeds when both are positive;
    - along the pan axis the crop offset is
      [int((scaled_dim - output_dim) * progress)] with
      [progress = 0.5 * (1 - cos(pi * (time_val / duration)))], which is
      [0] at [time_val = 0] and [scaled_dim - output_dim] at
      [time_val = duration]; on the other axis the offset is
      [(scaled_dim - output_dim) // 2], the crop is centred. *)
Theorem pan_effect_axis_scale_offset (image : Image)
    (time_val duration : Q) (params : Params.t) (ow oh : Z) (h v : Q) :
  Params.output_size params = (ow, oh) ->
  Params.pan_range params = Some (h, v) ->
  (0 < h)%Q \/ (0 < v)%Q ->
  (0 < width image)%Z -> (0 < height image)%Z ->
  (0 <= ow)%Z -> (0 <= oh)%Z -> ~ (duration == 0)%Q ->
  let w := inject_Z (width image) in
  let ht := inject_Z (height image) in
  let idx := default 0%Z (Params.segment_index params) in
  let progress :=
    fmul (1 # 2) (fsub 1 (cos (fmul pi (fl (time_val / duration))))) in
  exists (horizontal : bool) (scale : Q) (nw nh x y : Z),
    ((0 < h)%Q -> (0 < v)%Q -> (horizontal = true <-> (idx mod 2 = 0)%Z))
    /\ ((h <= 0)%Q -> horizontal = false)
    /\ ((v <= 0)%Q -> horizontal = true)
    /\ (horizontal = true ->
          fdiv (fmul (inject_Z ow) (fadd 1 h)) w
          = inr (fl (fmul (inject_Z ow) (fadd 1 h) / w))
          /\ fdiv (inject_Z oh) ht = inr (fl (inject_Z oh / ht))
          /\ scale = py_max (fl (fmul (inject_Z ow) (fadd 1 h) / w))
                            (fl (inject_Z oh / ht))
          /\ (scale == Qmax (fl (fmul (inject_Z ow) (fadd 1 h) / w))
                            (fl (inject_Z oh / ht)))%Q)
    /\ (horizontal = false ->
          fdiv (inject_Z ow) w = inr (fl (inject_Z ow / w))
          /\ fdiv (fmul (inject_Z oh) (fadd 1 v)) ht
             = inr (fl (fmul (inject_Z oh) (fadd 1 v) / ht))
          /\ scale = py_max (fl (inject_Z ow / w))
                            (fl (fmul (inject_Z oh) (fadd 1 v) / ht))
          /\ (scale == Qmax (fl (inject_Z ow / w))
                            (fl (fmul (inject_Z oh) (fadd 1 v) / ht)))%Q)
    /\ nw = py_int (fmul w scale) /\ nh = py_int (fmul ht scale)
    /\ ((0 < nw)%Z -> (0 < nh)%Z ->
          ImageEffects.pan_effect cos pi image time_val duration params
          = inr (Cropped (Resized image nw nh) x y (x + ow) (y + oh)))
    /\ (horizontal = true ->
          x = py_int (fmul (inject_Z (nw - ow)) progress)
          /\ y = ((nh - oh) / 2)%Z
          /\ ((time_val == 0)%Q -> x = 0%Z)
          /\ ((time_val == duration)%Q -> (Z.abs (nw - ow) < 2 ^ 53)%Z ->
                x = (nw - ow)%Z))
    /\ (horizontal = false ->
          y = py_int (fmul (inject_Z (nh - oh)) progress)
          /\ x = ((nw - ow) / 2)%Z
          /\ ((time_val == 0)%Q -> y = 0%Z)
          /\ ((time_val == duration)%Q -> (Z.abs (nh - oh) < 2 ^ 53)%Z ->
                y = (nh - oh)%Z)).
Proof.
  intros Hsize Hrange Hpos Hw Hht How Hoh Hd w ht idx progress.
  pose proof (pan_effect_moving image time_val duration params ow oh h v
                Hsize Hrange Hpos Hw Hht Hd) as Heq.
  cbv zeta in Heq. fold w ht idx in Heq.
  fold (ImageEffects._ease_in_out_progress cos pi (fl (time_val / duration)))
    in progress.
  fold progress in Heq.
  set (use_horizontal :=
         if Qltb 0 h && Qltb 0 v then (idx mod 2 =? 0)%Z
         else if Qltb 0 v then false else true) in *.
  set (scale :=
         if use_horizontal
         then py_max (fl (fmul (inject_Z ow) (fadd 1 h) / w))
                     (fl (inject_Z oh / ht))
         else py_max (fl (inject_Z ow / w))
                     (fl (fmul (inject_Z oh) (fadd 1 v) / ht))) in *.
  set (nw := py_int (fmul w scale)) in *.
  set (nh := py_int (fmul ht scale)) in *.
  assert (Hstart : forall n : Z, (time_val == 0)%Q ->
    py_int (fmul (inject_Z n) progress) = 0%Z).
  { intros n E. subst progress.
    rewrite ease_in_out_start.
    - unfold fmul.
      rewrite (fl_eq_int _ 0); [ reflexivity | ring | reflexivity ].
    - rewrite (fl_eq_int (time_val / duration) 0);
        [ reflexivity | rewrite E; field; exact Hd | reflexivity ]. }
  assert (Hend : forall n : Z, (time_val == duration)%Q ->
    (Z.abs n < 2 ^ 53)%Z -> py_int (fmul (inject_Z n) progress) = n).
  { intros n E Hn. subst progress.
    rewrite ease_in_out_end.
    - unfold fmul.
      rewrite (fl_eq_int _ n); [ apply py_int_inject_Z | ring | exact Hn ].
    - rewrite (fl_eq_int (time_val / duration) 1);
        [ reflexivity | rewrite E; field; exact Hd | reflexivity ]. }
  eexists use_horizontal, scale, nw, nh, _, _.
  repeat match goal with |- _ /\ _ => split end; try reflexivity.
  - intros Ph Pv. subst use_horizontal.
    apply Qltb_true in Ph, Pv. rewrite Ph, Pv. simpl. apply Z.eqb_eq.
  - intros Nh. subst use_horizontal.
    assert (Pv : (0 < v)%Q) by (destruct Hpos; [ lra | assumption ]).
    apply Qltb_false in Nh. apply Qltb_true in Pv. rewrite Nh, Pv.
    reflexivity.
  - intros Nv. subst use_horizontal.
    apply Qltb_false in Nv. rewrite Nv. rewrite andb_false_r. reflexivity.
  - intros E. subst scale. rewrite E.
    rewrite !fdiv_ok by (subst w ht; apply inject_Z_nonzero; assumption).
    repeat split; try reflexivity. apply py_max_Qmax.
  - intros E. subst scale. rewrite E.
    rewrite !fdiv_ok by (subst w ht; apply inject_Z_nonzero; assumption).
    repeat split; try reflexivity. apply py_max_Qmax.
  - intros Pw Ph. rewrite Heq. rewrite resize_ok by lia. cbn [rbind].
    apply crop_ok; lia.
  - intros E. rewrite E. repeat split; auto.
  - intros E. rewrite E. repeat split; auto.
Qed.

End PanMotion.

(** The resized picture need not cover the output.  An 832 x 1216
    picture panned vertically (odd segment index) at 1920 x 1080: the
    scale factor is [1920 / 832 = 2.3076923076923075] and
    [int(832 * 2.3076923076923075) = int(1919.9999999999998) = 1919], so
    the picture is resized to 1919 x 2806 and the centred offset is
    [(1919 - 1920) // 2 = -1]. *)
Remark pan_effect_moving_falls_short :
  ImageEffects.pan_effect Demo.cos Demo.pi (Bitmap 832 1216 "portrait") 0 2
    {| Params.output_size := (1920, 1080)%Z; Params.fade_duration := None;
       Params.use_pan := None;
       Params.pan_range := Some (fl (1 # 10), fl (1 # 10))%Q;
       Params.segment_index := Some 1%Z |}
  = inr (Cropped (Resized (Bitmap 832 1216 "portrait") 1919 2806)
                 (-1) 0 1919 1080).
Proof. vm_compute. reflexivity. Qed.

(** ** Reasoning about stateful code *)


Section Preserves.

Context {S : Type} (R : S -> S -> Prop) `{!PreOrder R}.

Lemma preserves_ret {A : Type} (a : A) : preserves R (ret a).
Proof. intros s. simpl. reflexivity. Qed.

Lemma preserves_raise {A : Type} (e : exn) : preserves R (@raise S A e).
Proof. intros s. simpl. reflexivity. Qed.

Lemma preserves_lift {A : Type} (r : result A) : preserves R (lift r).
Proof. intros s. simpl. reflexivity. Qed.

Lemma preserves_get : preserves R (@get S).
Proof. intros s. simpl. reflexivity. Qed.

Lemma preserves_bind {A B : Type} (m : M S A) (k : A -> M S B) :
  preserves R m -> (forall a, preserves R (k a)) -> preserves R (bind m k).
Proof.
  intros Hm Hk s. unfold bind. specialize (Hm s).
  destruct (m s) as [[e | a] s1]; simpl in *; [ exact Hm | ].
  etransitivity; [ exact Hm | apply Hk ].
Qed.

Lemma preserves_catch {A : Type} (m : M S A) :
  preserves R m -> preserves R (catch m).
Proof.
  intros Hm s. unfold catch. specialize (Hm s).
  destruct (m s) as [r s1]. exact Hm.
Qed.

Lemma preserves_try_finally {A : Type} (body : M S A) (final : M S unit) :
  preserves R body -> preserves R final ->
  preserves R (try_finally body final).
Proof.
  intros Hb Hf s. unfold try_finally. specialize (Hb s).
  destruct (body s) as [r s1]. specialize (Hf s1).
  destruct (final s1) as [[e | u] s2]; simpl in *;
    etransitivity; eauto.
Qed.

Lemma preserves_modify (f : S -> S) :
  (forall s, R s (f s)) -> preserves R (modify f).
Proof. intros H s. simpl. apply H. Qed.

Lemma preserves_if {A : Type} (b : bool) (m1 m2 : M S A) :
  preserves R m1 -> preserves R m2 -> preserves R (if b then m1 else m2).
Proof. destruct b; auto. Qed.

End Preserves.


#[local] Instance on_world_preorder (R : World -> World -> Prop)
  `{!PreOrder R} : PreOrder (on_world R).
Proof.
  split.
  - intros j. unfold on_world. reflexivity.
  - intros j1 j2 j3 H1 H2. unfold on_world in *. etransitivity; eauto.
Qed.

Lemma preserves_in_job {A : Type} (R : World -> World -> Prop)
    (m : M World A) :
  preserves R m -> preserves (on_world R) (in_job m).
Proof.
  intros H j. unfold in_job, on_world. specialize (H (fst j)).
  destruct (m (fst j)) as [r w']. exact H.
Qed.

(** *** Three relations between worlds *)





#[local] Instance same_file_preorder (path : string) :
  PreOrder (same_file path).
Proof.
  split.
  - intros w. reflexivity.
  - intros w1 w2 w3 H1 H2. unfold same_file in *. congruence.
Qed.

#[local] Instance same_counters_preorder : PreOrder same_counters.
Proof.
  split.
  - intros w. split; reflexivity.
  - intros w1 w2 w3 [H1 H1'] [H2 H2']. split; congruence.
Qed.

#[local] Instance flag_kept_preorder : PreOrder flag_kept.
Proof.
  split.
  - intros w H. exact H.
  - intros w1 w2 w3 H1 H2 H. auto.
Qed.

#[local] Instance same_disk_preorder : PreOrder same_disk.
Proof.
  split.
  - intros w. reflexivity.
  - intros w1 w2 w3 H1 H2. unfold same_disk in *. congruence.
Qed.

(** Decomposes a [preserves] goal along the structure of the code; the
    operations left over are looked up in the hint base [pres]. *)
Create HintDb pres.

#[local] Hint Extern 1 (PreOrder _) => typeclasses eauto : pres.

Ltac pres_step :=
  lazymatch goal with
  | |- PreOrder _ => typeclasses eauto
  | |- forall _, _ => intros ?
  | |- preserves _ (bind _ _) => apply preserves_bind
  | |- preserves _ (ret _) => apply preserves_ret
  | |- preserves _ (raise _) => apply preserves_raise
  | |- preserves _ (lift _) => apply preserves_lift
  | |- preserves _ get => apply preserves_get
  | |- preserves _ (catch _) => apply preserves_catch
  | |- preserves _ (try_finally _ _) => apply preserves_try_finally
  | |- preserves _ (in_job _) => apply preserves_in_job
  | |- preserves _ (if _ then _ else _) => apply preserves_if
  | |- preserves _ (match ?x with _ => _ end) => destruct x
  | |- preserves _ (let '(_, _) := ?x in _) => destruct x
  | |- preserves _ _ => solve [ eauto with pres ]
  end.

Ltac pres := repeat pres_step.

Section Frames.

Variable env : Env.

Lemma is_set_preserves (R : World -> World -> Prop) `{!PreOrder R} :
  preserves R is_set.
Proof. intros w. simpl. reflexivity. Qed.

Lemma exists_preserves (R : World -> World -> Prop) `{!PreOrder R}
    (path : string) : preserves R (exists_ path).
Proof. intros w. simpl. reflexivity. Qed.

Lemma getsize_preserves (R : World -> World -> Prop) `{!PreOrder R}
    (path : string) : preserves R (getsize path).
Proof. intros w. unfold getsize. case_match; simpl; reflexivity. Qed.

Lemma listdir_preserves (R : World -> World -> Prop) `{!PreOrder R}
    (path : string) : preserves R (listdir path).
Proof. intros w. unfold listdir. case_match; simpl; reflexivity. Qed.

Lemma Image_open_preserves (R : World -> World -> Prop) `{!PreOrder R}
    (path : string) : preserves R (Image_open path).
Proof.
  intros w. unfold Image_open. repeat case_match; simpl; reflexivity.
Qed.

Lemma AudioFileClip_open_preserves (R : World -> World -> Prop)
    `{!PreOrder R} (path : string) : preserves R (AudioFileClip_open path).
Proof.
  intros w. unfold AudioFileClip_open. repeat case_match; simpl; reflexivity.
Qed.

Hint Resolve is_set_preserves exists_preserves getsize_preserves
  listdir_preserves Image_open_preserves AudioFileClip_open_preserves
  : pres.

Lemma check_resource_preserves (R : World -> World -> Prop) `{!PreOrder R}
    (path : string) : preserves R (check_resource path).
Proof. unfold check_resource. pres. Qed.

Hint Resolve check_resource_preserves : pres.

Lemma _load_resources_preserves (R : World -> World -> Prop) `{!PreOrder R}
    (subdir_path : string) (resolution : Z * Z) :
  preserves R (_load_resources subdir_path resolution).
Proof. unfold _load_resources. pres. Qed.

End Frames.

#[local] Hint Resolve is_set_preserves exists_preserves getsize_preserves
  listdir_preserves Image_open_preserves AudioFileClip_open_preserves
  check_resource_preserves _load_resources_preserves : pres.

(** An operation on one field of the world, checked by running it. *)
Ltac leaf :=
  let w := fresh "w" in
  intros w;
  cbv beta delta [ cancel_generation interference time_ns write_file
                   os_remove os_replace modify bind ret raise ];
  repeat case_match; simpl;
  cbv beta delta [ same_file same_counters flag_kept same_disk ]; simpl;
  try rewrite lookup_insert_ne by congruence;
  try rewrite lookup_delete_ne by congruence;
  auto.

Section Leaves.

Variable env : Env.

(** Setting the flag, reading the clock. *)
Lemma cancel_generation_same_file (p : string) :
  preserves (same_file p) cancel_generation.
Proof. leaf. Qed.

Lemma cancel_generation_same_counters :
  preserves same_counters cancel_generation.
Proof. leaf. Qed.

Lemma cancel_generation_flag_kept : preserves flag_kept cancel_generation.
Proof. leaf. Qed.

Lemma cancel_generation_same_disk : preserves same_disk cancel_generation.
Proof. leaf. Qed.

Lemma interference_same_file (p : string) (cp : Checkpoint) :
  preserves (same_file p) (interference env cp).
Proof. leaf. Qed.

Lemma interference_same_counters (cp : Checkpoint) :
  preserves same_counters (interference env cp).
Proof. leaf. Qed.

Lemma interference_flag_kept (cp : Checkpoint) :
  preserves flag_kept (interference env cp).
Proof. leaf. Qed.

Lemma interference_same_disk (cp : Checkpoint) :
  preserves same_disk (interference env cp).
Proof. leaf. Qed.

Lemma time_ns_same_file (p : string) : preserves (same_file p) time_ns.
Proof. leaf. Qed.

Lemma time_ns_same_counters : preserves same_counters time_ns.
Proof. leaf. Qed.

Lemma time_ns_flag_kept : preserves flag_kept time_ns.
Proof. leaf. Qed.

Lemma time_ns_same_disk : preserves same_disk time_ns.
Proof. leaf. Qed.

(** Writing and removing files. *)
Lemma write_file_same_file (p path : string) (f : File) :
  path <> p -> preserves (same_file p) (write_file path f).
Proof. intros H. leaf. Qed.

Lemma delete_file_same_file (p path : string) :
  path <> p -> preserves (same_file p) (modify (set_files (delete path))).
Proof. intros H. leaf. Qed.

Lemma os_remove_same_file (p path : string) :
  path <> p -> preserves (same_file p) (os_remove env path).
Proof. intros H. leaf. Qed.

Lemma write_file_same_counters (path : string) (f : File) :
  preserves same_counters (write_file path f).
Proof. leaf. Qed.

Lemma delete_file_same_counters (path : string) :
  preserves same_counters (modify (set_files (delete path))).
Proof. leaf. Qed.

Lemma os_remove_same_counters (path : string) :
  preserves same_counters (os_remove env path).
Proof. leaf. Qed.

Lemma os_replace_same_counters (src dst : string) :
  preserves same_counters (os_replace src dst).
Proof. leaf. Qed.

Lemma write_file_flag_kept (path : string) (f : File) :
  preserves flag_kept (write_file path f).
Proof. leaf. Qed.

Lemma delete_file_flag_kept (path : string) :
  preserves flag_kept (modify (set_files (delete path))).
Proof. leaf. Qed.

Lemma os_remove_flag_kept (path : string) :
  preserves flag_kept (os_remove env path).
Proof. leaf. Qed.

Lemma os_replace_flag_kept (src dst : string) :
  preserves flag_kept (os_replace src dst).
Proof. leaf. Qed.

(** Updates of the counters and of the task label. *)
Lemma set_progress_same_file (p : string) (f : VideoService -> Z) :
  preserves (same_file p)
    (modify (set_self (fun s => set_progress (f s) s))).
Proof. leaf. Qed.

Lemma set_progress_flag_kept (f : VideoService -> Z) :
  preserves flag_kept (modify (set_self (fun s => set_progress (f s) s))).
Proof. leaf. Qed.

Lemma set_progress_same_disk (f : VideoService -> Z) :
  preserves same_disk (modify (set_self (fun s => set_progress (f s) s))).
Proof. leaf. Qed.

Lemma set_current_task_same_file (p : string) (t : option string) :
  preserves (same_file p) (modify (set_self (set_current_task t))).
Proof. leaf. Qed.

Lemma set_current_task_same_counters (t : option string) :
  preserves same_counters (modify (set_self (set_current_task t))).
Proof. leaf. Qed.

Lemma set_current_task_flag_kept (t : option string) :
  preserves flag_kept (modify (set_self (set_current_task t))).
Proof. leaf. Qed.

End Leaves.

#[local] Hint Resolve
  cancel_generation_same_file cancel_generation_same_counters
  cancel_generation_flag_kept cancel_generation_same_disk
  interference_same_file interference_same_counters interference_flag_kept
  interference_same_disk
  time_ns_same_file time_ns_same_counters time_ns_flag_kept time_ns_same_disk
  write_file_same_file delete_file_same_file os_remove_same_file
  write_file_same_counters delete_file_same_counters os_remove_same_counters
  os_replace_same_counters
  write_file_flag_kept delete_file_flag_kept os_remove_flag_kept
  os_replace_flag_kept
  set_progress_same_file set_progress_flag_kept set_progress_same_disk
  set_current_task_same_file set_current_task_same_counters
  set_current_task_flag_kept : pres.

Section SegmentFrames.

Variable env : Env.

Lemma render_frames_preserves (R : World -> World -> Prop) `{!PreOrder R}
    (subdir : string) :
  (forall cp, preserves R (interference env cp)) ->
  forall n i frames image duration settings,
    preserves R
      (render_frames env n i frames image duration settings subdir).
Proof.
  intros Hint. induction n as [ | n IH]; intros; simpl; pres.
Qed.

Lemma _write_temp_video_same_file (p : string) frames audio
    (output_path temp_audio_path : string) settings :
  output_path <> p -> temp_audio_path <> p ->
  preserves (same_file p)
    (_write_temp_video env frames audio output_path temp_audio_path
       settings).
Proof. intros H1 H2. unfold _write_temp_video. pres. Qed.

Lemma _write_temp_video_same_counters frames audio
    (output_path temp_audio_path : string) settings :
  preserves same_counters
    (_write_temp_video env frames audio output_path temp_audio_path
       settings).
Proof. unfold _write_temp_video. pres. Qed.

Lemma _write_temp_video_flag_kept frames audio
    (output_path temp_audio_path : string) settings :
  preserves flag_kept
    (_write_temp_video env frames audio output_path temp_audio_path
       settings).
Proof. unfold _write_temp_video. pres. Qed.

End SegmentFrames.

(** ** Path names *)

Lemma append_cons (x : ascii) (a b : string) :
  String x a +:+ b = String x (a +:+ b).
Proof. reflexivity. Qed.

Lemma append_nil_l (b : string) : "" +:+ b = b.
Proof. reflexivity. Qed.

Lemma append_assoc (a b c : string) : (a +:+ b) +:+ c = a +:+ (b +:+ c).
Proof.
  induction a as [ | x a IH]; [ reflexivity | ].
  rewrite !append_cons. f_equal. exact IH.
Qed.

Lemma append_nil_r (a : string) : a +:+ "" = a.
Proof.
  induction a as [ | x a IH]; [ reflexivity | ].
  rewrite append_cons. f_equal. exact IH.
Qed.

Lemma length_append (a b : string) :
  String.length (a +:+ b) = (String.length a + String.length b)%nat.
Proof.
  induction a as [ | x a IH]; [ reflexivity | ].
  rewrite append_cons. simpl. now rewrite IH.
Qed.

(** Two suffixes of equal length of one string are equal. *)
Lemma suffix_unique (p1 p2 s1 s2 : string) :
  String.length s1 = String.length s2 ->
  p1 +:+ s1 = p2 +:+ s2 -> s1 = s2.
Proof.
  revert p2. induction p1 as [ | x p1 IH]; intros p2 Hlen E.
  - destruct p2 as [ | y p2]; [ exact E | ].
    apply (f_equal String.length) in E.
    rewrite append_nil_l, append_cons in E. simpl in E.
    rewrite length_append in E. lia.
  - destruct p2 as [ | y p2].
    + apply (f_equal String.length) in E.
      rewrite append_nil_l, append_cons in E. simpl in E.
      rewrite length_append in E. lia.
    + rewrite !append_cons in E. injection E as _ E. eapply IH; eauto.
Qed.


Lemma ends_in_differ (t1 t2 s1 s2 : string) :
  ends_in t1 s1 -> ends_in t2 s2 ->
  String.length s1 = String.length s2 -> s1 <> s2 -> t1 <> t2.
Proof.
  intros [p1 E1] [p2 E2] Hlen Hne E. subst. apply Hne.
  eapply suffix_unique; eauto.
Qed.

Lemma ends_in_append (a b s : string) : ends_in b s -> ends_in (a +:+ b) s.
Proof. intros [p E]. exists (a +:+ p). subst. now rewrite append_assoc. Qed.

Lemma ends_in_refl (s : string) : ends_in s s.
Proof. now exists "". Qed.


Lemma join_relative (a b : string) :
  starts_with_slash b = false -> join a b = join_prefix a +:+ b.
Proof.
  intros H. unfold join, join_prefix. rewrite H.
  destruct a; [ reflexivity | ].
  destruct (ends_with_slash _); [ reflexivity | ].
  now rewrite append_assoc.
Qed.

Lemma join_ends_in (a b s : string) : ends_in b s -> ends_in (join a b) s.
Proof.
  intros H. unfold join. destruct (starts_with_slash b); [ exact H | ].
  destruct a; [ exact H | ].
  destruct (ends_with_slash _); repeat apply ends_in_append; exact H.
Qed.

Lemma join_same_dir (d n1 n2 : string) :
  starts_with_slash n1 = false -> starts_with_slash n2 = false ->
  join d n1 = join d n2 -> n1 = n2.
Proof.
  intros H1 H2. rewrite !join_relative by assumption.
  apply String.app_inj.
Qed.

Lemma split_last_slash_append (p : string) :
  fst (split_last_slash p) +:+ snd (split_last_slash p) = p.
Proof.
  induction p as [ | c p IH]; simpl; [ reflexivity | ].
  destruct (split_last_slash p) as [h t]. simpl in IH.
  destruct h as [ | x h].
  - rewrite append_nil_l in IH. subst t. destruct (is_slash c); reflexivity.
  - simpl. rewrite append_cons. now rewrite IH.
Qed.

Lemma split_last_dot_append (s a b : string) :
  split_last_dot s = Some (a, b) -> a +:+ b = s.
Proof.
  revert a b. induction s as [ | c s IH]; simpl; intros a b E;
    [ discriminate | ].
  destruct (split_last_dot s) as [[a' b'] | ].
  - injection E as <- <-. rewrite append_cons. now rewrite (IH a' b').
  - destruct (is_dot c); [ | discriminate ]. now injection E as <- <-.
Qed.

Lemma splitext_append (p : string) :
  fst (splitext p) +:+ snd (splitext p) = p.
Proof.
  unfold splitext. pose proof (split_last_slash_append p) as E.
  destruct (split_last_slash p) as [head tail]. simpl in E.
  destruct (split_last_dot tail) as [[a ext] | ] eqn:Ed;
    [ | simpl; apply append_nil_r ].
  destruct (all_chars is_dot a); simpl; [ apply append_nil_r | ].
  apply split_last_dot_append in Ed. rewrite append_assoc. congruence.
Qed.

Section Names.

Variable env : Env.

(** The temp clip of a segment is not the output file. *)
Lemma temp_video_not_output (dir subdir : string) :
  join dir (temp_video_name env subdir) <> join dir "video.mp4".
Proof.
  intros E. apply join_same_dir in E; [ | reflexivity | reflexivity ].
  unfold temp_video_name in E. rewrite !append_cons in E.
  discriminate E.
Qed.

(** Neither is its temp audio file. *)
Lemma temp_audio_not_output (dir dir' subdir : string) (now : N) :
  join dir (temp_audio_name env subdir now) <> join dir' "video.mp4".
Proof.
  apply ends_in_differ with (s1 := ".m4a") (s2 := ".mp4");
    [ | | reflexivity | discriminate ].
  - apply join_ends_in. unfold temp_audio_name.
    repeat apply ends_in_append. apply ends_in_refl.
  - apply join_ends_in. now exists "video".
Qed.

(** Nor the list file of the merge. *)
Lemma concat_list_not_output (dir dir' : string) :
  join dir "concat.txt" <> join dir' "video.mp4".
Proof.
  apply ends_in_differ with (s1 := ".txt") (s2 := ".mp4");
    [ | | reflexivity | discriminate ].
  - apply join_ends_in. now exists "concat".
  - apply join_ends_in. now exists "video".
Qed.

(** Nor the temp output of the merge. *)
Lemma temp_output_not_output (output_path : string) :
  fst (splitext output_path) +:+ ".tmp_" +:+ str_of_N (getpid env)
    +:+ snd (splitext output_path) <> output_path.
Proof.
  intros E. rewrite <- (splitext_append output_path) in E at 3.
  apply String.app_inj in E.
  apply (f_equal String.length) in E.
  rewrite !length_append in E. simpl in E. lia.
Qed.

End Names.

(** ** One segment *)

Section Segment.

Variable env : Env.

Lemma frame_sequence_length n : forall i image duration settings subdir fs,
  frame_sequence env n i image duration settings subdir = inr fs ->
  length fs = n.
Proof.
  induction n as [ | n IH]; intros i image duration settings subdir fs E;
    simpl in E.
  - injection E as <-. reflexivity.
  - destruct (fdiv _ _) as [e | t]; [ discriminate | ]. simpl in E.
    destruct (_apply_effects _ _ _ _ _ _) as [e | f]; [ discriminate | ].
    simpl in E.
    destruct (frame_sequence _ _ _ _ _ _ _) as [e | rest] eqn:Er;
      [ discriminate | ].
    simpl in E. injection E as <-. simpl. f_equal. eapply IH, Er.
Qed.

(** Without any cancellation the loop renders every frame. *)
Lemma render_frames_quiet (subdir : string) (image : Image) (duration : Q)
    (settings : Settings.t) (w : World) :
  stop_flag (self w) = false ->
  (forall j, cancel_requested env (BeforeFrame subdir j) = false) ->
  forall n i frames,
    render_frames env n i frames image duration settings subdir w
    = (try! fs <- frame_sequence env n i image duration settings subdir;
       inr (frames ++ fs), w).
Proof.
  intros Hflag Hquiet. induction n as [ | n IH]; intros i frames; simpl.
  - unfold ret. now rewrite app_nil_r.
  - unfold bind at 1. unfold interference. rewrite Hquiet.
    unfold ret at 1. unfold bind at 1. unfold is_set at 1. rewrite Hflag.
    unfold bind at 1, lift at 1.
    destruct (fdiv _ _) as [e | t]; [ reflexivity | ].
    unfold bind at 1, lift at 1. cbn [rbind].
    destruct (_apply_effects _ _ _ _ _ _) as [e | f]; [ reflexivity | ].
    rewrite IH. cbn [rbind].
    destruct (frame_sequence _ _ _ _ _ _ _) as [e | rest]; [ reflexivity | ].
    cbn [rbind]. now rewrite <- app_assoc.
Qed.

(** A request arriving just before the check of frame [i + k] stops the
    loop there: the frames rendered so far are returned. *)
Lemma render_frames_cancelled (subdir : string) (image : Image)
    (duration : Q) (settings : Settings.t) (w : World) :
  stop_flag (self w) = false ->
  forall k n i frames fs,
    (k < n)%nat ->
    (forall j, (i <= j < i + Z.of_nat k)%Z ->
               cancel_requested env (BeforeFrame subdir j) = false) ->
    cancel_requested env (BeforeFrame subdir (i + Z.of_nat k)) = true ->
    frame_sequence env k i image duration settings subdir = inr fs ->
    render_frames env n i frames image duration settings subdir w
    = (inr (frames ++ fs), set_self (set_stop_flag true) w).
Proof.
  intros Hflag. induction k as [ | k IH]; intros n i frames fs Hk Hq Hc Hfs.
  - destruct n as [ | n]; [ lia | ]. simpl in Hfs. injection Hfs as <-.
    simpl. unfold bind at 1. unfold interference.
    rewrite Z.add_0_r in Hc. rewrite Hc.
    rewrite app_nil_r. reflexivity.
  - destruct n as [ | n]; [ lia | ]. simpl in Hfs. simpl.
    unfold bind at 1. unfold interference. rewrite Hq by lia.
    unfold ret at 1. unfold bind at 1. unfold is_set at 1. rewrite Hflag.
    unfold bind at 1, lift at 1.
    destruct (fdiv _ _) as [e | t]; [ discriminate | ].
    unfold bind at 1, lift at 1. cbn [rbind] in Hfs.
    destruct (_apply_effects _ _ _ _ _ _) as [e | f]; [ discriminate | ].
    cbn [rbind] in Hfs.
    destruct (frame_sequence _ _ _ _ _ _ _) as [e | rest] eqn:Er;
      [ discriminate | ].
    cbn [rbind] in Hfs. injection Hfs as <-.
    rewrite (IH n (i + 1)%Z (frames ++ [f]) rest); try assumption; try lia.
    + now rewrite <- app_assoc.
    + intros j Hj. apply Hq. lia.
    + replace (i + 1 + Z.of_nat k)%Z with (i + Z.of_nat (S k))%Z by lia.
      exact Hc.
Qed.

(** With the flag already set the loop renders nothing. *)
Lemma render_frames_stopped (subdir : string) (image : Image)
    (duration : Q) (settings : Settings.t) (w : World) :
  stop_flag (self w) = true ->
  forall n i frames,
    fst (render_frames env n i frames image duration settings subdir w)
    = inr frames.
Proof.
  intros Hflag [ | n] i frames; [ reflexivity | ]. simpl.
  unfold bind at 1. unfold interference.
  destruct (cancel_requested env _).
  - reflexivity.
  - unfold ret at 1. unfold bind at 1. unfold is_set at 1. rewrite Hflag.
    reflexivity.
Qed.

Lemma check_resource_ok (path : string) (f : File) (w : World) :
  files w !! path = Some f -> (1024 <= st_size f)%Z ->
  check_resource path w = (inr tt, w).
Proof.
  intros Hf Hs. unfold check_resource, bind, exists_, getsize.
  rewrite bool_decide_eq_true_2 by (rewrite Hf; eauto). simpl.
  rewrite Hf. simpl.
  destruct (Z.ltb_spec (st_size f) 1024); [ lia | reflexivity ].
Qed.

Lemma _load_resources_ok (dir : string) (resolution : Z * Z)
    (image : Image) (seconds : Q) (w : World) :
  segment_on_disk w dir image seconds -> (5 # 100 <= seconds)%Q ->
  _load_resources dir resolution w
  = (inr (image, {| filename := join dir "audio.mp3";
                    duration := Some seconds |}), w).
Proof.
  intros (fi & fa & Hi & Si & Pi & Ha & Sa & Pa) Hd.
  unfold _load_resources. unfold bind at 1.
  rewrite (check_resource_ok _ fi) by assumption.
  unfold bind at 1. rewrite (check_resource_ok _ fa) by assumption.
  unfold bind at 1. unfold Image_open at 1. rewrite Hi.
  destruct fi as [si pi]. simpl in Pi. subst pi.
  unfold bind at 1. unfold AudioFileClip_open at 1. rewrite Ha.
  destruct fa as [sa pa]. simpl in Pa. subst pa. simpl.
  apply Qltb_false in Hd. rewrite Hd. reflexivity.
Qed.

End Segment.

Section SegmentRun.

Variable env : Env.

Lemma _process_segment_loaded (subdir temp_dir cp : string)
    (settings : Settings.t) (image : Image) (seconds : Q) (w : World) :
  Settings.chapter_path settings = Some cp ->
  segment_on_disk w (join cp subdir) image seconds ->
  (5 # 100 <= seconds)%Q ->
  let temp_file := join temp_dir (temp_video_name env subdir) in
  let temp_audio_path :=
    join (dirname temp_file) (temp_audio_name env subdir (clock w)) in
  let audio := {| filename := join (join cp subdir) "audio.mp3";
                  duration := Some seconds |} in
  _process_segment env subdir temp_dir settings w
  = (if (py_int (fmul seconds (Settings.fps settings)) =? 0)%Z then
       raise (ValueError
         ("Calculated total frames is 0, video duration too short. Subdir: "
            +:+ subdir))
     else render_and_encode env subdir temp_file temp_audio_path image audio
            seconds settings)
      (set_clock (clock w + 1)%N w).
Proof.
  intros Hcp Hdisk Hd temp_file temp_audio_path audio.
  unfold _process_segment. unfold bind at 1. unfold time_ns at 1.
  rewrite Hcp. unfold bind at 1, lift at 1.
  unfold bind at 1.
  rewrite (_load_resources_ok _ _ image seconds) by assumption.
  unfold bind at 1, lift at 1. cbn [duration].
  reflexivity.
Qed.

Lemma temp_names_differ (dir dir' subdir : string) (now : N) :
  join dir' (temp_audio_name env subdir now)
  <> join dir (temp_video_name env subdir).
Proof.
  apply ends_in_differ with (s1 := ".m4a") (s2 := ".mp4");
    [ | | reflexivity | discriminate ].
  - apply join_ends_in. unfold temp_audio_name.
    repeat apply ends_in_append. apply ends_in_refl.
  - apply join_ends_in. unfold temp_video_name.
    repeat apply ends_in_append. apply ends_in_refl.
Qed.

(** The encoder succeeds: the clip is on disk, the counter moves. *)
Lemma encode_and_count_ok (frames : list Image) (audio : AudioFileClip)
    (temp_file temp_audio_path : string) (settings : Settings.t)
    (size : Z) (w : World) :
  temp_audio_path <> temp_file ->
  encode env w frames temp_file temp_audio_path settings = Encoded size ->
  (run! _write_temp_video env frames audio temp_file temp_audio_path settings;
   do! size <- getsize temp_file;
   run! modify (set_self (fun s => set_progress (progress s + 1) s));
   ret (temp_file, temp_audio_path)) w
  = (inr (temp_file, temp_audio_path),
     set_self (fun s => set_progress (progress s + 1) s)
       (set_files (fun m =>
          delete temp_audio_path
            (<[temp_file := {| st_size := size;
                               payload := VideoData frames
                                            (Settings.fps settings) |}]> m))
          w)).
Proof.
  intros Hne Henc. unfold bind at 1. unfold _write_temp_video.
  unfold bind at 1. unfold get at 1. rewrite Henc.
  unfold bind at 1. unfold write_file at 1, modify at 1.
  unfold modify at 1. unfold bind at 1. unfold getsize at 1.
  cbn [files set_files].
  rewrite lookup_delete_ne by exact Hne. rewrite lookup_insert_eq.
  reflexivity.
Qed.

(** The encoder fails: the segment raises, the counter does not move. *)
Lemma encode_and_count_failed (frames : list Image) (audio : AudioFileClip)
    (temp_file temp_audio_path : string) (settings : Settings.t)
    (e : exn) (debris : bool) (w : World) :
  encode env w frames temp_file temp_audio_path settings
  = EncodeFailed e debris ->
  exists w',
    (run! _write_temp_video env frames audio temp_file temp_audio_path
            settings;
     do! size <- getsize temp_file;
     run! modify (set_self (fun s => set_progress (progress s + 1) s));
     ret (temp_file, temp_audio_path)) w
    = (inl e, w')
    /\ self w' = self w
    /\ (debris = false -> w' = w).
Proof.
  intros Henc. unfold bind at 1. unfold _write_temp_video.
  unfold bind at 1. unfold get at 1. rewrite Henc.
  destruct debris.
  - eexists. split; [ reflexivity | ]. split; [ reflexivity | discriminate ].
  - eexists. split; [ reflexivity | ]. split; [ reflexivity | reflexivity ].
Qed.

(** [_process_segment] leaves the output file of the chapter alone. *)
Lemma _process_segment_same_file (subdir temp_dir : string)
    (settings : Settings.t) :
  preserves (same_file (join temp_dir "video.mp4"))
    (_process_segment env subdir temp_dir settings).
Proof.
  unfold _process_segment. pres.
  - apply render_frames_preserves; [ typeclasses eauto | ].
    intros cp. apply interference_same_file.
  - apply _write_temp_video_same_file.
    + apply temp_video_not_output.
    + apply temp_audio_not_output.
Qed.

(** [_process_segment] never clears the stop flag. *)
Lemma _process_segment_flag_kept (subdir temp_dir : string)
    (settings : Settings.t) :
  preserves flag_kept (_process_segment env subdir temp_dir settings).
Proof.
  unfold _process_segment. pres.
  - apply render_frames_preserves; [ typeclasses eauto | ].
    intros cp. apply interference_flag_kept.
  - apply _write_temp_video_flag_kept.
Qed.

(** [_process_segment] moves the counter by one when it returns, and
    not at all when it raises; it never touches the total. *)
Lemma _process_segment_counter (subdir temp_dir : string)
    (settings : Settings.t) (w : World) :
  let '(r, w') := _process_segment env subdir temp_dir settings w in
  total_segments (self w') = total_segments (self w) /\
  progress (self w')
  = (progress (self w) + match r with inr _ => 1 | inl _ => 0 end)%Z.
Proof.
  assert (Hpre : forall A (m : M World A) w0,
    preserves same_counters m ->
    total_segments (self (snd (m w0))) = total_segments (self w0) /\
    progress (self (snd (m w0))) = progress (self w0)).
  { intros A m w0 H. destruct (H w0) as [H1 H2]. auto. }
  unfold _process_segment.
  unfold bind at 1. unfold time_ns at 1.
  set (w1 := set_clock (clock w + 1)%N w).
  unfold bind at 1, lift at 1.
  destruct (Settings.chapter_path settings) as [cp | ];
    [ | simpl; split; [ reflexivity | lia ] ].
  unfold bind at 1.
  pose proof (Hpre _ (_load_resources (join cp subdir)
                        (Settings.resolution settings)) w1
                (_load_resources_preserves _ _ _)) as [Lt Lp].
  destruct (_load_resources _ _ w1) as [[e | [image audio]] w2];
    simpl in Lt, Lp; [ split; [ exact Lt | rewrite Lp; simpl; lia ] | ].
  unfold bind at 1, lift at 1.
  destruct (duration audio) as [d | ];
    [ | split; [ exact Lt | rewrite Lp; simpl; lia ] ].
  destruct (py_int (fmul d (Settings.fps settings)) =? 0)%Z;
    [ split; [ exact Lt | rewrite Lp; simpl; lia ] | ].
  unfold bind at 1.
  pose proof (Hpre _ (render_frames env
      (Z.to_nat (py_int (fmul d (Settings.fps settings)))) 0 [] image d
      settings subdir) w2
    (render_frames_preserves env _ _ (interference_same_counters env)
       _ _ _ _ _ _)) as [Rt Rp].
  destruct (render_frames _ _ _ _ _ _ _ _ w2) as [[e | frames] w3];
    simpl in Rt, Rp;
    [ split; [ congruence | rewrite Rp, Lp; simpl; lia ] | ].
  unfold bind at 1.
  pose proof (Hpre _ (_write_temp_video env frames audio
      (join temp_dir (temp_video_name env subdir))
      (join (dirname (join temp_dir (temp_video_name env subdir)))
            (temp_audio_name env subdir (clock w)))
      settings) w3 (_write_temp_video_same_counters env _ _ _ _ _))
    as [Wt Wp].
  destruct (_write_temp_video _ _ _ _ _ _ w3) as [[e | u] w4];
    simpl in Wt, Wp;
    [ split; [ congruence | rewrite Wp, Rp, Lp; simpl; lia ] | ].
  unfold bind at 1. unfold getsize at 1.
  destruct (files w4 !! _);
    [ | split; [ simpl; congruence
               | simpl; rewrite Wp, Rp, Lp; simpl; lia ] ].
  simpl. split; [ congruence | rewrite Wp, Rp, Lp; simpl; lia ].
Qed.

End SegmentRun.

(** ** What an operation returns, and what it leaves on failure *)




Section Outcomes.

Context {S : Type}.

Lemma returns_ret {A : Type} (P : A -> Prop) (a : A) :
  P a -> returns (S := S) P (ret a).
Proof. intros H s a' s' E. injection E as <- _. exact H. Qed.

Lemma returns_raise {A : Type} (P : A -> Prop) (e : exn) :
  returns (S := S) P (raise e).
Proof. intros s a s' E. discriminate E. Qed.

Lemma returns_bind {A B : Type} (P : B -> Prop) (m : M S A)
    (k : A -> M S B) :
  (forall a, returns P (k a)) -> returns P (bind m k).
Proof.
  intros Hk s b s' E. unfold bind in E.
  destruct (m s) as [[e | a] s1]; [ discriminate | ]. eapply Hk, E.
Qed.

Lemma returns_if {A : Type} (P : A -> Prop) (b : bool) (m1 m2 : M S A) :
  returns P m1 -> returns P m2 -> returns P (if b then m1 else m2).
Proof. destruct b; auto. Qed.

Lemma preserves_bind_returns {A B : Type} (R : S -> S -> Prop)
    `{!PreOrder R} (P : A -> Prop) (m : M S A) (k : A -> M S B) :
  preserves R m -> returns P m ->
  (forall a, P a -> preserves R (k a)) -> preserves R (bind m k).
Proof.
  intros Hm Hr Hk s. unfold bind. specialize (Hm s). specialize (Hr s).
  destruct (m s) as [[e | a] s1]; simpl in *; [ exact Hm | ].
  etransitivity; [ exact Hm | ]. apply Hk. eapply Hr. reflexivity.
Qed.

Lemma on_error_preserves {A : Type} (R : S -> S -> Prop) (m : M S A) :
  preserves R m -> on_error R m.
Proof. intros H s e s' E. specialize (H s). now rewrite E in H. Qed.

Lemma on_error_bind {A B : Type} (R : S -> S -> Prop) `{!PreOrder R}
    (m : M S A) (k : A -> M S B) :
  preserves R m -> (forall a, on_error R (k a)) -> on_error R (bind m k).
Proof.
  intros Hm Hk s e s' E. unfold bind in E. specialize (Hm s).
  destruct (m s) as [[e1 | a] s1]; simpl in Hm.
  - injection E as _ <-. exact Hm.
  - etransitivity; [ exact Hm | ]. eapply Hk, E.
Qed.

Lemma on_error_bind_last {A B : Type} (R : S -> S -> Prop)
    (m : M S A) (k : A -> M S B) :
  on_error R m -> (forall a, never_raises (k a)) -> on_error R (bind m k).
Proof.
  intros Hm Hk s e s' E. unfold bind in E. specialize (Hm s).
  destruct (m s) as [[e1 | a] s1].
  - injection E as _ <-. eapply Hm. reflexivity.
  - destruct (Hk a s1) as [b Hb]. rewrite E in Hb. discriminate Hb.
Qed.

Lemma on_error_ret {A : Type} (R : S -> S -> Prop) (a : A) :
  on_error R (ret a).
Proof. intros s e s' E. discriminate E. Qed.

Lemma on_error_finally {A : Type} (R : S -> S -> Prop) `{!PreOrder R}
    (body : M S A) (final : M S unit) :
  on_error R body -> preserves R final -> never_raises final ->
  on_error R (try_finally body final).
Proof.
  intros Hb Hf Hn s e s' E. unfold try_finally in E.
  specialize (Hb s). destruct (body s) as [r s1].
  specialize (Hf s1). destruct (Hn s1) as [u Hu].
  destruct (final s1) as [[e2 | u2] s2]; simpl in *; [ discriminate | ].
  injection E as -> <-. etransitivity; [ eapply Hb; reflexivity | exact Hf ].
Qed.

Lemma never_raises_ret {A : Type} (a : A) : never_raises (S := S) (ret a).
Proof. intros s. now exists a. Qed.

Lemma never_raises_bind {A B : Type} (m : M S A) (k : A -> M S B) :
  never_raises m -> (forall a, never_raises (k a)) ->
  never_raises (bind m k).
Proof.
  intros Hm Hk s. unfold bind. destruct (Hm s) as [a Ha].
  destruct (m s) as [[e | a'] s1]; simpl in Ha; [ discriminate | ].
  apply Hk.
Qed.

End Outcomes.

Section Cleanup.

Variable env : Env.

(** Where no file is locked, the guarded removal cannot raise. *)
Lemma remove_if_exists_never_raises (path : string) :
  unlocked env -> never_raises (remove_if_exists env path).
Proof.
  intros Hu w. unfold remove_if_exists, bind, exists_, os_remove.
  destruct (files w !! path) as [f | ] eqn:E.
  - rewrite bool_decide_eq_true_2 by eauto. rewrite E, Hu. now exists tt.
  - rewrite bool_decide_eq_false_2 by (intros [x Hx]; discriminate).
    now exists tt.
Qed.

Lemma sleep_preserves (R : World -> World -> Prop) (ns : N) :
  (forall w c, R w (set_clock c w)) -> preserves R (sleep ns).
Proof. intros H w. apply H. Qed.

Lemma remove_with_retries_never_raises (n : nat) :
  forall i attempts path,
    never_raises (remove_with_retries env n i attempts path).
Proof.
  induction n as [ | n IH]; intros i attempts path w; simpl.
  - now exists tt.
  - unfold bind at 1. unfold catch.
    destruct (os_remove env path w) as [[e | u] w1].
    + destruct e; try (now exists tt).
      apply never_raises_bind; [ | intros _; apply IH ].
      destruct (i <? attempts - 1)%Z; intros w'; now exists tt.
    + now exists tt.
Qed.

Lemma _cleanup_temp_files_never_raises (paths : list string) :
  never_raises (_cleanup_temp_files env paths).
Proof.
  induction paths as [ | p paths IH]; cbn [_cleanup_temp_files].
  - apply never_raises_ret.
  - apply never_raises_bind; [ intros w; now eexists | ].
    intros present. apply never_raises_bind; [ | intros _; exact IH ].
    destruct (negb present);
      [ apply never_raises_ret | apply remove_with_retries_never_raises ].
Qed.

Lemma remove_with_retries_preserves (R : World -> World -> Prop)
    `{!PreOrder R} (path : string) :
  (forall w c, R w (set_clock c w)) ->
  preserves R (os_remove env path) ->
  forall n i attempts, preserves R (remove_with_retries env n i attempts path).
Proof.
  intros Hc H. induction n as [ | n IH]; intros i attempts;
    cbn [remove_with_retries]; pres.
  apply sleep_preserves, Hc.
Qed.

Lemma _cleanup_temp_files_same_file (p : string) (paths : list string) :
  Forall (fun path => path <> p) paths ->
  preserves (same_file p) (_cleanup_temp_files env paths).
Proof.
  induction 1 as [ | path paths Hne Hall IH]; cbn [_cleanup_temp_files];
    pres.
  apply remove_with_retries_preserves;
    [ typeclasses eauto | intros w c; hnf; simpl; auto | ].
  apply os_remove_same_file, Hne.
Qed.

Lemma _cleanup_temp_files_same_counters (paths : list string) :
  preserves same_counters (_cleanup_temp_files env paths).
Proof.
  induction paths as [ | path paths IH]; cbn [_cleanup_temp_files]; pres.
  apply remove_with_retries_preserves;
    [ typeclasses eauto | intros w c; hnf; simpl; auto | ].
  apply os_remove_same_counters.
Qed.

Lemma _cleanup_temp_files_flag_kept (paths : list string) :
  preserves flag_kept (_cleanup_temp_files env paths).
Proof.
  induction paths as [ | path paths IH]; cbn [_cleanup_temp_files]; pres.
  apply remove_with_retries_preserves;
    [ typeclasses eauto | intros w c; hnf; simpl; auto | ].
  apply os_remove_flag_kept.
Qed.

End Cleanup.

#[local] Hint Resolve _cleanup_temp_files_same_counters
  _cleanup_temp_files_flag_kept _process_segment_same_file
  _process_segment_flag_kept : pres.

Section Merge.

Variable env : Env.

Lemma os_replace_on_error (R : World -> World -> Prop) `{!PreOrder R}
    (src dst : string) : on_error R (os_replace src dst).
Proof.
  intros w e w' E. unfold os_replace in E.
  destruct (files w !! src); [ discriminate | ].
  injection E as _ <-. reflexivity.
Qed.

Lemma run_concat_same_file (p : string) (cmd : list string)
    (concat_list output : string) :
  output <> p ->
  preserves (same_file p) (run_concat env cmd concat_list output).
Proof. intros H. unfold run_concat. pres. Qed.

Lemma run_concat_same_counters (cmd : list string)
    (concat_list output : string) :
  preserves same_counters (run_concat env cmd concat_list output).
Proof. unfold run_concat. pres. Qed.

Lemma run_concat_flag_kept (cmd : list string)
    (concat_list output : string) :
  preserves flag_kept (run_concat env cmd concat_list output).
Proof. unfold run_concat. pres. Qed.

Lemma remove_if_exists_same_file (p path : string) :
  path <> p -> preserves (same_file p) (remove_if_exists env path).
Proof. intros H. unfold remove_if_exists. pres. Qed.

Lemma remove_if_exists_same_counters (path : string) :
  preserves same_counters (remove_if_exists env path).
Proof. unfold remove_if_exists. pres. Qed.

Lemma remove_if_exists_flag_kept (path : string) :
  preserves flag_kept (remove_if_exists env path).
Proof. unfold remove_if_exists. pres. Qed.

Hint Resolve run_concat_same_file run_concat_same_counters
  run_concat_flag_kept remove_if_exists_same_file
  remove_if_exists_same_counters remove_if_exists_flag_kept : pres.

(** Where no file is locked, a merge that raises has not touched the
    output file: the rename is the last step of its [try] block. *)
Lemma _merge_videos_on_error (temp_files : list string)
    (output_path : string) (settings : Settings.t) :
  unlocked env ->
  ends_in output_path ".mp4" ->
  on_error (same_file output_path)
    (_merge_videos env temp_files output_path settings).
Proof.
  intros Hu Hmp4. unfold _merge_videos.
  pose proof (temp_output_not_output env output_path) as Htmp.
  assert (Hlist : join (dirname output_path) "concat.txt" <> output_path).
  { apply ends_in_differ with (s1 := ".txt") (s2 := ".mp4");
      [ | exact Hmp4 | reflexivity | discriminate ].
    apply join_ends_in. now exists "concat". }
  destruct (splitext output_path) as [root ext]. simpl in Htmp.
  apply on_error_finally; [ typeclasses eauto | | | ].
  - apply on_error_bind; [ typeclasses eauto | | intros _ ].
    { apply write_file_same_file, Hlist. }
    apply on_error_bind; [ typeclasses eauto | apply preserves_get, _ | ].
    intros w0.
    apply on_error_bind; [ typeclasses eauto | | intros _ ].
    { apply run_concat_same_file, Htmp. }
    apply on_error_bind_last; [ | intros _; apply never_raises_ret ].
    apply os_replace_on_error, _.
  - pres; apply remove_if_exists_same_file; assumption.
  - apply never_raises_bind;
      [ apply remove_if_exists_never_raises, Hu | intros _ ].
    apply remove_if_exists_never_raises, Hu.
Qed.

Lemma _merge_videos_same_counters (temp_files : list string)
    (output_path : string) (settings : Settings.t) :
  preserves same_counters
    (_merge_videos env temp_files output_path settings).
Proof.
  unfold _merge_videos. destruct (splitext output_path) as [root ext]. pres.
Qed.

Lemma _merge_videos_flag_kept (temp_files : list string)
    (output_path : string) (settings : Settings.t) :
  preserves flag_kept (_merge_videos env temp_files output_path settings).
Proof.
  unfold _merge_videos. destruct (splitext output_path) as [root ext]. pres.
Qed.

End Merge.

#[local] Hint Resolve _merge_videos_same_counters _merge_videos_flag_kept
  : pres.

(** ** A batch *)

Section Batch.

Variable env : Env.

Lemma gather_preserves (R : World -> World -> Prop) `{!PreOrder R}
    (temp_dir : string) (settings : Settings.t) :
  (forall subdir,
     preserves R (_process_segment env subdir temp_dir settings)) ->
  forall batch, preserves R (gather env batch temp_dir settings).
Proof.
  intros H. induction batch as [ | subdir rest IH]; cbn [gather]; pres.
Qed.

(** The results of a batch: one per segment; the counter has moved by
    the number of segments that returned. *)
Lemma gather_results (temp_dir : string) (settings : Settings.t) :
  forall batch w,
    exists rs w',
      gather env batch temp_dir settings w = (inr rs, w')
      /\ length rs = length batch
      /\ total_segments (self w') = total_segments (self w)
      /\ progress (self w')
         = (progress (self w) + Z.of_nat (length (video_paths rs)))%Z.
Proof.
  induction batch as [ | subdir rest IH]; intros w; cbn [gather].
  - exists [], w. simpl. repeat split; lia.
  - unfold bind at 1. unfold catch at 1.
    pose proof (_process_segment_counter env subdir temp_dir settings w)
      as Hc.
    destruct (_process_segment env subdir temp_dir settings w) as [r w1].
    destruct Hc as [Ht Hp].
    unfold bind at 1.
    destruct (IH w1) as (rs & w2 & E & Hlen & Ht' & Hp').
    rewrite E. exists (r :: rs), w2. split; [ reflexivity | ].
    split; [ simpl; congruence | ]. split; [ congruence | ].
    rewrite Hp', Hp. unfold video_paths. simpl.
    destruct r as [e | [v a]]; simpl; lia.
Qed.

(** The paths a segment returns are its two temp names. *)
Lemma _process_segment_returns (subdir temp_dir : string)
    (settings : Settings.t) :
  returns (fun r : string * string =>
             fst r <> join temp_dir "video.mp4"
             /\ snd r <> join temp_dir "video.mp4")
    (_process_segment env subdir temp_dir settings).
Proof.
  unfold _process_segment.
  repeat (apply returns_bind; intros ?).
  destruct a1 as [image audio].
  repeat (apply returns_bind; intros ?).
  apply returns_if; [ apply returns_raise | ].
  repeat (apply returns_bind; intros ?).
  apply returns_ret. simpl. split.
  - apply temp_video_not_output.
  - apply temp_audio_not_output.
Qed.

Lemma gather_returns (temp_dir : string) (settings : Settings.t) :
  forall batch,
    returns (fun rs => Forall (fun p => p <> join temp_dir "video.mp4")
                              (temp_paths rs))
      (gather env batch temp_dir settings).
Proof.
  induction batch as [ | subdir rest IH]; cbn [gather].
  - apply returns_ret. constructor.
  - intros w rs w' E. unfold bind at 1 in E. unfold catch at 1 in E.
    pose proof (_process_segment_returns subdir temp_dir settings w) as Hr.
    destruct (_process_segment env subdir temp_dir settings w) as [r w1].
    unfold bind at 1 in E. specialize (IH w1).
    destruct (gather env rest temp_dir settings w1) as [[e | rs'] w2];
      [ discriminate | ].
    injection E as <- <-. unfold temp_paths. simpl.
    apply Forall_app. split; [ | eapply IH; reflexivity ].
    destruct r as [e | [v a]]; [ constructor | ].
    destruct (Hr (v, a) w1 eq_refl) as [Hv Ha].
    repeat constructor; assumption.
Qed.

Lemma gather_app (temp_dir : string) (settings : Settings.t) :
  forall l1 l2 w,
    snd (gather env (l1 ++ l2) temp_dir settings w)
    = snd (gather env l2 temp_dir settings
             (snd (gather env l1 temp_dir settings w))).
Proof.
  induction l1 as [ | subdir l1 IH]; intros l2 w; [ reflexivity | ].
  cbn [gather app]. unfold bind, catch.
  destruct (_process_segment env subdir temp_dir settings w) as [r w1].
  specialize (IH l2 w1).
  destruct (gather_results temp_dir settings (l1 ++ l2) w1)
    as (rs & w2 & E & _).
  destruct (gather_results temp_dir settings l1 w1) as (rs1 & w3 & E1 & _).
  rewrite E, E1 in *. simpl in *. exact IH.
Qed.

(** [collect] files the paths of the results in the two lists. *)
Lemma collect_spec : forall rs (j : Job),
  collect rs j
  = (inr tt,
     (fst j,
      {| temp_video_files := temp_video_files (snd j) ++ video_paths rs;
         all_temp_files := all_temp_files (snd j) ++ temp_paths rs |})).
Proof.
  induction rs as [ | r rs IH]; intros [w [tv at_]]; cbn [collect].
  - unfold ret, video_paths, temp_paths. simpl. now rewrite !app_nil_r.
  - destruct r as [e | [v a]].
    + rewrite IH. reflexivity.
    + unfold bind, modify. rewrite IH. simpl.
      unfold video_paths, temp_paths. simpl.
      now rewrite <- !app_assoc.
Qed.

End Batch.

(** ** The batch loop *)

Section BatchLoop.

Variable env : Env.

(** One turn of the loop. *)
Lemma run_batches_step (i : Z) (later : list Z) (subdirs : list string)
    (batch_size : Z) (cp : string) (settings : Settings.t) (j : Job) :
  exists rs w1,
    gather env (slice subdirs i (i + batch_size)) cp settings (fst j)
    = (inr rs, w1)
    /\ length rs = length (slice subdirs i (i + batch_size))
    /\ run_batches env (i :: later) subdirs batch_size cp settings j
       = let w2 := snd (interference env (BeforeBatchCheck i) w1) in
         let locals :=
           {| temp_video_files := temp_video_files (snd j) ++ video_paths rs;
              all_temp_files := all_temp_files (snd j) ++ temp_paths rs |} in
         if stop_flag (self w2)
         then (inl cancellation_error, (w2, locals))
         else run_batches env later subdirs batch_size cp settings
                (w2, locals).
Proof.
  destruct (gather_results env cp settings
              (slice subdirs i (i + batch_size)) (fst j))
    as (rs & w1 & E & Hlen & _).
  exists rs, w1. split; [ exact E | ]. split; [ exact Hlen | ].
  cbn [run_batches]. unfold bind at 1. unfold in_job at 1. rewrite E.
  unfold bind at 1. rewrite collect_spec.
  unfold bind at 1. unfold in_job at 1. cbn [fst snd].
  destruct (interference env (BeforeBatchCheck i) w1) as [r w2] eqn:Ei.
  assert (Hr : r = inr tt).
  { unfold interference in Ei. destruct (cancel_requested env _);
      simpl in Ei; now injection Ei as <- _. }
  subst r. unfold bind at 1. unfold in_job at 1, is_set at 1.
  cbn [fst snd]. destruct (stop_flag (self w2)); reflexivity.
Qed.

Lemma run_batches_invariants (subdirs : list string) (batch_size : Z)
    (cp : string) (settings : Settings.t) :
  forall starts j r j',
    run_batches env starts subdirs batch_size cp settings j = (r, j') ->
    same_file (join cp "video.mp4") (fst j) (fst j')
    /\ flag_kept (fst j) (fst j')
    /\ total_segments (self (fst j')) = total_segments (self (fst j))
    /\ (Forall (fun p => p <> join cp "video.mp4") (all_temp_files (snd j))
        -> Forall (fun p => p <> join cp "video.mp4")
                  (all_temp_files (snd j')))
    /\ (progress (self (fst j'))
        - Z.of_nat (length (temp_video_files (snd j')))
        = progress (self (fst j))
          - Z.of_nat (length (temp_video_files (snd j))))%Z
    /\ (length (temp_video_files (snd j'))
        <= length (temp_video_files (snd j))
           + length (concat (batches_of starts subdirs batch_size)))%nat
    /\ (forall e, r = inl e -> e = cancellation_error)
    /\ (r = inr tt -> starts <> [] -> stop_flag (self (fst j')) = false).
Proof.
  induction starts as [ | i later IH]; intros j r j' E.
  - cbn in E. injection E as <- <-.
    repeat split; try reflexivity; try lia; try discriminate; auto.
    intros _ H. now contradiction H.
  - destruct (run_batches_step i later subdirs batch_size cp settings j)
      as (rs & w1 & Eg & Hlen & Estep).
    rewrite Estep in E. clear Estep. cbv zeta in E.
    pose proof (gather_results env cp settings
                  (slice subdirs i (i + batch_size)) (fst j))
      as (rs' & w1' & Eg' & _ & Ht & Hp).
    rewrite Eg in Eg'. injection Eg' as <- <-.
    pose proof (gather_preserves env (same_file (join cp "video.mp4")) cp
                  settings
                  (fun s => _process_segment_same_file env s cp settings)
                  (slice subdirs i (i + batch_size)) (fst j)) as Hsf.
    pose proof (gather_preserves env flag_kept cp settings
                  (fun s => _process_segment_flag_kept env s cp settings)
                  (slice subdirs i (i + batch_size)) (fst j)) as Hfk.
    pose proof (gather_returns env cp settings _ _ _ _ Eg) as Hok.
    rewrite Eg in Hsf, Hfk. cbn [snd] in Hsf, Hfk.
    pose proof (interference_same_file env (join cp "video.mp4")
                  (BeforeBatchCheck i) w1) as Isf.
    pose proof (interference_flag_kept env (BeforeBatchCheck i) w1) as Ifk.
    pose proof (interference_same_counters env (BeforeBatchCheck i) w1)
      as [Ip It].
    set (w2 := snd (interference env (BeforeBatchCheck i) w1)) in *.
    assert (Hlenv : (length (video_paths rs) <= length rs)%nat).
    { clear. unfold video_paths. induction rs as [ | [e | [v a]] rs IHrs];
        simpl; lia. }
    destruct (stop_flag (self w2)) eqn:Hflag.
    + injection E as <- <-. cbn [fst snd temp_video_files all_temp_files].
      split; [ etransitivity; eauto | ].
      split; [ etransitivity; eauto | ].
      split; [ congruence | ].
      split; [ intros H; apply Forall_app; split; assumption | ].
      split; [ rewrite length_app; lia | ].
      split; [ rewrite length_app; cbn [batches_of map concat];
               rewrite length_app; lia | ].
      split; [ intros e [= <-]; reflexivity | discriminate ].
    + pose proof E as E0. apply IH in E.
      cbn [fst snd temp_video_files all_temp_files] in E.
      destruct E as (Esf & Efk & Et & Eok & Ep & El & Ee & Es).
      split; [ etransitivity; [ | exact Esf ]; etransitivity; eauto | ].
      split; [ etransitivity; [ | exact Efk ]; etransitivity; eauto | ].
      split; [ congruence | ].
      split; [ intros H; apply Eok, Forall_app; split; assumption | ].
      split; [ rewrite Ep, length_app; lia | ].
      split; [ rewrite length_app in El; cbn [batches_of map concat];
               rewrite length_app; fold (batches_of later subdirs batch_size);
               lia | ].
      split; [ exact Ee | ].
      intros Hr _. destruct later as [ | i' later'].
      * cbn in E0. injection E0 as _ <-. exact Hflag.
      * apply Es; [ exact Hr | discriminate ].
Qed.

End BatchLoop.

(** ** The job *)

Section JobStages.

Variable env : Env.

Lemma list_segments_world (cp : string) (w : World) :
  snd (list_segments cp w) = w.
Proof.
  unfold list_segments, bind, listdir, get, ret.
  destruct (dirs w !! cp); reflexivity.
Qed.

(** The [try] block of [generate_video], stage by stage. *)
Lemma generate_video_body_stages (cp out : string) (settings : Settings.t)
    (j : Job) :
  generate_video_body env cp out settings j
  = match fst (list_segments cp (fst j)) with
    | inl e => (inl e, j)
    | inr [] => (inl (ValueError "No valid video segments"), j)
    | inr subdirs =>
        let w2 := snd (start_job subdirs cp (fst j)) in
        match py_range0 (Z.of_nat (length subdirs))
                        (Settings.batch_size settings) with
        | inl e => (inl e, (w2, snd j))
        | inr starts =>
            match run_batches env starts subdirs
                    (Settings.batch_size settings) cp settings (w2, snd j)
            with
            | (inl e, j3) => (inl e, j3)
            | (inr _, j3) =>
                if negb (length (temp_video_files (snd j3))
                         =? length subdirs)%nat
                then (inl partial_failure_error, j3)
                else
                  match temp_video_files (snd j3) with
                  | [] =>
                      (inl (ValueError "No valid video segments generated"),
                       j3)
                  | _ =>
                      match _merge_videos env (temp_video_files (snd j3))
                              out settings (merging (fst j3)) with
                      | (inl e, w5) => (inl e, (w5, snd j3))
                      | (inr result, w5) =>
                          (inr result, (completed w5, snd j3))
                      end
                  end
            end
        end
    end.
Proof.
  destruct j as [w locals]. cbn [fst snd].
  pose proof (list_segments_world cp w) as Hw.
  unfold generate_video_body. unfold bind at 1. unfold in_job at 1.
  cbn [fst snd].
  destruct (list_segments cp w) as [[e | subdirs] w1]; cbn [fst snd] in *;
    subst w1; [ reflexivity | ].
  destruct subdirs as [ | s subdirs]; [ reflexivity | ].
  set (subs := s :: subdirs).
  unfold bind at 1. unfold in_job at 1. cbn [fst snd].
  change (start_job subs cp w)
    with (@inr exn unit tt, snd (start_job subs cp w)) at 1.
  cbv beta iota zeta.
  unfold bind at 1. unfold lift at 1.
  destruct (py_range0 _ _) as [e | starts]; [ reflexivity | ].
  unfold bind at 1.
  destruct (run_batches env starts subs _ cp settings _) as [[e | u] j3];
    [ reflexivity | ].
  unfold bind at 1. unfold get at 1.
  destruct (negb _); [ reflexivity | ].
  destruct (temp_video_files (snd j3)) as [ | v vs] eqn:Etv;
    [ reflexivity | ].
  unfold bind at 1. unfold in_job at 1, modify at 1. cbn [fst snd].
  unfold bind at 1. unfold in_job at 1. cbn [fst snd].
  fold (merging (fst j3)).
  destruct (_merge_videos env (v :: vs) out settings (merging (fst j3)))
    as [[e | result] w5]; reflexivity.
Qed.

(** [generate_video]: the [try] block, then the clean-up of the temp
    files it has listed. *)
Lemma generate_video_unfold (chapter_path : string)
    (video_settings : option Overrides.t) (w : World) :
  let '(cp, settings, out, w0) :=
    job_context env chapter_path video_settings w in
  let '(rb, j1) := generate_video_body env cp out settings (w0, no_locals) in
  generate_video env chapter_path video_settings w
  = (rb, match all_temp_files (snd j1) with
         | [] => fst j1
         | paths => snd (_cleanup_temp_files env paths (fst j1))
         end).
Proof.
  unfold generate_video.
  destruct (job_context env chapter_path video_settings w)
    as [[[cp settings] out] w0].
  unfold try_finally.
  destruct (generate_video_body env cp out settings (w0, no_locals))
    as [rb j1].
  unfold generate_video_finally. unfold bind at 1. unfold get at 1.
  destruct (all_temp_files (snd j1)) as [ | p paths] eqn:Ep.
  - reflexivity.
  - unfold in_job.
    destruct (_cleanup_temp_files_never_raises env (p :: paths) (fst j1))
      as [u Hu].
    destruct (_cleanup_temp_files env (p :: paths) (fst j1)) as [[e | u'] w2];
      simpl in Hu; [ discriminate | reflexivity ].
Qed.

End JobStages.

Section JobFailure.

Variable env : Env.

Lemma job_context_facts (chapter_path : string)
    (video_settings : option Overrides.t) (w : World) :
  let '(cp, settings, out, w0) :=
    job_context env chapter_path video_settings w in
  cp = abspath env chapter_path
  /\ out = join cp "video.mp4"
  /\ Settings.chapter_path settings = Some cp
  /\ files w0 = files w
  /\ same_counters w w0.
Proof.
  unfold job_context. cbv zeta.
  repeat split; unfold interference;
    destruct (cancel_requested env AfterClear); reflexivity.
Qed.

Lemma start_job_same_file (p : string) (subdirs : list string)
    (cp : string) : preserves (same_file p) (start_job subdirs cp).
Proof. intros w. reflexivity. Qed.

(** The temp files a job lists are never its output file. *)
Lemma generate_video_body_locals (cp : string) (settings : Settings.t)
    (w0 : World) (rb : result string) (j1 : Job) :
  generate_video_body env cp (join cp "video.mp4") settings (w0, no_locals)
  = (rb, j1) ->
  Forall (fun p => p <> join cp "video.mp4") (all_temp_files (snd j1)).
Proof.
  rewrite generate_video_body_stages. cbn [fst snd].
  destruct (fst (list_segments cp w0)) as [e | [ | s subdirs]];
    try (intros [= <- <-]; constructor).
  cbv zeta. destruct (py_range0 _ _) as [e | starts];
    [ intros [= <- <-]; constructor | ].
  destruct (run_batches env starts _ _ cp settings _) as [r j3] eqn:Eb.
  apply run_batches_invariants in Eb. destruct Eb as (_ & _ & _ & Hok & _).
  specialize (Hok (Forall_nil_2 _)).
  destruct r as [e | u]; [ intros [= <- <-]; exact Hok | ].
  destruct (negb _); [ intros [= <- <-]; exact Hok | ].
  destruct (temp_video_files (snd j3)); [ intros [= <- <-]; exact Hok | ].
  destruct (_merge_videos _ _ _ _ _) as [[e | result] w5];
    intros [= <- <-]; exact Hok.
Qed.

(** Where no file is locked, a [try] block that raises has left the
    output file as it was. *)
Lemma generate_video_body_failure (cp : string) (settings : Settings.t)
    (w0 : World) (e : exn) (j1 : Job) :
  unlocked env ->
  generate_video_body env cp (join cp "video.mp4") settings (w0, no_locals)
  = (inl e, j1) ->
  same_file (join cp "video.mp4") w0 (fst j1).
Proof.
  intros Hu. rewrite generate_video_body_stages. cbn [fst snd].
  destruct (fst (list_segments cp w0)) as [e0 | [ | s subdirs]];
    try (intros [= <- <-]; reflexivity).
  cbv zeta. set (subs := s :: subdirs).
  destruct (py_range0 _ _) as [e0 | starts];
    [ intros [= <- <-]; reflexivity | ].
  destruct (run_batches env starts _ _ cp settings _) as [r j3] eqn:Eb.
  apply run_batches_invariants in Eb. destruct Eb as (Hsf & _).
  cbn [fst] in Hsf.
  assert (Hsf' : same_file (join cp "video.mp4") w0 (fst j3)).
  { etransitivity; [ | exact Hsf ]. reflexivity. }
  destruct r as [e0 | u]; [ intros [= <- <-]; exact Hsf' | ].
  destruct (negb _); [ intros [= <- <-]; exact Hsf' | ].
  destruct (temp_video_files (snd j3)); [ intros [= <- <-]; exact Hsf' | ].
  destruct (_merge_videos _ _ _ _ _) as [[e0 | result] w5] eqn:Em;
    [ | discriminate ].
  intros [= <- <-]. cbn [fst].
  etransitivity; [ exact Hsf' | ].
  apply _merge_videos_on_error in Em.
  - etransitivity; [ | exact Em ]. reflexivity.
  - exact Hu.
  - apply join_ends_in. now exists "video".
Qed.

(** X20. For every run of [generate_video]: when the batches have been
    rendered with a number of clips different from the number of
    segments, it raises the partial-failure error and the file at
    [chapter_path/video.mp4] is exactly what it was before the run; and
    where no file is locked, the same holds of every run that raises.
    The only write to the output path is the rename at the end of a
    merge, which is reached only when every segment has a clip. *)
Theorem generate_video_all_or_nothing (chapter_path : string)
    (video_settings : option Overrides.t) (w : World) :
  let cp := abspath env chapter_path in
  let out := join cp "video.mp4" in
  let settings := snd (fst (fst (job_context env chapter_path
                                   video_settings w))) in
  let w0 := snd (job_context env chapter_path video_settings w) in
  let r := fst (generate_video env chapter_path video_settings w) in
  let w' := snd (generate_video env chapter_path video_settings w) in
  (unlocked env ->
   forall e, r = inl e -> files w' !! out = files w !! out)
  /\ (forall subdirs starts j3,
        fst (list_segments cp w0) = inr subdirs ->
        subdirs <> [] ->
        py_range0 (Z.of_nat (length subdirs)) (Settings.batch_size settings)
        = inr starts ->
        run_batches env starts subdirs (Settings.batch_size settings) cp
          settings (snd (start_job subdirs cp w0), no_locals)
        = (inr tt, j3) ->
        length (temp_video_files (snd j3)) <> length subdirs ->
        r = inl partial_failure_error
        /\ files w' !! out = files w !! out).
Proof.
  intros cp out settings w0 r w'.
  pose proof (job_context_facts chapter_path video_settings w) as Hctx.
  pose proof (generate_video_unfold env chapter_path video_settings w)
    as Hgen.
  subst settings w0.
  destruct (job_context env chapter_path video_settings w)
    as [[[cp' settings] out'] w0] eqn:Ectx.
  destruct Hctx as (-> & -> & Hcp & Hfiles & _). fold cp out in Hgen |- *.
  cbn [fst snd].
  destruct (generate_video_body env cp out settings (w0, no_locals))
    as [rb j1] eqn:Ebody.
  subst r w'. rewrite Hgen. cbn [fst snd].
  assert (Hclean : same_file out w0 (fst j1) ->
    files (match all_temp_files (snd j1) with
           | [] => fst j1
           | paths => snd (_cleanup_temp_files env paths (fst j1))
           end) !! out = files w !! out).
  { intros Hsf.
    pose proof (generate_video_body_locals _ _ _ _ _ Ebody) as Hok.
    fold out in Hok. unfold same_file in Hsf.
    rewrite <- Hfiles, <- Hsf.
    destruct (all_temp_files (snd j1)) as [ | p paths]; [ reflexivity | ].
    apply (_cleanup_temp_files_same_file env out (p :: paths) Hok). }
  split.
  { intros Hu e ->. apply Hclean.
    apply (generate_video_body_failure _ _ _ _ _ Hu Ebody). }
  intros subdirs starts j3 Hlist Hne Hrange Hrun Hcount.
  rewrite generate_video_body_stages in Ebody. cbn [fst snd] in Ebody.
  rewrite Hlist in Ebody.
  destruct subdirs as [ | s subdirs]; [ contradiction | ].
  cbv zeta in Ebody. rewrite Hrange, Hrun in Ebody.
  apply Nat.eqb_neq in Hcount. rewrite Hcount in Ebody.
  injection Ebody as <- <-.
  split; [ reflexivity | ]. apply Hclean.
  apply run_batches_invariants in Hrun. destruct Hrun as (Hsf & _).
  exact Hsf.
Qed.

End JobFailure.

(** ** Every segment is in exactly one batch *)

Lemma slice_take_drop {A : Type} (l : list A) (a bs : nat) :
  slice l (Z.of_nat a) (Z.of_nat a + Z.of_nat bs) = take bs (drop a l).
Proof.
  unfold slice. f_equal; [ lia | f_equal; lia ].
Qed.

Lemma chunks_concat {A : Type} (l : list A) (bs : nat) :
  (0 < bs)%nat ->
  forall (n a : nat),
    (length (drop (a * bs) l) <= n * bs)%nat ->
    concat (map (fun i => slice l i (i + Z.of_nat bs))
                ((fun k => (k * Z.of_nat bs)%Z)
                   <$> seqZ (Z.of_nat a) (Z.of_nat n)))
    = drop (a * bs) l.
Proof.
  intros Hbs. induction n as [ | n IH]; intros a Hlen.
  - simpl. symmetry. apply nil_length_inv. lia.
  - rewrite seqZ_cons by lia.
    replace (Z.succ (Z.of_nat a)) with (Z.of_nat (S a)) by lia.
    replace (Z.pred (Z.of_nat (S n))) with (Z.of_nat n) by lia.
    rewrite fmap_cons. cbn [map concat].
    replace (Z.of_nat a * Z.of_nat bs)%Z with (Z.of_nat (a * bs)) by lia.
    rewrite slice_take_drop.
    rewrite IH.
    + replace (S a * bs)%nat with (a * bs + bs)%nat by lia.
      rewrite <- drop_drop. apply take_drop.
    + rewrite length_drop in *. lia.
Qed.

Lemma batches_cover (subdirs : list string) (batch_size : Z)
    (starts : list Z) :
  py_range0 (Z.of_nat (length subdirs)) batch_size = inr starts ->
  (0 < batch_size)%Z ->
  concat (batches_of starts subdirs batch_size) = subdirs.
Proof.
  unfold py_range0. intros E Hpos.
  destruct (Z.eqb_spec batch_size 0); [ lia | ].
  destruct (Z.ltb_spec batch_size 0); [ lia | ].
  injection E as <-.
  set (len := Z.of_nat (length subdirs)).
  set (cnt := ((len + batch_size - 1) / batch_size)%Z).
  assert (Hcnt : (0 <= cnt)%Z) by (apply Z.div_pos; lia).
  assert (Hcover : (len <= cnt * batch_size)%Z).
  { subst cnt.
    pose proof (Z.div_mod (len + batch_size - 1) batch_size ltac:(lia)).
    pose proof (Z.mod_pos_bound (len + batch_size - 1) batch_size ltac:(lia)).
    nia. }
  unfold batches_of.
  pose proof (chunks_concat subdirs (Z.to_nat batch_size) ltac:(lia)
                (Z.to_nat cnt) 0) as Hc.
  rewrite !Z2Nat.id in Hc by lia. simpl in Hc.
  apply Hc. apply Nat2Z.inj_le.
  rewrite Nat2Z.inj_mul, !Z2Nat.id by lia. exact Hcover.
Qed.

Lemma batches_within (subdirs : list string) (batch_size : Z)
    (starts : list Z) :
  py_range0 (Z.of_nat (length subdirs)) batch_size = inr starts ->
  (length (concat (batches_of starts subdirs batch_size))
   <= length subdirs)%nat.
Proof.
  intros E. destruct (Z.ltb_spec 0 batch_size) as [Hpos | Hneg].
  - now rewrite (batches_cover _ _ _ E Hpos).
  - unfold py_range0 in E.
    destruct (Z.eqb_spec batch_size 0); [ discriminate | ].
    destruct (Z.ltb_spec batch_size 0); [ | lia ].
    injection E as <-. simpl. lia.
Qed.

(** ** The progress counter *)

Section Counter.

Variable env : Env.

Lemma generate_video_body_counters (cp out : string)
    (settings : Settings.t) (w0 : World) (rb : result string) (j1 : Job) :
  generate_video_body env cp out settings (w0, no_locals) = (rb, j1) ->
  counter_in_range w0 -> counter_in_range (fst j1).
Proof.
  unfold counter_in_range.
  rewrite generate_video_body_stages. cbn [fst snd].
  destruct (fst (list_segments cp w0)) as [e | [ | s subdirs]];
    try (intros [= <- <-]; auto).
  cbv zeta. set (subs := s :: subdirs). intros E _.
  destruct (py_range0 _ _) as [e | starts] eqn:Er.
  { injection E as <- <-. simpl. lia. }
  destruct (run_batches env starts _ _ cp settings _) as [r j3] eqn:Eb.
  apply run_batches_invariants in Eb.
  destruct Eb as (_ & _ & Ht & _ & Hp & Hl & _).
  pose proof (batches_within _ _ _ Er) as Hw.
  cbn [fst snd start_job modify set_self self total_segments progress
       set_current_task set_total_segments set_progress no_locals
       temp_video_files length] in Ht, Hp, Hl.
  assert (Hj3 : (0 <= progress (self (fst j3))
                 <= total_segments (self (fst j3)))%Z) by lia.
  destruct r as [e | u]; [ injection E as <- <-; exact Hj3 | ].
  destruct (negb _); [ injection E as <- <-; exact Hj3 | ].
  destruct (temp_video_files (snd j3)); [ injection E as <- <-; exact Hj3 | ].
  pose proof (_merge_videos_same_counters env (s0 :: l) out settings
                (merging (fst j3))) as [Mp Mt].
  destruct (_merge_videos _ _ _ _ _) as [[e | result] w5];
    injection E as <- <-; cbn [fst snd] in *.
  - simpl in Mp, Mt. lia.
  - simpl in Mp, Mt. simpl. lia.
Qed.

Lemma generate_video_counters (chapter_path : string)
    (video_settings : option Overrides.t) (w : World) :
  counter_in_range w ->
  counter_in_range (snd (generate_video env chapter_path video_settings w)).
Proof.
  intros Hw.
  pose proof (job_context_facts env chapter_path video_settings w) as Hctx.
  pose proof (generate_video_unfold env chapter_path video_settings w)
    as Hgen.
  destruct (job_context env chapter_path video_settings w)
    as [[[cp settings] out] w0].
  destruct Hctx as (_ & _ & _ & _ & Hp & Ht).
  destruct (generate_video_body env cp out settings (w0, no_locals))
    as [rb j1] eqn:Ebody.
  rewrite Hgen. cbn [snd].
  apply generate_video_body_counters in Ebody;
    [ | unfold counter_in_range in *; lia ].
  destruct (all_temp_files (snd j1)) as [ | p paths]; [ exact Ebody | ].
  destruct (_cleanup_temp_files_same_counters env (p :: paths) (fst j1))
    as [Cp Ct].
  unfold counter_in_range in *. lia.
Qed.

End Counter.

Lemma reachable_counter_in_range (w : World) :
  reachable w -> counter_in_range w.
Proof.
  induction 1 as [ env fs ds c | w fs ds c _ IH | w _ IH
                 | env w chapter_path video_settings _ IH
                 | env w w0 w1 chapter_path cp out video_settings settings
                     subdirs finished _ IH Hctx Hlist Hne Hsub ].
  - unfold counter_in_range, __init__.
    destruct (_check_hardware env _). simpl. lia.
  - exact IH.
  - exact IH.
  - apply generate_video_counters, IH.
  - destruct (gather_results env cp settings finished
                (snd (start_job subdirs cp w1)))
      as (rs & w2 & E & Hlen & Ht & Hp).
    rewrite E. unfold counter_in_range. cbn [snd].
    rewrite Ht, Hp. simpl.
    apply submseteq_length in Hsub.
    assert (length (video_paths rs) <= length rs)%nat.
    { clear. unfold video_paths. induction rs as [ | [e | [v a]] rs IHrs];
        simpl; lia. }
    lia.
Qed.

(** A batch runs each of its segments once, in batch order. *)
Lemma gather_unfold (env : Env) (subdir : string) (rest : list string)
    (temp_dir : string) (settings : Settings.t) (w : World) :
  let run := _process_segment env subdir temp_dir settings w in
  exists rs w',
    gather env rest temp_dir settings (snd run) = (inr rs, w')
    /\ gather env (subdir :: rest) temp_dir settings w
       = (inr (fst run :: rs), w').
Proof.
  intros run. subst run.
  destruct (gather_results env temp_dir settings rest
              (snd (_process_segment env subdir temp_dir settings w)))
    as (rs & w' & E & _).
  exists rs, w'. split; [ exact E | ].
  cbn [gather]. unfold bind at 1. unfold catch at 1.
  destruct (_process_segment env subdir temp_dir settings w) as [r w1].
  cbn [snd fst] in *. unfold bind at 1. rewrite E. reflexivity.
Qed.

(** C9, as the code has it.  [_process_segment] adds one to the counter
    when it returns a clip and leaves it alone when it raises, and never
    changes the total.  A batch runs [_process_segment] once for each of
    its segments, in order, and yields one result per segment; after it
    the counter has moved by the number of segments that returned.  A
    job hands every segment to exactly one batch, and during its batch
    loop the counter stays equal to the number of clips collected.
    Hence, in every state a service object can reach while its jobs do
    not overlap, the counter is at most the total (and not negative).
    The lock is not modelled: the increment is one step. *)
Theorem completed_never_exceeds_total_without_overlap :
  (forall env subdir temp_dir settings w,
     let r := fst (_process_segment env subdir temp_dir settings w) in
     let w' := snd (_process_segment env subdir temp_dir settings w) in
     total_segments (self w') = total_segments (self w)
     /\ progress (self w')
        = (progress (self w) + match r with inr _ => 1 | inl _ => 0 end)%Z)
  /\ (forall env temp_dir settings w,
        gather env [] temp_dir settings w = (inr [], w))
  /\ (forall env subdir rest temp_dir settings w,
        let run := _process_segment env subdir temp_dir settings w in
        exists rs w',
          gather env rest temp_dir settings (snd run) = (inr rs, w')
          /\ gather env (subdir :: rest) temp_dir settings w
             = (inr (fst run :: rs), w'))
  /\ (forall env batch temp_dir settings w,
        exists rs w',
          gather env batch temp_dir settings w = (inr rs, w')
          /\ length rs = length batch
          /\ total_segments (self w') = total_segments (self w)
          /\ progress (self w')
             = (progress (self w) + Z.of_nat (length (video_paths rs)))%Z)
  /\ (forall subdirs batch_size starts,
        py_range0 (Z.of_nat (length subdirs)) batch_size = inr starts ->
        (0 < batch_size)%Z ->
        concat (batches_of starts subdirs batch_size) = subdirs)
  /\ (forall env starts subdirs batch_size cp settings j r j',
        run_batches env starts subdirs batch_size cp settings j = (r, j') ->
        (progress (self (fst j'))
         - Z.of_nat (length (temp_video_files (snd j')))
         = progress (self (fst j))
           - Z.of_nat (length (temp_video_files (snd j))))%Z)
  /\ (forall w,
        reachable w ->
        (0 <= progress (self w) <= total_segments (self w))%Z).
Proof.
  repeat match goal with |- _ /\ _ => split end.
  - intros env subdir temp_dir settings w.
    pose proof (_process_segment_counter env subdir temp_dir settings w) as H.
    destruct (_process_segment env subdir temp_dir settings w) as [r w'].
    exact H.
  - reflexivity.
  - apply gather_unfold.
  - intros env batch temp_dir settings w. apply gather_results.
  - intros subdirs batch_size starts. apply batches_cover.
  - intros env starts subdirs batch_size cp settings j r j' E.
    apply run_batches_invariants in E. tauto.
  - apply reachable_counter_in_range.
Qed.

(** ** The frames of a segment *)

Section FrameCount.

Variable env : Env.

(** The frame count is not negative. *)
Lemma total_frames_floor (seconds fps : Q) :
  (0 <= seconds)%Q -> (0 <= fps)%Q ->
  py_int (fmul seconds fps) = Qfloor (fl (seconds * fps))
  /\ (0 <= Qfloor (fl (seconds * fps)))%Z.
Proof.
  intros Hs Hf.
  assert (Hprod : (0 <= fl (seconds * fps))%Q).
  { apply fl_nonneg, Qmult_le_0_compat; assumption. }
  split; [ apply py_int_nonneg, Hprod | ].
  rewrite <- (Qfloor_Z 0). apply Qfloor_resp_le. exact Hprod.
Qed.

(** C5, as the code has it.  For a segment whose narration lasts
    [seconds] (at least 50 ms, as the loader demands) and a non-negative
    [fps]: the frame count the code computes is the floor of the
    binary64 product [seconds * fps], that is of the exact product
    rounded to the nearest binary64 number; when this is zero the
    segment raises the [ValueError] naming the segment, nothing else
    having changed but the clock; otherwise, when no cancellation is
    seen, the frames [0], [1], ... are rendered up to that count: when
    each of them can be computed there are exactly that many, and they
    are the frames of the clip written when the encoder succeeds; when
    one of them cannot, the segment raises.  At 20 frames per second,
    2.0 s give 40 frames and 3.0 s give 60. *)
Theorem frame_count_is_floor_of_binary64_product
    (subdir temp_dir cp : string)
    (settings : Settings.t) (image : Image) (seconds : Q) (w : World) :
  Settings.chapter_path settings = Some cp ->
  segment_on_disk w (join cp subdir) image seconds ->
  (5 # 100 <= seconds)%Q ->
  (0 <= Settings.fps settings)%Q ->
  let total := Qfloor (fl (seconds * Settings.fps settings)) in
  let temp_file := join temp_dir (temp_video_name env subdir) in
  let temp_audio_path :=
    join (dirname temp_file) (temp_audio_name env subdir (clock w)) in
  let w1 := set_clock (clock w + 1)%N w in
  py_int (fmul seconds (Settings.fps settings)) = total
  /\ (total = 0%Z ->
      _process_segment env subdir temp_dir settings w
      = (inl (ValueError
           ("Calculated total frames is 0, video duration too short. Subdir: "
              +:+ subdir)), w1))
  /\ (total <> 0%Z ->
      stop_flag (self w) = false ->
      (forall j, cancel_requested env (BeforeFrame subdir j) = false) ->
      (forall frames,
         frame_sequence env (Z.to_nat total) 0 image seconds settings subdir
         = inr frames ->
         Z.of_nat (length frames) = total
         /\ (forall size,
               encode env w1 frames temp_file temp_audio_path settings
               = Encoded size ->
               exists w',
                 _process_segment env subdir temp_dir settings w
                 = (inr (temp_file, temp_audio_path), w')
                 /\ files w' !! temp_file
                    = Some {| st_size := size;
                              payload := VideoData frames
                                           (Settings.fps settings) |})
         /\ (forall e debris,
               encode env w1 frames temp_file temp_audio_path settings
               = EncodeFailed e debris ->
               fst (_process_segment env subdir temp_dir settings w) = inl e))
      /\ (forall e,
            frame_sequence env (Z.to_nat total) 0 image seconds settings
              subdir = inl e ->
            _process_segment env subdir temp_dir settings w = (inl e, w1)))
  /\ py_int (fmul 2 20) = 40%Z /\ py_int (fmul 3 20) = 60%Z.
Proof.
  intros Hcp Hdisk Hd Hfps total temp_file temp_audio_path w1.
  destruct (total_frames_floor seconds (Settings.fps settings))
    as [Hint Htotal]; [ lra | exact Hfps | ].
  fold total in Hint, Htotal.
  pose proof (_process_segment_loaded env subdir temp_dir cp settings image
                seconds w Hcp Hdisk Hd) as Hseg.
  cbv zeta in Hseg. fold temp_file temp_audio_path w1 in Hseg.
  rewrite Hint in Hseg.
  split; [ exact Hint | ].
  split; [ | split; [ | split; reflexivity ] ].
  - intros Hz. rewrite Hseg, Hz. reflexivity.
  - intros Hnz Hflag Hquiet.
    destruct (Z.eqb_spec total 0) as [ | _ ]; [ contradiction | ].
    unfold render_and_encode in Hseg. rewrite Hint in Hseg.
    unfold bind at 1 in Hseg.
    rewrite render_frames_quiet in Hseg by assumption.
    split.
    + intros frames Efs. rewrite Efs in Hseg. cbn [rbind app] in Hseg.
      split; [ rewrite (frame_sequence_length _ _ _ _ _ _ _ _ Efs); lia | ].
      split.
      * intros size Henc.
        rewrite (encode_and_count_ok env frames _ temp_file temp_audio_path
                   settings size w1) in Hseg;
          [ | apply temp_names_differ | exact Henc ].
        eexists. split; [ exact Hseg | ].
        cbn [files set_self set_files].
        rewrite lookup_delete_ne by apply temp_names_differ.
        apply lookup_insert_eq.
      * intros e debris Henc.
        destruct (encode_and_count_failed env frames
                    {| filename := join (join cp subdir) "audio.mp3";
                       duration := Some seconds |}
                    temp_file temp_audio_path settings e debris w1 Henc)
          as (w' & E & _).
        rewrite E in Hseg. rewrite Hseg. reflexivity.
    + intros e Efs. rewrite Efs in Hseg. exact Hseg.
Qed.

End FrameCount.

(** ** Progress snapshots *)


(** ** Cancellation *)


#[local] Instance same_flag_preorder : PreOrder same_flag.
Proof.
  split.
  - intros w. reflexivity.
  - intros w1 w2 w3 H1 H2. unfold same_flag in *. congruence.
Qed.

Section FlagUntouched.

Variable env : Env.

Lemma write_file_same_flag (path : string) (f : File) :
  preserves same_flag (write_file path f).
Proof. intros w. reflexivity. Qed.

Lemma delete_file_same_flag (path : string) :
  preserves same_flag (modify (set_files (delete path))).
Proof. intros w. reflexivity. Qed.

Lemma os_remove_same_flag (path : string) :
  preserves same_flag (os_remove env path).
Proof. intros w. unfold os_remove. repeat case_match; reflexivity. Qed.

Lemma os_replace_same_flag (src dst : string) :
  preserves same_flag (os_replace src dst).
Proof. intros w. unfold os_replace. case_match; reflexivity. Qed.

Hint Resolve write_file_same_flag delete_file_same_flag os_remove_same_flag
  os_replace_same_flag : pres.

Lemma _merge_videos_same_flag (temp_files : list string)
    (output_path : string) (settings : Settings.t) :
  preserves same_flag (_merge_videos env temp_files output_path settings).
Proof.
  unfold _merge_videos, run_concat, remove_if_exists.
  destruct (splitext output_path) as [root ext]. pres.
Qed.

Lemma _cleanup_temp_files_same_flag (paths : list string) :
  preserves same_flag (_cleanup_temp_files env paths).
Proof.
  induction paths as [ | path paths IH]; cbn [_cleanup_temp_files]; pres.
  apply remove_with_retries_preserves;
    [ typeclasses eauto | intros w c; hnf; simpl; auto | ].
  apply os_remove_same_flag.
Qed.

End FlagUntouched.

Section Truncation.

Variable env : Env.

(** The loop adds at most [n] frames, and fewer only with the flag
    set. *)
Lemma render_frames_count (subdir : string) (image : Image) (duration : Q)
    (settings : Settings.t) :
  forall n i frames w fs w',
    render_frames env n i frames image duration settings subdir w
    = (inr fs, w') ->
    (length fs <= length frames + n)%nat
    /\ ((length fs < length frames + n)%nat ->
        stop_flag (self w') = true).
Proof.
  induction n as [ | n IH]; intros i frames w fs w' E.
  - injection E as <- <-. split; lia.
  - cbn [render_frames] in E. unfold bind at 1 in E.
    destruct (interference env (BeforeFrame subdir i) w) as [r w1] eqn:Ei.
    assert (Hr : r = inr tt).
    { unfold interference in Ei. destruct (cancel_requested env _);
        simpl in Ei; now injection Ei as <- _. }
    subst r. unfold bind at 1 in E. unfold is_set at 1 in E.
    destruct (stop_flag (self w1)) eqn:Hflag.
    + injection E as <- <-. split; [ lia | auto ].
    + unfold bind at 1, lift at 1 in E.
      destruct (fdiv _ _) as [e | t]; [ discriminate | ].
      unfold bind at 1, lift at 1 in E.
      destruct (_apply_effects _ _ _ _ _ _) as [e | f]; [ discriminate | ].
      apply IH in E. rewrite length_app in E. simpl in E.
      destruct E as [E1 E2]. split; [ lia | ].
      intros H. apply E2. lia.
Qed.

(** Whatever frames the loop has returned are encoded: when the encoder
    accepts them the segment returns its two paths, the clip on disk
    holds exactly those frames, and the counter has moved by one. *)
Lemma _process_segment_encodes (subdir temp_dir cp : string)
    (settings : Settings.t) (image : Image) (seconds : Q) (w w2 : World)
    (frames : list Image) (size : Z) :
  Settings.chapter_path settings = Some cp ->
  segment_on_disk w (join cp subdir) image seconds ->
  (5 # 100 <= seconds)%Q ->
  let total := py_int (fmul seconds (Settings.fps settings)) in
  let temp_file := join temp_dir (temp_video_name env subdir) in
  let temp_audio_path :=
    join (dirname temp_file) (temp_audio_name env subdir (clock w)) in
  total <> 0%Z ->
  render_frames env (Z.to_nat total) 0 [] image seconds settings subdir
    (set_clock (clock w + 1)%N w) = (inr frames, w2) ->
  encode env w2 frames temp_file temp_audio_path settings = Encoded size ->
  exists w',
    _process_segment env subdir temp_dir settings w
    = (inr (temp_file, temp_audio_path), w')
    /\ files w' !! temp_file
       = Some {| st_size := size;
                 payload := VideoData frames (Settings.fps settings) |}
    /\ progress (self w') = (progress (self w2) + 1)%Z
    /\ stop_flag (self w') = stop_flag (self w2).
Proof.
  intros Hcp Hdisk Hd total temp_file temp_audio_path Hnz Er Henc.
  rewrite (_process_segment_loaded env subdir temp_dir cp settings image
             seconds w Hcp Hdisk Hd).
  fold total temp_file temp_audio_path.
  destruct (Z.eqb_spec total 0) as [ | _ ]; [ contradiction | ].
  unfold render_and_encode. fold total. unfold bind at 1. rewrite Er.
  rewrite (encode_and_count_ok env frames _ temp_file temp_audio_path
             settings size w2);
    [ | apply temp_names_differ | exact Henc ].
  eexists. split; [ reflexivity | ].
  cbn [files set_self set_files self progress set_progress stop_flag].
  rewrite lookup_delete_ne by apply temp_names_differ.
  rewrite lookup_insert_eq. auto.
Qed.

(** A batch one of whose segments ends with the flag set raises the
    cancellation error at the check after it. *)
Lemma run_batches_flag_set (i : Z) (later : list Z) (subdirs : list string)
    (batch_size : Z) (cp : string) (settings : Settings.t) (j : Job)
    (l1 l2 : list string) :
  slice subdirs i (i + batch_size) = l1 ++ l2 ->
  stop_flag (self (snd (gather env l1 cp settings (fst j)))) = true ->
  fst (run_batches env (i :: later) subdirs batch_size cp settings j)
  = inl cancellation_error.
Proof.
  intros Hsplit Hflag.
  destruct (run_batches_step env i later subdirs batch_size cp settings j)
    as (rs & w1 & Eg & _ & Estep).
  rewrite Estep. cbv zeta.
  assert (Hw1 : stop_flag (self w1) = true).
  { pose proof (gather_app env cp settings l1 l2 (fst j)) as Happ.
    rewrite <- Hsplit, Eg in Happ. cbn [snd] in Happ. rewrite Happ.
    apply (gather_preserves env flag_kept cp settings
             (fun s => _process_segment_flag_kept env s cp settings) l2).
    exact Hflag. }
  rewrite (interference_flag_kept env (BeforeBatchCheck i) w1 Hw1).
  reflexivity.
Qed.


End Truncation.

Section CancelledAtStart.

Variable env : Env.

Hypothesis encoder_rejects_empty : rejects_empty_clips env.

(** With the flag set from the start a segment renders nothing, fails,
    and leaves the disk as it is. *)
Lemma _process_segment_stopped (subdir temp_dir : string)
    (settings : Settings.t) (w : World) :
  stop_flag (self w) = true ->
  exists e w',
    _process_segment env subdir temp_dir settings w = (inl e, w')
    /\ files w' = files w /\ stop_flag (self w') = true.
Proof.
  intros Hflag. unfold _process_segment.
  unfold bind at 1. unfold time_ns at 1.
  set (w1 := set_clock (clock w + 1)%N w).
  unfold bind at 1, lift at 1.
  destruct (Settings.chapter_path settings) as [cp | ];
    [ | eexists _, _; split;
        [ reflexivity | split; [ reflexivity | exact Hflag ] ] ].
  unfold bind at 1.
  pose proof (_load_resources_preserves same_disk (join cp subdir)
                (Settings.resolution settings) w1) as Ld.
  pose proof (_load_resources_preserves flag_kept (join cp subdir)
                (Settings.resolution settings) w1) as Lf.
  destruct (_load_resources _ _ w1) as [[e | [image audio]] w2];
    cbn [snd] in Ld, Lf;
    [ eexists _, _; split;
        [ reflexivity | split; [ exact Ld | exact (Lf Hflag) ] ] | ].
  unfold bind at 1, lift at 1.
  destruct (duration audio) as [d | ];
    [ | eexists _, _; split;
        [ reflexivity | split; [ exact Ld | exact (Lf Hflag) ] ] ].
  destruct (py_int (fmul d (Settings.fps settings)) =? 0)%Z;
    [ eexists _, _; split;
        [ reflexivity | split; [ exact Ld | exact (Lf Hflag) ] ] | ].
  unfold bind at 1.
  pose proof (render_frames_stopped env subdir image d settings w2
                (Lf Hflag)
                (Z.to_nat (py_int (fmul d (Settings.fps settings)))) 0 [])
    as Rr.
  pose proof (render_frames_preserves env same_disk subdir
                (interference_same_disk env)
                (Z.to_nat (py_int (fmul d (Settings.fps settings)))) 0 []
                image d settings w2) as Rd.
  pose proof (render_frames_preserves env flag_kept subdir
                (interference_flag_kept env)
                (Z.to_nat (py_int (fmul d (Settings.fps settings)))) 0 []
                image d settings w2) as Rf.
  destruct (render_frames env _ 0 [] image d settings subdir w2)
    as [r w3]. cbn [fst snd] in Rr, Rd, Rf. subst r.
  unfold bind at 1. unfold _write_temp_video.
  unfold bind at 1. unfold get at 1. unfold encode.
  destruct (encoder_rejects_empty
              (join temp_dir (temp_video_name env subdir))
              (join (dirname (join temp_dir (temp_video_name env subdir)))
                    (temp_audio_name env subdir (clock w)))
              (Settings.fps settings)
              (video_ffmpeg_params settings (cuda_available (self w3)))
              (Settings.threads settings)) as [e Ee].
  rewrite Ee. eexists _, _. split; [ reflexivity | ].
  split; [ transitivity (files w2); [ exact Rd | exact Ld ]
         | exact (Rf (Lf Hflag)) ].
Qed.

Lemma gather_stopped (temp_dir : string) (settings : Settings.t) :
  forall batch w,
    stop_flag (self w) = true ->
    exists rs w',
      gather env batch temp_dir settings w = (inr rs, w')
      /\ video_paths rs = [] /\ temp_paths rs = []
      /\ files w' = files w /\ stop_flag (self w') = true.
Proof.
  induction batch as [ | subdir rest IH]; intros w Hflag; cbn [gather].
  - eexists _, _. repeat split; auto.
  - unfold bind at 1. unfold catch at 1.
    destruct (_process_segment_stopped subdir temp_dir settings w Hflag)
      as (e & w1 & E & Hd & Hf).
    rewrite E. unfold bind at 1.
    destruct (IH w1 Hf) as (rs & w2 & E2 & Hv & Ht & Hd2 & Hf2).
    rewrite E2. eexists _, _. split; [ reflexivity | ].
    unfold video_paths, temp_paths in *. simpl.
    repeat split; try assumption. congruence.
Qed.

(** A job whose flag is set right after the initial reset. *)
Lemma generate_video_cancelled_at_start (chapter_path : string)
    (video_settings : option Overrides.t) (w : World)
    (subdirs : list string) :
  let cp := abspath env chapter_path in
  let settings := snd (fst (fst (job_context env chapter_path
                                   video_settings w))) in
  let w0 := snd (job_context env chapter_path video_settings w) in
  cancel_requested env AfterClear = true ->
  fst (list_segments cp w0) = inr subdirs -> subdirs <> [] ->
  (0 < Settings.batch_size settings)%Z ->
  fst (generate_video env chapter_path video_settings w)
  = inl cancellation_error
  /\ files (snd (generate_video env chapter_path video_settings w))
     = files w.
Proof.
  intros cp settings w0 Hreq Hlist Hne Hbs.
  pose proof (job_context_facts env chapter_path video_settings w) as Hctx.
  pose proof (generate_video_unfold env chapter_path video_settings w)
    as Hgen.
  assert (Hflag0 : stop_flag (self w0) = true).
  { subst w0. unfold job_context, interference. cbv zeta. rewrite Hreq.
    reflexivity. }
  subst settings w0.
  destruct (job_context env chapter_path video_settings w)
    as [[[cp' settings] out] w0] eqn:Ectx.
  destruct Hctx as (-> & -> & _ & Hfiles & _). fold cp in Hgen, Hlist |- *.
  cbn [fst snd] in *.
  rewrite generate_video_body_stages in Hgen. cbn [fst snd] in Hgen.
  rewrite Hlist in Hgen.
  destruct subdirs as [ | s subdirs]; [ contradiction | ].
  cbv zeta in Hgen.
  set (subs := s :: subdirs) in *.
  set (len := Z.of_nat (length subs)) in *.
  assert (Hlen : (0 < len)%Z) by (subst len subs; simpl; lia).
  assert (Hstarts : exists later,
    py_range0 len (Settings.batch_size settings) = inr (0%Z :: later)).
  { unfold py_range0.
    destruct (Z.eqb_spec (Settings.batch_size settings) 0); [ lia | ].
    destruct (Z.ltb_spec (Settings.batch_size settings) 0); [ lia | ].
    assert (Hc : (0 < (len + Settings.batch_size settings - 1)
                      / Settings.batch_size settings)%Z).
    { apply Z.div_str_pos. lia. }
    rewrite seqZ_cons by exact Hc. rewrite fmap_cons. eexists.
    reflexivity. }
  destruct Hstarts as [later Hr]. rewrite Hr in Hgen.
  set (w2 := snd (start_job subs cp w0)) in *.
  destruct (run_batches_step env 0 later subs (Settings.batch_size settings)
              cp settings (w2, no_locals))
    as (rs & w3 & Eg & _ & Estep).
  destruct (gather_stopped cp settings
              (slice subs 0 (0 + Settings.batch_size settings)) w2)
    as (rs' & w3' & Eg' & Hv & Ht & Hd & Hf).
  { subst w2. simpl. exact Hflag0. }
  cbn [fst] in Eg. rewrite Eg in Eg'. injection Eg' as <- <-.
  rewrite Estep in Hgen. cbv zeta in Hgen.
  rewrite (interference_flag_kept env (BeforeBatchCheck 0) w3 Hf) in Hgen.
  cbn [snd no_locals all_temp_files temp_video_files] in Hgen.
  rewrite Hv, Ht in Hgen. cbn [app fst] in Hgen.
  rewrite Hgen. cbn [fst snd]. split; [ reflexivity | ].
  rewrite (interference_same_disk env (BeforeBatchCheck 0) w3).
  rewrite Hd. subst w2. simpl. exact Hfiles.
Qed.

End CancelledAtStart.


(** ** Runs of the theorems on the demo chapter *)

Lemma fade_effect_multiplier_witness :
  ImageEffects.fade_effect demo_picture (1 # 4) 10 demo_no_fade = demo_picture
  /\ ImageEffects.fade_effect demo_picture (1 # 4) 10 demo_still
     = Enhanced demo_picture ((1 # 4) / 1)
  /\ ImageEffects.fade_effect demo_picture (39 # 4) 10 demo_still
     = Enhanced demo_picture ((10 - (39 # 4)) / 1)
  /\ ImageEffects.fade_effect demo_picture 5 10 demo_still = demo_picture
  /\ ImageEffects.fade_effect demo_picture (10 / 2) 10 demo_still
     = demo_picture.
Proof.
  pose proof (fade_effect_multiplier demo_picture (1 # 4) 10 demo_no_fade)
    as (H0 & _).
  pose proof (fade_effect_multiplier demo_picture (1 # 4) 10 demo_still)
    as (_ & H1 & _).
  pose proof (fade_effect_multiplier demo_picture (39 # 4) 10 demo_still)
    as (_ & _ & H2 & _).
  pose proof (fade_effect_multiplier demo_picture 5 10 demo_still)
    as (_ & _ & _ & H3 & _).
  pose proof (fade_effect_multiplier demo_picture 0 10 demo_still)
    as (_ & _ & _ & _ & _ & H5).
  split; [ apply H0; vm_compute; discriminate | ].
  split; [ apply H1; reflexivity | ].
  split; [ apply H2;
           [ reflexivity | vm_compute; discriminate | reflexivity ] | ].
  split; [ apply H3; [ reflexivity | vm_compute; discriminate
                     | vm_compute; discriminate ] | ].
  apply H5; reflexivity.
Defined.

Lemma demo_cos_value (x y : Q) : (x == y)%Q -> (Demo.cos x == Demo.cos y)%Q.
Proof.
  intros E. unfold Demo.cos.
  match goal with
  | |- (fl ?a == fl ?b)%Q => rewrite (fl_comp a b); [ reflexivity | ]
  end.
  rewrite E. reflexivity.
Qed.

Lemma pan_effect_axis_scale_offset_witness :
  ImageEffects.pan_effect Demo.cos Demo.pi demo_picture 0 2 demo_moving
  = inr (Cropped (Resized demo_picture 960 720) 0 180 640 540)
  /\ ImageEffects.pan_effect Demo.cos Demo.pi demo_picture 2 2 demo_moving
     = inr (Cropped (Resized demo_picture 960 720) 320 180 960 540).
Proof.
  assert (C0 : (Demo.cos 0 == 1)%Q) by reflexivity.
  assert (Cpi : (Demo.cos Demo.pi == -1)%Q) by reflexivity.
  assert (P64 : (fl Demo.pi == Demo.pi)%Q) by reflexivity.
  split.
  - destruct (pan_effect_axis_scale_offset Demo.cos Demo.pi demo_cos_value
                C0 Cpi P64 demo_picture 0 2 demo_moving 640 360 (1 # 2)
                (1 # 2))
      as (hor & scale & nw & nh & x & y & Hax & _ & _ & Hs & _ & Hnw & Hnh
          & E & Hh & _);
      [ reflexivity | reflexivity | left; reflexivity | reflexivity
      | reflexivity | discriminate | discriminate | discriminate | ].
    assert (Hhor : hor = true) by (apply Hax; reflexivity).
    destruct (Hs Hhor) as (_ & _ & Hscale & _).
    destruct (Hh Hhor) as (_ & Hy & Hx0 & _).
    rewrite Hscale in Hnw, Hnh. vm_compute in Hnw, Hnh. subst nw nh.
    rewrite (Hx0 ltac:(reflexivity)) in E. rewrite Hy in E.
    apply E; reflexivity.
  - destruct (pan_effect_axis_scale_offset Demo.cos Demo.pi demo_cos_value
                C0 Cpi P64 demo_picture 2 2 demo_moving 640 360 (1 # 2)
                (1 # 2))
      as (hor & scale & nw & nh & x & y & Hax & _ & _ & Hs & _ & Hnw & Hnh
          & E & Hh & _);
      [ reflexivity | reflexivity | left; reflexivity | reflexivity
      | reflexivity | discriminate | discriminate | discriminate | ].
    assert (Hhor : hor = true) by (apply Hax; reflexivity).
    destruct (Hs Hhor) as (_ & _ & Hscale & _).
    destruct (Hh Hhor) as (_ & Hy & _ & Hx1).
    rewrite Hscale in Hnw, Hnh. vm_compute in Hnw, Hnh. subst nw nh.
    rewrite (Hx1 ltac:(reflexivity) ltac:(reflexivity)) in E.
    rewrite Hy in E. apply E; reflexivity.
Defined.

Lemma demo_segment_one :
  segment_on_disk Demo.world (join Demo.chapter "1") demo_picture 2.
Proof.
  exists (Demo.picture "one"), (Demo.narration 2).
  repeat split; try reflexivity; vm_compute; discriminate.
Qed.

Lemma frame_count_is_floor_of_binary64_product_witness :
  py_int (fmul 2 20) = Qfloor (fl (2 * 20))
  /\ exists frames,
       frame_sequence Demo.quiet 40 0 demo_picture 2
         Demo.default_job_settings "1" = inr frames
       /\ Z.of_nat (length frames) = 40%Z.
Proof.
  destruct (frame_count_is_floor_of_binary64_product Demo.quiet "1"
              Demo.chapter Demo.chapter Demo.default_job_settings
              demo_picture 2 Demo.world)
    as (Hcount & _ & Hframes & _);
    [ reflexivity | exact demo_segment_one | vm_compute; discriminate
    | vm_compute; discriminate | ].
  split; [ exact Hcount | ].
  destruct Hframes as (Hseq & _);
    [ vm_compute; discriminate | reflexivity | reflexivity | ].
  destruct (frame_sequence Demo.quiet 40 0 demo_picture 2
              Demo.default_job_settings "1") as [e | frames] eqn:E.
  - vm_compute in E. discriminate E.
  - exists frames. split; [ reflexivity | ].
    exact (proj1 (Hseq frames E)).
Defined.

Lemma generate_video_all_or_nothing_witness :
  fst (generate_video Demo.quiet Demo.chapter (Some Demo.slow)
         Demo.broken_world)
  = inl partial_failure_error
  /\ files (snd (generate_video Demo.quiet Demo.chapter (Some Demo.slow)
                   Demo.broken_world)) !! "/projects/demo/ch1/video.mp4"
     = Some Demo.old_video.
Proof.
  destruct (generate_video_all_or_nothing Demo.quiet Demo.chapter
              (Some Demo.slow) Demo.broken_world) as [_ H].
  set (settings := snd (fst (fst (job_context Demo.quiet Demo.chapter
                                    (Some Demo.slow) Demo.broken_world)))) in *.
  set (w0 := snd (job_context Demo.quiet Demo.chapter (Some Demo.slow)
                    Demo.broken_world)) in *.
  set (j3 := snd (run_batches Demo.quiet [0%Z] ["1"; "2"]
                    (Settings.batch_size settings) Demo.chapter settings
                    (snd (start_job ["1"; "2"] Demo.chapter w0), no_locals))).
  destruct (H ["1"; "2"] [0%Z] j3) as [Hr Hf].
  - vm_compute. reflexivity.
  - discriminate.
  - vm_compute. reflexivity.
  - vm_compute. reflexivity.
  - vm_compute. discriminate.
  - split; [ exact Hr | ].
    etransitivity; [ exact Hf | vm_compute; reflexivity ].
Defined.

Lemma completed_never_exceeds_total_without_overlap_witness :
  (0 <= progress (self (snd (generate_video Demo.quiet Demo.chapter
                               (Some Demo.slow) Demo.world)))
   <= total_segments (self (snd (generate_video Demo.quiet Demo.chapter
                                   (Some Demo.slow) Demo.world))))%Z
  /\ concat (batches_of [0; 2]%Z ["1"; "2"; "3"] 2) = ["1"; "2"; "3"].
Proof.
  destruct completed_never_exceeds_total_without_overlap
    as (_ & _ & _ & _ & Hbatches & _ & Hreach).
  split.
  - apply Hreach. apply reach_job_done.
    apply (reach_init Demo.quiet Demo.disk Demo.tree 1700000000000000000%N).
  - apply Hbatches; [ reflexivity | reflexivity ].
Defined.


Lemma demo_segment_two :
  segment_on_disk Demo.world (join Demo.chapter "2")
    (Bitmap 1600 1200 "two") 3.
Proof.
  exists (Demo.picture "two"), (Demo.narration 3).
  repeat split; try reflexivity; vm_compute; discriminate.
Qed.


Lemma demo_encoder_rejects_empty : rejects_empty_clips Demo.stop_after_reset.
Proof. intros out tmp fps params threads. eexists. reflexivity. Qed.


(** ** Where the code departs from the specification *)


(** C2.  Another process holds [concat.txt] open while the job merges.
    [ffmpeg] succeeds and the temp output is renamed over [video.mp4];
    then [os.remove(concat_list)], unguarded in the [finally] block of
    [_merge_videos], raises.  The job fails, and the [video.mp4] of the
    earlier run has been replaced by the new merge. *)
Theorem failed_job_replaces_the_video :
  let run := generate_video Demo.locked_list Demo.chapter (Some Demo.slow)
               Demo.world in
  fst run = inl (PermissionError "[WinError 32] concat.txt")
  /\ files Demo.world !! "/projects/demo/ch1/video.mp4"
     = Some Demo.old_video
  /\ files (snd run) !! "/projects/demo/ch1/video.mp4"
     = Some {| st_size := 65536;
               payload :=
                 MergedVideo ["file '/projects/demo/ch1/vid_1_4242.mp4'";
                              "file '/projects/demo/ch1/vid_2_4242.mp4'"] |}
  /\ is_Some (files (snd run) !! "/projects/demo/ch1/concat.txt").
Proof.
  cbv zeta. split; [ vm_compute; reflexivity | ].
  split; [ vm_compute; reflexivity | ].
  split; [ vm_compute; reflexivity | ].
  vm_compute. eexists. reflexivity.
Qed.


(** C4.  The clip name of a segment holds the segment id and the process
    id, and no time token: two runs of segment 1 in one process, at
    different times, use the same clip path; their temp audio paths
    differ. *)
Theorem temp_video_names_collide :
  let later := set_clock (clock Demo.world + 1000)%N Demo.world in
  fst (_process_segment Demo.quiet "1" Demo.chapter Demo.slow_settings
         Demo.world)
  = inr ("/projects/demo/ch1/vid_1_4242.mp4",
         "/projects/demo/ch1/temp_audio_1_4242_1700000000000000000.m4a")
  /\ fst (_process_segment Demo.quiet "1" Demo.chapter Demo.slow_settings
            later)
     = inr ("/projects/demo/ch1/vid_1_4242.mp4",
            "/projects/demo/ch1/temp_audio_1_4242_1700000000000001000.m4a")
  /\ temp_video_name Demo.quiet "1" = "vid_1_4242.mp4".
Proof. cbv zeta. repeat split; vm_compute; reflexivity. Qed.

(** C5, as stated, fails.  Segment 1 is narrated for 0.3 s (the
    binary64 number nearest to 0.3, which lies below it) and rendered at
    the default 20 frames per second.  [floor(D * fps)] is 5; the
    product the code computes rounds up to 6.0, and the clip of the
    segment has six frames.  In the other direction, a narration of
    1.16 s at 25 frames per second gets 28 frames, one less than
    [floor(1.16 * 25) = 29]. *)
Lemma short_narration_gets_a_sixth_frame :
  let seconds := fl (3 # 10) in
  let run := _process_segment Demo.quiet "1" Demo.chapter
               Demo.default_job_settings Demo.short_world in
  Settings.fps Demo.default_job_settings = 20%Q
  /\ Qfloor (seconds * 20) = 5%Z
  /\ py_int (fmul seconds 20) = 6%Z
  /\ fst run
     = inr ("/projects/demo/ch1/vid_1_4242.mp4",
            "/projects/demo/ch1/temp_audio_1_4242_1700000000000000000.m4a")
  /\ (exists frames size,
        files (snd run) !! "/projects/demo/ch1/vid_1_4242.mp4"
        = Some {| st_size := size; payload := VideoData frames 20 |}
        /\ length frames = 6%nat)
  /\ Qfloor ((116 # 100) * 25) = 29%Z
  /\ py_int (fmul (fl (116 # 100)) 25) = 28%Z.
Proof.
  cbv zeta. do 4 (split; [ vm_compute; reflexivity | ]).
  split; [ | split; vm_compute; reflexivity ].
  eexists _, _. split; [ vm_compute; reflexivity | reflexivity ].
Qed.

(** C9, as stated, fails.  A job on chapter 1 (two segments) has
    initialised its progress when a second call of [generate_video], for
    chapter 2 (one segment), starts on the same service object and sets
    the total to 1.  The first job then renders its two segments: the
    counter is 2, the total 1, and [get_progress] reports 200 percent. *)
Lemma overlapping_jobs_exceed_total :
  let w1 := snd (begin_job Demo.quiet Demo.chapter (Some Demo.slow)
                   Demo.two_chapters) in
  let w2 := snd (begin_job Demo.quiet Demo.chapter2 (Some Demo.slow) w1) in
  let w3 := snd (gather Demo.quiet ["1"; "2"] Demo.chapter
                   Demo.slow_settings w2) in
  fst (begin_job Demo.quiet Demo.chapter (Some Demo.slow) Demo.two_chapters)
  = inr ["1"; "2"]
  /\ (progress (self w1), total_segments (self w1)) = (0, 2)%Z
  /\ fst (begin_job Demo.quiet Demo.chapter2 (Some Demo.slow) w1)
     = inr ["1"]
  /\ (progress (self w2), total_segments (self w2)) = (0, 1)%Z
  /\ (progress (self w3), total_segments (self w3)) = (2, 1)%Z
  /\ fst (get_progress w3)
     = inr {| Progress.progress := 2; Progress.total := 1;
              Progress.percentage := 200;
              Progress.current_task := Some "ch2" |}.
Proof. cbv zeta. repeat split; vm_compute; reflexivity. Qed.

(** * Further properties of the effects *)

Lemma py_int_upper (z : Z) (q : Q) :
  (0 <= q)%Q -> (q <= inject_Z z)%Q -> (py_int q <= z)%Z.
Proof.
  intros Hq H. rewrite py_int_nonneg by exact Hq.
  rewrite <- (Qfloor_Z z). apply Qfloor_resp_le, H.
Qed.

Lemma fade_effect_cases (image : Image) (time_val duration : Q)
    (params : Params.t) :
  ImageEffects.fade_effect image time_val duration params = image
  \/ exists b,
       ImageEffects.fade_effect image time_val duration params
       = Enhanced image b.
Proof.
  unfold ImageEffects.fade_effect.
  destruct (Qleb _ 0); [ now left | ].
  match goal with |- context [Qltb ?b 1] => destruct (Qltb b 1) end;
    [ right; eexists; reflexivity | now left ].
Qed.

Lemma fade_effect_size (image : Image) (time_val duration : Q)
    (params : Params.t) :
  width (ImageEffects.fade_effect image time_val duration params)
  = width image
  /\ height (ImageEffects.fade_effect image time_val duration params)
     = height image.
Proof.
  destruct (fade_effect_cases image time_val duration params) as [E | [b E]];
    rewrite E; split; reflexivity.
Qed.

(** X1. [fade_effect] never changes the size of the picture, and for a
    time inside the clip ([0 <= time_val <= duration]) it returns the
    picture either untouched or darkened by a factor [b] with
    [0 <= b < 1]: it never brightens, and the factor is never negative. *)
Theorem fade_effect_brightness_range (image : Image)
    (time_val duration : Q) (params : Params.t) :
  (width (ImageEffects.fade_effect image time_val duration params)
   = width image
   /\ height (ImageEffects.fade_effect image time_val duration params)
      = height image)
  /\ ((0 <= time_val)%Q -> (time_val <= duration)%Q ->
      ImageEffects.fade_effect image time_val duration params = image
      \/ exists b,
           ImageEffects.fade_effect image time_val duration params
           = Enhanced image b
           /\ (0 <= b)%Q /\ (b < 1)%Q).
Proof.
  split; [ apply fade_effect_size | ].
  intros H0 Hd. unfold ImageEffects.fade_effect.
  set (fd := default 0%Q (Params.fade_duration params)).
  destruct (Qleb fd 0) eqn:Efd; [ now left | ].
  apply Qleb_false in Efd.
  destruct (Qltb time_val fd) eqn:Et.
  - destruct (Qltb (time_val / fd) 1) eqn:Eb; [ | now left ].
    right. eexists. split; [ reflexivity | ].
    apply Qltb_true in Eb. split; [ | exact Eb ].
    apply Qle_shift_div_l; lra.
  - destruct (Qltb (duration - time_val) fd) eqn:Eo.
    + destruct (Qltb ((duration - time_val) / fd) 1) eqn:Eb; [ | now left ].
      right. eexists. split; [ reflexivity | ].
      apply Qltb_true in Eb. split; [ | exact Eb ].
      apply Qle_shift_div_l; lra.
    + left. reflexivity.
Qed.

Lemma fade_effect_brightness_range_witness :
  ImageEffects.fade_effect demo_picture (39 # 4) 10 demo_still = demo_picture
  \/ exists b,
       ImageEffects.fade_effect demo_picture (39 # 4) 10 demo_still
       = Enhanced demo_picture b
       /\ (0 <= b)%Q /\ (b < 1)%Q.
Proof.
  apply (fade_effect_brightness_range demo_picture (39 # 4) 10 demo_still);
    vm_compute; discriminate.
Defined.

(** Whatever [pan_effect] returns has the output size. *)
Lemma crop_size (im out : Image) (l u r lo : Z) :
  crop im l u r lo = inr out ->
  width out = (r - l)%Z /\ height out = (lo - u)%Z.
Proof.
  unfold crop. destruct (r <? l)%Z; [ discriminate | ].
  destruct (lo <? u)%Z; [ discriminate | ].
  intros [= <-]. split; reflexivity.
Qed.

Lemma pan_effect_size (cos : Q -> Q) (pi : Q) (image : Image)
    (time_val duration : Q) (params : Params.t) (out : Image) :
  ImageEffects.pan_effect cos pi image time_val duration params = inr out ->
  (width out, height out) = Params.output_size params.
Proof.
  unfold ImageEffects.pan_effect.
  destruct (Params.output_size params) as [ow oh].
  destruct (default _ (Params.pan_range params)) as [h v].
  cbv zeta.
  intros E.
  assert (Hc : exists im l u r lo,
    crop im l u r lo = inr out /\ (r - l = ow)%Z /\ (lo - u = oh)%Z).
  { repeat match type of E with
           | (if ?b then _ else _) = _ => destruct b
           | rbind ?r _ = _ => destruct r; cbn [rbind] in E; try discriminate
           | _ => cbv zeta in E
           end;
      (eexists _, _, _, _, _; split; [ exact E | split; lia ]). }
  destruct Hc as (im & l & u & r & lo & Hc & <- & <-).
  apply crop_size in Hc. destruct Hc as [-> ->]. reflexivity.
Qed.

(** X2. Every frame [apply_effects] returns with panning on (the
    default) has exactly the output size.  With panning off
    [apply_effects] cannot fail and the frame keeps the size of the
    source picture: the output size is not applied. *)
Theorem apply_effects_frame_size (cos : Q -> Q) (pi : Q) (image : Image)
    (time_val duration : Q) (params : Params.t) :
  (forall frame,
     ImageEffects.apply_effects cos pi image time_val duration params
     = inr frame ->
     Params.use_pan params <> Some false ->
     (width frame, height frame) = Params.output_size params)
  /\ (Params.use_pan params = Some false ->
      exists frame,
        ImageEffects.apply_effects cos pi image time_val duration params
        = inr frame
        /\ (width frame, height frame) = (width image, height image)).
Proof.
  unfold ImageEffects.apply_effects. split.
  - intros frame E Hpan.
    assert (Hon : default true (Params.use_pan params) = true).
    { destruct (Params.use_pan params) as [[ | ] | ];
        [ reflexivity | congruence | reflexivity ]. }
    rewrite Hon in E.
    destruct (ImageEffects.pan_effect cos pi image time_val duration params)
      as [e | panned] eqn:Ep; cbn [rbind] in E; [ discriminate | ].
    injection E as <-. apply pan_effect_size in Ep. rewrite <- Ep.
    destruct (fade_effect_size panned time_val duration params) as [-> ->].
    reflexivity.
  - intros ->. cbn [default from_option id rbind]. eexists.
    split; [ reflexivity | ].
    destruct (fade_effect_size image time_val duration params) as [-> ->].
    reflexivity.
Qed.

(** * Further properties of the service *)

(** ** Hardware detection *)


(** ** Loading a segment *)

Lemma exists_true (path : string) (f : File) (w : World) :
  files w !! path = Some f -> exists_ path w = (inr true, w).
Proof.
  intros H. unfold exists_. rewrite bool_decide_eq_true_2 by (rewrite H; eauto).
  reflexivity.
Qed.

Lemma exists_false (path : string) (w : World) :
  files w !! path = None -> exists_ path w = (inr false, w).
Proof.
  intros H. unfold exists_.
  rewrite bool_decide_eq_false_2 by (rewrite H; intros [x Hx]; discriminate).
  reflexivity.
Qed.

Lemma check_resource_missing (path : string) (w : World) :
  files w !! path = None ->
  check_resource path w
  = (inl (FileNotFoundError ("File not found: " +:+ path)), w).
Proof.
  intros H. unfold check_resource, bind. now rewrite exists_false.
Qed.

Lemma check_resource_small (path : string) (f : File) (w : World) :
  files w !! path = Some f -> (st_size f < 1024)%Z ->
  check_resource path w = (inl (ValueError ("File too small: " +:+ path)), w).
Proof.
  intros H Hs. unfold check_resource, bind.
  rewrite (exists_true _ f) by exact H.
  simpl. unfold getsize. rewrite H.
  destruct (Z.ltb_spec (st_size f) 1024); [ reflexivity | lia ].
Qed.

Lemma check_resource_inv (path : string) (w w' : World) :
  check_resource path w = (inr tt, w') ->
  exists f, files w !! path = Some f /\ (1024 <= st_size f)%Z.
Proof.
  destruct (files w !! path) as [f | ] eqn:E.
  - destruct (Z.ltb_spec (st_size f) 1024) as [Hs | Hs].
    + rewrite (check_resource_small _ f) by assumption. discriminate.
    + eauto.
  - rewrite check_resource_missing by exact E. discriminate.
Qed.

Lemma _load_resources_world (dir : string) (resolution : Z * Z) (w : World) :
  snd (_load_resources dir resolution w) = w.
Proof.
  symmetry. apply (_load_resources_preserves eq dir resolution w).
Qed.

Lemma _load_resources_inv (dir : string) (resolution : Z * Z)
    (image : Image) (audio : AudioFileClip) (w : World) :
  fst (_load_resources dir resolution w) = inr (image, audio) ->
  exists seconds,
    segment_on_disk w dir image seconds /\ (5 # 100 <= seconds)%Q
    /\ audio = {| filename := join dir "audio.mp3";
                  duration := Some seconds |}.
Proof.
  unfold _load_resources. unfold bind at 1.
  destruct (check_resource (join dir "image.png") w) as [[e | []] w1] eqn:Ei;
    [ discriminate | ].
  pose proof (check_resource_preserves eq (join dir "image.png") w) as Hw1.
  rewrite Ei in Hw1. simpl in Hw1. subst w1.
  apply check_resource_inv in Ei as (fi & Hi & Si).
  unfold bind at 1.
  destruct (check_resource (join dir "audio.mp3") w) as [[e | []] w1] eqn:Ea;
    [ discriminate | ].
  pose proof (check_resource_preserves eq (join dir "audio.mp3") w) as Hw1.
  rewrite Ea in Hw1. simpl in Hw1. subst w1.
  apply check_resource_inv in Ea as (fa & Ha & Sa).
  unfold bind at 1. unfold Image_open at 1. rewrite Hi.
  destruct fi as [si [ | img | | | | ]]; try discriminate.
  unfold bind at 1. unfold AudioFileClip_open at 1. rewrite Ha.
  destruct fa as [sa [ | | d | | | ]]; try discriminate.
  cbn [duration]. destruct d as [seconds | ]; [ | discriminate ].
  destruct (Qltb seconds (5 # 100)) eqn:Ed; [ discriminate | ].
  intros [= <- <-]. exists seconds.
  split; [ | split; [ apply Qltb_false, Ed | reflexivity ] ].
  eexists _, _. repeat split; eauto.
Qed.

(** X5. [_load_resources] returns a picture and a narration exactly
    when the segment directory holds an [image.png] and an [audio.mp3]
    of at least 1024 bytes each, the first a readable picture and the
    second an audio file of at least 50 ms; it then returns that
    picture and the narration with its duration.  It never changes the
    disk or the service, whether it returns or raises. *)
Theorem load_resources_succeeds_iff (dir : string) (resolution : Z * Z)
    (w : World) :
  snd (_load_resources dir resolution w) = w
  /\ forall image audio,
       fst (_load_resources dir resolution w) = inr (image, audio)
       <-> exists seconds,
             segment_on_disk w dir image seconds
             /\ (5 # 100 <= seconds)%Q
             /\ audio = {| filename := join dir "audio.mp3";
                           duration := Some seconds |}.
Proof.
  split; [ apply _load_resources_world | ].
  intros image audio. split; [ apply _load_resources_inv | ].
  intros (seconds & Hdisk & Hd & ->).
  now rewrite (_load_resources_ok dir resolution image seconds).
Qed.

(** X6. The order in which [_load_resources] rejects a segment: a
    missing picture, then an undersized picture, then a missing
    narration, then an undersized narration (an empty [audio.mp3] is
    reported as too small, before anything is decoded), and, once both
    files are decoded, a narration without duration or shorter than
    50 ms. *)
Theorem load_resources_errors (dir : string) (resolution : Z * Z)
    (w : World) :
  let image_path := join dir "image.png" in
  let audio_path := join dir "audio.mp3" in
  let r := fst (_load_resources dir resolution w) in
  (files w !! image_path = None ->
   r = inl (FileNotFoundError ("File not found: " +:+ image_path)))
  /\ (forall fi,
        files w !! image_path = Some fi -> (st_size fi < 1024)%Z ->
        r = inl (ValueError ("File too small: " +:+ image_path)))
  /\ (forall fi,
        files w !! image_path = Some fi -> (1024 <= st_size fi)%Z ->
        files w !! audio_path = None ->
        r = inl (FileNotFoundError ("File not found: " +:+ audio_path)))
  /\ (forall fi fa,
        files w !! image_path = Some fi -> (1024 <= st_size fi)%Z ->
        files w !! audio_path = Some fa -> (st_size fa < 1024)%Z ->
        r = inl (ValueError ("File too small: " +:+ audio_path)))
  /\ (forall fi fa image d,
        files w !! image_path = Some fi -> (1024 <= st_size fi)%Z ->
        files w !! audio_path = Some fa -> (1024 <= st_size fa)%Z ->
        payload fi = ImageData image -> payload fa = AudioData d ->
        (forall seconds, d = Some seconds -> (seconds < 5 # 100)%Q) ->
        r = inl (ValueError ("Audio file duration too short or invalid: "
                               +:+ audio_path))).
Proof.
  cbv zeta. unfold _load_resources. repeat split.
  - intros Hi. unfold bind at 1. now rewrite check_resource_missing.
  - intros fi Hi Si. unfold bind at 1.
    now rewrite (check_resource_small _ fi).
  - intros fi Hi Si Ha. unfold bind at 1.
    rewrite (check_resource_ok _ fi) by assumption.
    unfold bind at 1. now rewrite check_resource_missing.
  - intros fi fa Hi Si Ha Sa. unfold bind at 1.
    rewrite (check_resource_ok _ fi) by assumption.
    unfold bind at 1. now rewrite (check_resource_small _ fa).
  - intros fi fa image d Hi Si Ha Sa Pi Pa Hd. unfold bind at 1.
    rewrite (check_resource_ok _ fi) by assumption.
    unfold bind at 1. rewrite (check_resource_ok _ fa) by assumption.
    unfold bind at 1. unfold Image_open at 1. rewrite Hi.
    destruct fi as [si pi]. simpl in Pi. subst pi.
    unfold bind at 1. unfold AudioFileClip_open at 1. rewrite Ha.
    destruct fa as [sa pa]. simpl in Pa. subst pa. cbn [duration].
    destruct d as [seconds | ]; [ | reflexivity ].
    specialize (Hd seconds eq_refl). apply Qltb_true in Hd. now rewrite Hd.
Qed.

Lemma check_resource_files (path : string) (w1 w2 : World) :
  files w1 = files w2 ->
  fst (check_resource path w1) = fst (check_resource path w2).
Proof.
  intros H. destruct (files w2 !! path) as [f | ] eqn:E2;
    pose proof E2 as E1; rewrite <- H in E1.
  - destruct (Z.ltb_spec (st_size f) 1024) as [Hs | Hs].
    + now rewrite !(check_resource_small _ f) by assumption.
    + now rewrite !(check_resource_ok _ f) by assumption.
  - now rewrite !check_resource_missing by assumption.
Qed.

(** What [_load_resources] returns depends on the disk only. *)
Lemma _load_resources_files (dir : string) (resolution : Z * Z)
    (w1 w2 : World) :
  files w1 = files w2 ->
  fst (_load_resources dir resolution w1)
  = fst (_load_resources dir resolution w2).
Proof.
  intros H. unfold _load_resources.
  assert (Hstep : forall path (k1 k2 : M World (Image * AudioFileClip)),
    fst (k1 w1) = fst (k2 w2) ->
    fst ((run! check_resource path; k1) w1)
    = fst ((run! check_resource path; k2) w2)).
  { intros path k1 k2 Hk. unfold bind.
    pose proof (check_resource_files path w1 w2 H) as Hc.
    pose proof (check_resource_preserves eq path w1) as E1.
    pose proof (check_resource_preserves eq path w2) as E2.
    destruct (check_resource path w1) as [[e1 | u1] w1'],
             (check_resource path w2) as [[e2 | u2] w2'];
      simpl in *; subst; try congruence. }
  apply Hstep, Hstep.
  unfold bind, Image_open, AudioFileClip_open. rewrite H.
  destruct (files w2 !! join dir "image.png") as [[si [ | img | | | | ]] | ];
    try reflexivity.
  rewrite H.
  destruct (files w2 !! join dir "audio.mp3") as [[sa [ | | d | | | ]] | ];
    try reflexivity.
  cbn [duration]. destruct d as [seconds | ]; [ | reflexivity ].
  destruct (Qltb seconds _); reflexivity.
Qed.

(** X7. Failures stay with their segment.  A segment whose resources
    cannot be loaded raises the loader's error and leaves the disk and
    the service object as they were (only the clock has been read); and
    a batch always hands back one result per segment, whatever each
    segment did: a failing segment never aborts its batch-mates. *)
Theorem segment_failures_are_isolated (env : Env) :
  (forall subdir temp_dir cp settings w e,
     Settings.chapter_path settings = Some cp ->
     fst (_load_resources (join cp subdir) (Settings.resolution settings) w)
     = inl e ->
     _process_segment env subdir temp_dir settings w
     = (inl e, set_clock (clock w + 1)%N w))
  /\ (forall batch temp_dir settings w,
        exists rs,
          fst (gather env batch temp_dir settings w) = inr rs
          /\ length rs = length batch).
Proof.
  split.
  - intros subdir temp_dir cp settings w e Hcp Hload.
    unfold _process_segment. unfold bind at 1. unfold time_ns at 1.
    rewrite Hcp. unfold bind at 1, lift at 1. unfold bind at 1.
    set (w1 := set_clock (clock w + 1)%N w).
    pose proof (_load_resources_world (join cp subdir)
                  (Settings.resolution settings) w1) as Hw.
    pose proof (_load_resources_files (join cp subdir)
                  (Settings.resolution settings) w1 w eq_refl) as Hf.
    rewrite Hload in Hf.
    destruct (_load_resources _ _ w1) as [r w2]. simpl in Hw, Hf.
    subst r w2. reflexivity.
  - intros batch temp_dir settings w.
    destruct (gather_results env temp_dir settings batch w)
      as (rs & w' & E & Hlen & _).
    exists rs. rewrite E. split; [ reflexivity | exact Hlen ].
Qed.

(** ** Temp names *)

Lemma temp_video_name_inj (env : Env) (s1 s2 : string) :
  temp_video_name env s1 = temp_video_name env s2 -> s1 = s2.
Proof.
  unfold temp_video_name. intros E.
  apply String.app_inj in E. revert E.
  generalize ("_" +:+ str_of_N (getpid env) +:+ ".mp4"). intros t E.
  revert s2 E. induction s1 as [ | c s1 IH]; intros s2 E.
  - destruct s2 as [ | d s2]; [ reflexivity | ].
    apply (f_equal String.length) in E.
    rewrite append_nil_l, append_cons in E. simpl in E.
    rewrite length_append in E. lia.
  - destruct s2 as [ | d s2].
    + apply (f_equal String.length) in E.
      rewrite append_nil_l, append_cons in E. simpl in E.
      rewrite length_append in E. lia.
    + rewrite !append_cons in E. injection E as -> E. f_equal. now apply IH.
Qed.

Lemma _process_segment_paths (env : Env) (subdir temp_dir : string)
    (settings : Settings.t) (w w' : World) (v a : string) :
  _process_segment env subdir temp_dir settings w = (inr (v, a), w') ->
  v = join temp_dir (temp_video_name env subdir)
  /\ a = join (dirname (join temp_dir (temp_video_name env subdir)))
              (temp_audio_name env subdir (clock w)).
Proof.
  unfold _process_segment. unfold bind at 1. unfold time_ns at 1.
  cbv beta iota.
  match goal with
  | |- ?m ?s = _ -> _ =>
      assert (Hr : returns (fun r : string * string =>
                r = (join temp_dir (temp_video_name env subdir),
                     join (dirname (join temp_dir
                                      (temp_video_name env subdir)))
                          (temp_audio_name env subdir (clock w)))) m)
  end.
  { repeat (apply returns_bind; intros ?).
    destruct a1 as [image audio].
    repeat (apply returns_bind; intros ?).
    apply returns_if; [ apply returns_raise | ].
    repeat (apply returns_bind; intros ?).
    apply returns_ret. reflexivity. }
  intros E. apply Hr in E. now injection E as -> ->.
Qed.

(** X8. The temp names of a job.  A segment that returns hands back its
    clip at [vid_<id>_<pid>.mp4] in the temp directory and its audio
    scratch file at [temp_audio_<id>_<pid>_<time_ns>.m4a] beside it,
    and the clip is on disk.  In one process the clips of two different
    segments have different paths, a clip path is never an audio
    scratch path, and the audio scratch paths of one segment at two
    clock readings differ. *)
Theorem temp_names_within_a_job (env : Env) :
  (forall subdir temp_dir settings w w' v a,
     _process_segment env subdir temp_dir settings w = (inr (v, a), w') ->
     v = join temp_dir (temp_video_name env subdir)
     /\ a = join (dirname v) (temp_audio_name env subdir (clock w))
     /\ is_Some (files w' !! v))
  /\ (forall dir s1 s2,
        join dir (temp_video_name env s1) = join dir (temp_video_name env s2)
        -> s1 = s2)
  /\ (forall dir dir' s1 s2 now,
        join dir' (temp_audio_name env s1 now)
        <> join dir (temp_video_name env s2))
  /\ (forall dir s now1 now2,
        join dir (temp_audio_name env s now1)
        = join dir (temp_audio_name env s now2) ->
        now1 = now2).
Proof.
  split; [ | split; [ | split ] ].
  - intros subdir temp_dir settings w w' v a E.
    destruct (_process_segment_paths env subdir temp_dir settings w w' v a E)
      as [Hv Ha].
    split; [ exact Hv | ]. split; [ rewrite Ha, Hv; reflexivity | ].
    rewrite Hv. clear Hv Ha.
    revert E. unfold _process_segment.
    repeat (unfold bind at 1;
            match goal with
            | |- (let (_, _) := ?m ?s in _) = _ -> _ =>
                destruct (m s) as [[? | ?] ?]; [ discriminate | ]
            | |- (let (_, _) := ?m in _) = _ -> _ =>
                destruct m as [[? | ?] ?]; [ discriminate | ]
            end; try match goal with
                     | p : (Image * AudioFileClip)%type |- _ => destruct p
                     end).
    destruct (_ =? 0)%Z; [ discriminate | ].
    repeat (unfold bind at 1;
            match goal with
            | |- (let (_, _) := getsize ?p ?s in _) = _ -> _ => idtac
            | |- (let (_, _) := ?m ?s in _) = _ -> _ =>
                destruct (m s) as [[? | ?] ?]; [ discriminate | ]
            end).
    unfold getsize at 1.
    match goal with
    | |- context [files ?s !! ?p] => destruct (files s !! p) eqn:Ef
    end; [ | discriminate ].
    unfold modify, ret. intros [= _ _ <-]. cbn [files set_self].
    rewrite Ef. eauto.
  - intros dir s1 s2 E. apply temp_video_name_inj with env.
    apply join_same_dir in E; [ exact E | reflexivity | reflexivity ].
  - intros dir dir' s1 s2 now.
    apply ends_in_differ with (s1 := ".m4a") (s2 := ".mp4");
      [ | | reflexivity | discriminate ].
    + apply join_ends_in. unfold temp_audio_name.
      repeat apply ends_in_append. apply ends_in_refl.
    + apply join_ends_in. unfold temp_video_name.
      repeat apply ends_in_append. apply ends_in_refl.
  - intros dir s now1 now2 E.
    apply join_same_dir in E; [ | reflexivity | reflexivity ].
    unfold temp_audio_name in E.
    repeat (apply String.app_inj in E).
    assert (El : String.length (str_of_N now1) = String.length (str_of_N now2)).
    { apply (f_equal String.length) in E. rewrite !length_append in E. lia. }
    assert (Ep : str_of_N now1 = str_of_N now2).
    { revert El E. generalize (str_of_N now1) (str_of_N now2).
      induction s0 as [ | c s0 IH]; intros [ | d s3] El E;
        try discriminate; [ reflexivity | ].
      rewrite !append_cons in E. injection E as -> E. f_equal.
      apply IH; [ simpl in El; lia | exact E ]. }
    unfold str_of_N in Ep. now apply (inj pretty) in Ep.
Qed.

(** ** Removing files *)

Section Removal.

Variable env : Env.

Lemma remove_if_exists_spec (path : string) (w : World) :
  remove_if_exists env path w
  = match files w !! path with
    | Some _ =>
        match remove_error env path (clock w) with
        | Some e => (inl e, w)
        | None => (inr tt, set_files (delete path) w)
        end
    | None => (inr tt, w)
    end.
Proof.
  unfold remove_if_exists, bind.
  destruct (files w !! path) as [f | ] eqn:E.
  - rewrite (exists_true _ f) by exact E. unfold os_remove.
    rewrite E. reflexivity.
  - rewrite exists_false by exact E. reflexivity.
Qed.

(** The retry loop never raises; it removes the file or leaves the disk
    as it is, and it removes a file that is not locked. *)
Lemma remove_with_retries_spec (path : string) :
  forall n i attempts w,
  exists w',
    remove_with_retries env n i attempts path w = (inr tt, w')
    /\ self w' = self w /\ dirs w' = dirs w
    /\ (files w' = files w \/ files w' = delete path (files w))
    /\ (unlocked env -> is_Some (files w !! path) -> (0 < n)%nat ->
        files w' = delete path (files w) /\ clock w' = clock w).
Proof.
  induction n as [ | n IH]; intros i attempts w.
  - exists w. repeat split; auto; lia.
  - cbn [remove_with_retries]. unfold bind at 1. unfold catch, os_remove.
    destruct (files w !! path) as [f | ] eqn:Ef.
    + destruct (remove_error env path (clock w)) as [e | ] eqn:Er.
      * assert (Hlocked : ~ unlocked env).
        { intros Hu. rewrite Hu in Er. discriminate. }
        destruct e;
          try (exists w; split; [ reflexivity | ];
               do 3 (split; [ auto | ]); intros Hu; contradiction).
        unfold bind at 1.
        destruct (i <? attempts - 1)%Z; unfold sleep, modify, ret;
          cbv beta iota.
        -- destruct (IH (i + 1)%Z attempts
                          (set_clock (clock w + 500000000)%N w))
             as (w' & E & S & D & F & _).
           exists w'. split; [ exact E | ].
           do 3 (split; [ auto | ]). intros Hu; contradiction.
        -- destruct (IH (i + 1)%Z attempts w) as (w' & E & S & D & F & _).
           exists w'. split; [ exact E | ].
           do 3 (split; [ auto | ]). intros Hu; contradiction.
      * exists (set_files (delete path) w). split; [ reflexivity | ].
        do 3 (split; [ auto | ]). auto.
    + exists w. split; [ reflexivity | ]. do 3 (split; [ auto | ]).
      intros _ [x Hx]; discriminate.
Qed.

Lemma cleanup_step (path : string) (w : World) :
  exists w',
    (forall (A : Type) (k : M World A),
       (do! present <- exists_ path;
        run! (if negb present then ret tt
              else remove_with_retries env 3 0 3 path);
        k) w = k w')
    /\ self w' = self w /\ dirs w' = dirs w
    /\ (files w' = files w \/ files w' = delete path (files w))
    /\ (unlocked env ->
        files w' = delete path (files w) /\ clock w' = clock w).
Proof.
  destruct (files w !! path) as [f | ] eqn:E.
  - destruct (remove_with_retries_spec path 3 0 3 w)
      as (w' & Er & S & D & F & U).
    exists w'. split.
    + intros A k. unfold bind at 1. rewrite (exists_true _ f) by exact E.
      cbn [negb]. unfold bind at 1. rewrite Er. reflexivity.
    + do 3 (split; [ auto | ]). intros Hu. apply U; [ exact Hu | eauto | lia ].
  - exists w. split.
    + intros A k. unfold bind at 1. rewrite exists_false by exact E.
      reflexivity.
    + do 3 (split; [ auto | ]). intros _.
      split; [ symmetry; apply delete_id, E | reflexivity ].
Qed.

Lemma _cleanup_temp_files_lookup (paths : list string) :
  forall w,
  exists w',
    _cleanup_temp_files env paths w = (inr tt, w')
    /\ self w' = self w /\ dirs w' = dirs w
    /\ (forall p, p ∉ paths -> files w' !! p = files w !! p)
    /\ (forall p, files w' !! p = None \/ files w' !! p = files w !! p)
    /\ (unlocked env ->
        clock w' = clock w
        /\ forall p, files w' !! p
                     = if decide (p ∈ paths) then None else files w !! p).
Proof.
  induction paths as [ | path paths IH]; intros w; cbn [_cleanup_temp_files].
  - exists w. do 5 (split; [ auto | ]). intros _. split; [ reflexivity | ].
    intros p. destruct (decide (p ∈ [])) as [H | H]; [ | reflexivity ].
    now apply elem_of_nil in H.
  - destruct (cleanup_step path w) as (w1 & E1 & S1 & D1 & F1 & U1).
    rewrite E1.
    destruct (IH w1) as (w2 & E2 & S2 & D2 & N2 & F2 & U2). rewrite E2.
    assert (Hstep : forall p, p <> path -> files w1 !! p = files w !! p).
    { intros p Hp. destruct F1 as [-> | ->]; [ reflexivity | ].
      now apply lookup_delete_ne. }
    assert (Hopt : forall p,
              files w1 !! p = None \/ files w1 !! p = files w !! p).
    { intros p. destruct F1 as [-> | ->]; [ now right | ].
      destruct (decide (path = p)) as [-> | Hne].
      - left. apply lookup_delete_eq.
      - right. now apply lookup_delete_ne. }
    exists w2. split; [ reflexivity | ].
    split; [ congruence | ]. split; [ congruence | ].
    split; [ | split ].
    + intros p Hp. rewrite N2, Hstep; [ reflexivity | | ];
        intros H; apply Hp; [ subst; now left | now right ].
    + intros p. destruct (F2 p) as [H | H]; [ now left | ].
      rewrite H. apply Hopt.
    + intros Hu. destruct (U1 Hu) as [F1' C1]. destruct (U2 Hu) as [C2 F2'].
      split; [ congruence | ].
      intros p. rewrite F2', F1'.
      destruct (decide (p ∈ paths)) as [Hin | Hnin],
               (decide (p ∈ path :: paths)) as [Hin' | Hnin'];
        try reflexivity.
      * exfalso. apply Hnin'. now right.
      * apply elem_of_cons in Hin' as [-> | Hin']; [ | contradiction ].
        apply lookup_delete_eq.
      * apply lookup_delete_ne. intros ->. apply Hnin'. now left.
Qed.

(** X9. [_cleanup_temp_files] never raises, skips a path that is
    already gone, touches no file that is not listed and leaves the
    service object alone; a listed file is removed or left as it is.
    Where removing a file that exists succeeds (no lock held on it),
    none of the listed paths is on disk when it is done. *)
Theorem cleanup_temp_files_removes_exactly (paths : list string)
    (w : World) :
  exists w',
    _cleanup_temp_files env paths w = (inr tt, w')
    /\ self w' = self w
    /\ (forall p, p ∉ paths -> files w' !! p = files w !! p)
    /\ (forall p, p ∈ paths ->
                  files w' !! p = None \/ files w' !! p = files w !! p)
    /\ (unlocked env -> forall p, p ∈ paths -> files w' !! p = None).
Proof.
  destruct (_cleanup_temp_files_lookup paths w)
    as (w' & E & S & _ & N & F & U).
  exists w'. split; [ exact E | ]. split; [ exact S | ].
  split; [ exact N | ]. split; [ intros p _; apply F | ].
  intros Hu p Hp. destruct (U Hu) as [_ F']. rewrite F'.
  destruct (decide (p ∈ paths)); tauto.
Qed.

(** ** The merge *)

(** The [finally] block of [_merge_videos]. *)
Lemma merge_finally (concat_list temp_output_path : string) (w : World) :
  exists rf w',
    (run! remove_if_exists env concat_list;
     remove_if_exists env temp_output_path) w = (rf, w')
    /\ self w' = self w
    /\ (forall p, p <> concat_list -> p <> temp_output_path ->
                  files w' !! p = files w !! p)
    /\ (files w !! temp_output_path = None ->
        files w' !! temp_output_path = None)
    /\ (rf = inr tt ->
        files w' !! concat_list = None
        /\ files w' !! temp_output_path = None)
    /\ (forall e, rf = inl e ->
          (is_Some (files w !! concat_list)
           /\ remove_error env concat_list (clock w) = Some e)
          \/ is_Some (files w !! temp_output_path))
    /\ (unlocked env -> rf = inr tt).
Proof.
  unfold bind. rewrite remove_if_exists_spec.
  destruct (files w !! concat_list) as [f | ] eqn:Ec.
  - destruct (remove_error env concat_list (clock w)) as [e | ] eqn:Er.
    + eexists _, _. split; [ reflexivity | ].
      split; [ reflexivity | ]. split; [ auto | ]. split; [ auto | ].
      split; [ discriminate | ].
      split; [ intros e' [= <-]; left; split; [ eauto | reflexivity ] | ].
      intros Hu. rewrite Hu in Er. discriminate.
    + rewrite remove_if_exists_spec. cbn [files set_files clock].
      destruct (delete concat_list (files w) !! temp_output_path)
        as [g | ] eqn:Et.
      * assert (Ht : is_Some (files w !! temp_output_path)).
        { destruct (decide (concat_list = temp_output_path)) as [<- | Hne].
          - rewrite lookup_delete_eq in Et. discriminate.
          - rewrite lookup_delete_ne in Et by exact Hne. eauto. }
        assert (Hne : concat_list <> temp_output_path).
        { intros <-. rewrite lookup_delete_eq in Et. discriminate. }
        destruct (remove_error env temp_output_path (clock w)) as [e | ]
          eqn:Er2.
        -- eexists _, _. split; [ reflexivity | ].
           split; [ reflexivity | ]. cbn [files set_files].
           split; [ intros p Hp _; now apply lookup_delete_ne | ].
           split; [ intros H; rewrite H in Ht; destruct Ht; discriminate | ].
           split; [ discriminate | ].
           split; [ intros e' _; now right | ].
           intros Hu. rewrite Hu in Er2. discriminate.
        -- eexists _, _. split; [ reflexivity | ].
           split; [ reflexivity | ]. cbn [files set_files].
           split; [ intros p Hp1 Hp2; rewrite !lookup_delete_ne by congruence;
                    reflexivity | ].
           split; [ intros _; apply lookup_delete_eq | ].
           split; [ intros _; split;
                    [ rewrite lookup_delete_ne by congruence;
                      apply lookup_delete_eq
                    | apply lookup_delete_eq ] | ].
           split; [ discriminate | reflexivity ].
      * eexists _, _. split; [ reflexivity | ].
        split; [ reflexivity | ]. cbn [files set_files].
        split; [ intros p Hp _; now apply lookup_delete_ne | ].
        split; [ intros _; exact Et | ].
        split; [ intros _; split; [ apply lookup_delete_eq | exact Et ] | ].
        split; [ discriminate | reflexivity ].
  - rewrite remove_if_exists_spec.
    destruct (files w !! temp_output_path) as [g | ] eqn:Et.
    + destruct (remove_error env temp_output_path (clock w)) as [e | ]
        eqn:Er2.
      * eexists _, _. split; [ reflexivity | ].
        split; [ reflexivity | ]. split; [ auto | ].
        split; [ discriminate | ]. split; [ discriminate | ].
        split; [ intros e' _; right; eauto | ].
        intros Hu. rewrite Hu in Er2. discriminate.
      * eexists _, _. split; [ reflexivity | ].
        split; [ reflexivity | ]. cbn [files set_files].
        split; [ intros p _ Hp; now apply lookup_delete_ne | ].
        split; [ intros _; apply lookup_delete_eq | ].
        split; [ intros _; split; [ | apply lookup_delete_eq ] | ].
        { destruct (decide (temp_output_path = concat_list)) as [-> | Hne];
            [ apply lookup_delete_eq | ].
          rewrite lookup_delete_ne by exact Hne. exact Ec. }
        split; [ discriminate | reflexivity ].
    + eexists _, _. split; [ reflexivity | ].
      split; [ reflexivity | ]. split; [ auto | ]. split; [ auto | ].
      split; [ auto | ]. split; [ discriminate | reflexivity ].
Qed.

(** The disk and the result after a merge. *)
Lemma _merge_videos_spec (temp_files : list string)
    (output_path : string) (settings : Settings.t) (w : World) :
  ends_in output_path ".mp4" ->
  let concat_list := join (dirname output_path) "concat.txt" in
  let temp_output_path :=
    fst (splitext output_path) +:+ ".tmp_" +:+ str_of_N (getpid env)
      +:+ snd (splitext output_path) in
  let r := fst (_merge_videos env temp_files output_path settings w) in
  let w' := snd (_merge_videos env temp_files output_path settings w) in
  self w' = self w
  /\ (forall p,
        p <> concat_list -> p <> temp_output_path -> p <> output_path ->
        files w' !! p = files w !! p)
  /\ (exists cmd,
        match ffmpeg env cmd with
        | Exit0 size =>
            files w' !! output_path
            = Some {| st_size := size;
                      payload := MergedVideo
                                   (map (concat_line env) temp_files) |}
            /\ files w' !! temp_output_path = None
            /\ (r = inr output_path
                \/ exists e,
                     remove_error env concat_list (clock w) = Some e
                     /\ r = inl e)
            /\ (remove_error env concat_list (clock w) = None ->
                r = inr output_path)
        | ExitNonzero stderr debris =>
            files w' !! output_path = files w !! output_path
            /\ (exists e, r = inl e)
            /\ (unlocked env -> r = inl (CalledProcessError stderr))
        | NotStarted e =>
            files w' !! output_path = files w !! output_path
            /\ (exists e', r = inl e')
            /\ (unlocked env -> r = inl e)
        end)
  /\ ((unlocked env \/ r = inr output_path) ->
      files w' !! concat_list = None
      /\ files w' !! temp_output_path = None).
Proof.
  intros Hmp4.
  pose proof (temp_output_not_output env output_path) as Htmp.
  assert (Hlist : join (dirname output_path) "concat.txt" <> output_path).
  { apply ends_in_differ with (s1 := ".txt") (s2 := ".mp4");
      [ | exact Hmp4 | reflexivity | discriminate ].
    apply join_ends_in. now exists "concat". }
  cbv zeta.
  destruct (_merge_videos env temp_files output_path settings w)
    as [r w'] eqn:E.
  cbn [fst snd]. revert E. unfold _merge_videos.
  destruct (splitext output_path) as [root ext]. cbn [fst snd] in *.
  set (concat_list := join (dirname output_path) "concat.txt") in *.
  set (temp_output_path := root +:+ ".tmp_" +:+ str_of_N (getpid env) +:+ ext)
    in *.
  unfold try_finally.
  unfold bind at 1. unfold write_file at 1, modify at 1.
  unfold bind at 1. unfold get at 1.
  unfold bind at 1. unfold run_concat at 1.
  unfold bind at 1. unfold get at 1.
  cbn [files set_files]. rewrite lookup_insert_eq.
  match goal with |- context [ffmpeg env ?c] => set (cmd := c) end.
  destruct (ffmpeg env cmd) as [size | stderr debris | e0] eqn:Eff.
  - unfold write_file at 1, modify at 1.
    unfold bind at 1. unfold os_replace at 1.
    cbn [files set_files]. rewrite lookup_insert_eq.
    unfold bind at 1. unfold ret at 1.
    match goal with
    | |- context [remove_if_exists env concat_list ?w3] =>
        destruct (merge_finally concat_list temp_output_path w3)
          as (rf & w5 & E & S & F & T & Ok & Err & U); set (w3' := w3) in *
    end.
    assert (Htemp : files w3' !! temp_output_path = None).
    { subst w3'. cbn [files set_files].
      rewrite lookup_insert_ne by congruence. apply lookup_delete_eq. }
    unfold bind in E |- *. rewrite E.
    assert (Hout : files w5 !! output_path
                   = Some {| st_size := size;
                             payload := MergedVideo
                               (map (concat_line env) temp_files) |}).
    { rewrite F by congruence. subst w3'. cbn [files set_files].
      apply lookup_insert_eq. }
    assert (Hrest : forall p,
      p <> concat_list -> p <> temp_output_path -> p <> output_path ->
      files w5 !! p = files w !! p).
    { intros p Hc Ht Ho. rewrite F by assumption. subst w3'.
      cbn [files set_files].
      rewrite lookup_insert_ne, lookup_delete_ne, !lookup_insert_ne
        by congruence.
      reflexivity. }
    destruct rf as [e | []]; intros [= <- <-].
    + split; [ exact S | ]. split; [ exact Hrest | ].
      split.
      { exists cmd. rewrite Eff. split; [ exact Hout | ].
        split; [ apply T, Htemp | ].
        destruct (Err e eq_refl) as [[_ Hr] | Hs].
        - split; [ right; exists e; split; [ exact Hr | reflexivity ] | ].
          subst w3'. cbn [clock set_files] in Hr. intros H.
          rewrite H in Hr. discriminate.
        - rewrite Htemp in Hs. destruct Hs. discriminate. }
      intros [Hu | H]; [ specialize (U Hu) | ]; discriminate.
    + split; [ exact S | ]. split; [ exact Hrest | ].
      split.
      { exists cmd. rewrite Eff. split; [ exact Hout | ].
        split; [ apply T, Htemp | ]. split; [ now left | reflexivity ]. }
      intros _. apply Ok. reflexivity.
  - assert (Hgen : forall w3 : World,
      self w3 = self w ->
      (forall p, p <> concat_list -> p <> temp_output_path ->
                 files w3 !! p = files w !! p) ->
      forall rf w5,
        (run! remove_if_exists env concat_list;
         remove_if_exists env temp_output_path) w3 = (rf, w5) ->
        forall r0 w0,
          match rf with
          | inl e => (@inl exn string e, w5)
          | inr _ => (inl (CalledProcessError stderr), w5)
          end = (r0, w0) ->
          self w0 = self w
          /\ (forall p,
                p <> concat_list -> p <> temp_output_path ->
                p <> output_path -> files w0 !! p = files w !! p)
          /\ (exists cmd0,
                match ffmpeg env cmd0 with
                | Exit0 size =>
                    files w0 !! output_path
                    = Some {| st_size := size;
                              payload := MergedVideo
                                (map (concat_line env) temp_files) |}
                    /\ files w0 !! temp_output_path = None
                    /\ (r0 = inr output_path
                        \/ exists e,
                             remove_error env concat_list (clock w) = Some e
                             /\ r0 = inl e)
                    /\ (remove_error env concat_list (clock w) = None ->
                        r0 = inr output_path)
                | ExitNonzero stderr0 debris0 =>
                    files w0 !! output_path = files w !! output_path
                    /\ (exists e, r0 = inl e)
                    /\ (unlocked env -> r0 = inl (CalledProcessError stderr0))
                | NotStarted e =>
                    files w0 !! output_path = files w !! output_path
                    /\ (exists e', r0 = inl e')
                    /\ (unlocked env -> r0 = inl e)
                end)
          /\ ((unlocked env \/ r0 = inr output_path) ->
              files w0 !! concat_list = None
              /\ files w0 !! temp_output_path = None)).
    { intros w3 S3 F3 rf w5 E r0 w0 E0.
      destruct (merge_finally concat_list temp_output_path w3)
        as (rf' & w5' & E' & S & F & T & Ok & Err & U).
      rewrite E in E'. injection E' as <- <-.
      assert (Hr0 : r0 = match rf with
                         | inl e => inl e
                         | inr _ => inl (CalledProcessError stderr)
                         end /\ w0 = w5).
      { destruct rf; now injection E0 as <- <-. }
      destruct Hr0 as [-> ->].
      split; [ congruence | ].
      split; [ intros p Hc Ht Ho; rewrite F, F3 by assumption; reflexivity | ].
      split.
      { exists cmd. rewrite Eff.
        split; [ rewrite F, F3 by congruence; reflexivity | ].
        split; [ destruct rf; eauto | ].
        intros Hu. rewrite (U Hu). reflexivity. }
      intros [Hu | H]; [ apply Ok, U, Hu | destruct rf; discriminate ]. }
    destruct debris; unfold bind at 1; unfold write_file, modify, ret, raise;
      cbv beta iota.
    + match goal with
      | |- context [bind (remove_if_exists env ?c)
                         (fun _ => remove_if_exists env ?t) ?w3] =>
          destruct (bind (remove_if_exists env c)
                         (fun _ => remove_if_exists env t) w3)
            as [rf w5] eqn:E;
          intros E0; apply (Hgen w3) with (rf := rf) (w5 := w5);
            [ reflexivity | | exact E | exact E0 ]
      end.
      intros p Hc Ht. cbn [files set_files].
      rewrite !lookup_insert_ne by congruence. reflexivity.
    + match goal with
      | |- context [bind (remove_if_exists env ?c)
                         (fun _ => remove_if_exists env ?t) ?w3] =>
          destruct (bind (remove_if_exists env c)
                         (fun _ => remove_if_exists env t) w3)
            as [rf w5] eqn:E;
          intros E0; apply (Hgen w3) with (rf := rf) (w5 := w5);
            [ reflexivity | | exact E | exact E0 ]
      end.
      intros p Hc Ht. cbn [files set_files].
      rewrite !lookup_insert_ne by congruence. reflexivity.
  - unfold raise.
    match goal with
    | |- context [bind (remove_if_exists env ?c)
                       (fun _ => remove_if_exists env ?t) ?w3] =>
        destruct (merge_finally concat_list temp_output_path w3)
          as (rf & w5 & E & S & F & T & Ok & Err & U); set (w3' := w3) in *
    end.
    rewrite E.
    assert (Hrest : forall p,
      p <> concat_list -> p <> temp_output_path ->
      files w5 !! p = files w !! p).
    { intros p Hc Ht. rewrite F by assumption. subst w3'.
      cbn [files set_files]. rewrite lookup_insert_ne by congruence.
      reflexivity. }
    intros E0.
    assert (Hr0 : r = match rf with
                      | inl e => inl e
                      | inr _ => inl e0
                      end /\ w' = w5).
    { destruct rf; now injection E0 as <- <-. }
    destruct Hr0 as [-> ->].
    split; [ exact S | ].
    split; [ intros p Hc Ht Ho; apply Hrest; assumption | ].
    split.
    { exists cmd. rewrite Eff.
      split; [ apply Hrest; congruence | ].
      split; [ destruct rf; eauto | ].
      intros Hu. rewrite (U Hu). reflexivity. }
    intros [Hu | H]; [ apply Ok, U, Hu | destruct rf; discriminate ].
Qed.


End Removal.

(** ** A job that succeeds *)

Lemma sublist_full {A : Type} (l1 l2 : list A) :
  l1 `sublist_of` l2 -> (length l2 <= length l1)%nat -> l1 = l2.
Proof.
  induction 1 as [ | x l1 l2 Hs IH | x l1 l2 Hs IH]; intros Hlen.
  - reflexivity.
  - f_equal. apply IH. simpl in Hlen. lia.
  - apply sublist_length in Hs. simpl in Hlen. lia.
Qed.

(** The clips a batch returns are those of some of its segments, in
    batch order, and each is listed among the temp files. *)
Lemma gather_paths (env : Env) (temp_dir : string) (settings : Settings.t) :
  forall batch w rs w',
    gather env batch temp_dir settings w = (inr rs, w') ->
    exists done,
      done `sublist_of` batch
      /\ video_paths rs
         = map (fun s => join temp_dir (temp_video_name env s)) done
      /\ forall p, p ∈ video_paths rs -> p ∈ temp_paths rs.
Proof.
  induction batch as [ | s rest IH]; intros w rs w' E; cbn [gather] in E.
  - injection E as <- <-. exists []. split; [ constructor | ].
    split; [ reflexivity | ]. intros p Hp. exact Hp.
  - unfold bind at 1 in E. unfold catch at 1 in E.
    destruct (_process_segment env s temp_dir settings w) as [r w1] eqn:Ep.
    unfold bind at 1 in E.
    destruct (gather env rest temp_dir settings w1) as [[e | rs'] w2] eqn:Eg;
      [ discriminate | ].
    injection E as <- <-.
    destruct (IH _ _ _ Eg) as (done & Hsub & Hv & Hin).
    destruct r as [e | [v a]].
    + exists done. split; [ now apply sublist_cons | ].
      split; [ exact Hv | exact Hin ].
    + destruct (_process_segment_paths env s temp_dir settings w w1 v a Ep)
        as [-> _].
      exists (s :: done). split; [ now apply sublist_skip | ].
      split.
      * unfold video_paths in *. simpl. now rewrite Hv.
      * intros p Hp. unfold video_paths, temp_paths in *. simpl in *.
        apply elem_of_cons in Hp as [-> | Hp]; [ now left | ].
        right. right. now apply Hin.
Qed.

Lemma run_batches_paths (env : Env) (subdirs : list string) (batch_size : Z)
    (cp : string) (settings : Settings.t) :
  forall starts j j',
    run_batches env starts subdirs batch_size cp settings j = (inr tt, j') ->
    exists done,
      done `sublist_of` concat (batches_of starts subdirs batch_size)
      /\ temp_video_files (snd j')
         = temp_video_files (snd j)
           ++ map (fun s => join cp (temp_video_name env s)) done
      /\ ((forall p, p ∈ temp_video_files (snd j) ->
                     p ∈ all_temp_files (snd j)) ->
          forall p, p ∈ temp_video_files (snd j') ->
                    p ∈ all_temp_files (snd j')).
Proof.
  induction starts as [ | i later IH]; intros j j' E.
  - cbn in E. injection E as <-. exists []. split; [ constructor | ].
    split; [ simpl; now rewrite app_nil_r | auto ].
  - destruct (run_batches_step env i later subdirs batch_size cp settings j)
      as (rs & w1 & Eg & _ & Estep).
    rewrite Estep in E. clear Estep. cbv zeta in E.
    destruct (stop_flag _); [ discriminate | ].
    apply IH in E. cbn [fst snd temp_video_files all_temp_files] in E.
    destruct E as (done2 & Hsub2 & Htv & Hall).
    destruct (gather_paths env cp settings _ _ _ _ Eg)
      as (done1 & Hsub1 & Hv & Hin).
    exists (done1 ++ done2). split; [ | split ].
    + cbn [batches_of map concat]. now apply sublist_app.
    + rewrite Htv, Hv, map_app, app_assoc. reflexivity.
    + intros Hj. apply Hall. intros p Hp.
      apply elem_of_app in Hp as [Hp | Hp]; apply elem_of_app; auto.
Qed.

(** What a successful [try] block of [generate_video] has done. *)
Lemma generate_video_body_success (env : Env) (cp : string)
    (settings : Settings.t) (w0 : World) (p : string) (j1 : Job) :
  generate_video_body env cp (join cp "video.mp4") settings (w0, no_locals)
  = (inr p, j1) ->
  exists subdirs,
    fst (list_segments cp w0) = inr subdirs
    /\ subdirs <> []
    /\ p = join cp "video.mp4"
    /\ (exists size,
          files (fst j1) !! p
          = Some {| st_size := size;
                    payload :=
                      MergedVideo
                        (map (fun s => concat_line env
                                         (join cp (temp_video_name env s)))
                             subdirs) |})
    /\ (forall s, s ∈ subdirs ->
                  join cp (temp_video_name env s) ∈ all_temp_files (snd j1))
    /\ progress (self (fst j1)) = Z.of_nat (length subdirs)
    /\ total_segments (self (fst j1)) = Z.of_nat (length subdirs)
    /\ current_task (self (fst j1)) = Some "Completed".
Proof.
  rewrite generate_video_body_stages. cbn [fst snd].
  destruct (fst (list_segments cp w0)) as [e | [ | s subdirs]];
    try discriminate.
  cbv zeta. set (subs := s :: subdirs).
  destruct (py_range0 _ _) as [e | starts] eqn:Er; [ discriminate | ].
  destruct (run_batches env starts _ _ cp settings _) as [r j3] eqn:Eb.
  destruct r as [e | []]; [ discriminate | ].
  pose proof (run_batches_invariants env _ _ _ _ _ _ _ _ Eb)
    as (_ & _ & Ht & _).
  destruct (run_batches_paths env _ _ _ _ _ _ _ Eb)
    as (done & Hsub & Htv & Hall).
  cbn [fst snd no_locals temp_video_files all_temp_files app] in Ht, Htv, Hall.
  destruct (length (temp_video_files (snd j3)) =? length subs)%nat eqn:Elen;
    cbn [negb]; [ | discriminate ].
  apply Nat.eqb_eq in Elen.
  assert (Hpos : (0 < Settings.batch_size settings)%Z).
  { destruct (Z.ltb_spec 0 (Settings.batch_size settings)) as [H | H];
      [ exact H | exfalso ].
    unfold py_range0 in Er.
    destruct (Z.eqb_spec (Settings.batch_size settings) 0); [ discriminate | ].
    destruct (Z.ltb_spec (Settings.batch_size settings) 0); [ | lia ].
    injection Er as <-. cbn in Hsub. apply sublist_length in Hsub.
    rewrite Htv, length_map in Elen. simpl in Hsub, Elen. lia. }
  rewrite (batches_cover _ _ _ Er Hpos) in Hsub.
  assert (Hdone : done = subs).
  { apply sublist_full; [ exact Hsub | ].
    rewrite Htv, length_map in Elen. lia. }
  subst done.
  destruct (temp_video_files (snd j3)) as [ | v vs] eqn:Etv;
    [ discriminate | ].
  pose proof (_merge_videos_spec env (v :: vs) (join cp "video.mp4") settings
                (merging (fst j3))) as Hm.
  cbv zeta in Hm.
  destruct (_merge_videos env (v :: vs) (join cp "video.mp4") settings
              (merging (fst j3))) as [[e | result] w5];
    [ discriminate | ].
  intros [= <- <-]. cbn [fst snd] in Hm |- *.
  destruct Hm as (Hself & _ & (cmd & Hcmd) & _).
  { apply join_ends_in. now exists "video". }
  assert (Hres : result = join cp "video.mp4"
                 /\ exists size,
                      files w5 !! join cp "video.mp4"
                      = Some {| st_size := size;
                                payload := MergedVideo
                                  (map (concat_line env) (v :: vs)) |}).
  { destruct (ffmpeg env cmd) as [size | stderr debris | e0].
    - destruct Hcmd as (Hout & _ & [[= ->] | (e & _ & [=])] & _).
      split; [ reflexivity | ]. exists size. exact Hout.
    - destruct Hcmd as (_ & (e & [=]) & _).
    - destruct Hcmd as (_ & (e & [=]) & _). }
  destruct Hres as [-> (size & Hout)].
  exists subs. split; [ reflexivity | ]. split; [ discriminate | ].
  split; [ reflexivity | ].
  split.
  { exists size. cbn [completed files set_self]. rewrite Hout, Htv, map_map.
    reflexivity. }
  split.
  { intros s0 Hs0. apply Hall; [ intros q Hq; now apply elem_of_nil in Hq | ].
    rewrite Htv.
    exact (list_elem_of_fmap_2
             (fun s => join cp (temp_video_name env s)) subs s0 Hs0). }
  unfold completed. cbn [self set_self progress total_segments current_task
                         set_progress set_current_task].
  rewrite Hself. cbn [merging self set_self total_segments set_current_task].
  rewrite Ht. cbn. auto.
Qed.


(** ** Progress snapshots *)

Lemma percentage_range (p t : Z) :
  (0 <= p <= t)%Z -> (1 <= t)%Z ->
  let pct := py_int (inject_Z p / inject_Z t * 100) in
  (0 <= pct <= 100)%Z /\ (pct = 100%Z <-> p = t).
Proof.
  intros [Hp0 Hpt] Ht pct.
  assert (Qt : (0 < inject_Z t)%Q) by (apply inject_Z_pos; lia).
  assert (Qp : (0 <= inject_Z p)%Q).
  { change 0%Q with (inject_Z 0). rewrite <- Zle_Qle. exact Hp0. }
  assert (Qpt : (inject_Z p <= inject_Z t)%Q) by (rewrite <- Zle_Qle; lia).
  assert (Hq0 : (0 <= inject_Z p / inject_Z t)%Q)
    by (apply Qle_shift_div_l; lra).
  assert (Hq1 : (inject_Z p / inject_Z t <= 1)%Q)
    by (apply Qle_shift_div_r; lra).
  assert (Hlo : (0 <= pct)%Z).
  { apply py_int_lower; [ lia | ]. change (inject_Z 0) with 0%Q. lra. }
  assert (Hhi : (pct <= 100)%Z).
  { apply py_int_upper; [ lra | ]. change (inject_Z 100) with 100%Q. lra. }
  split; [ lia | ]. split.
  - intros E. subst pct. rewrite py_int_nonneg in E by lra.
    pose proof (Qfloor_le (inject_Z p / inject_Z t * 100)) as Hf.
    rewrite E in Hf. change (inject_Z 100) with 100%Q in Hf.
    assert (H1 : (1 <= inject_Z p / inject_Z t)%Q) by lra.
    assert (H2 : (inject_Z t <= inject_Z p)%Q).
    { assert (E' : (inject_Z p == inject_Z p / inject_Z t * inject_Z t)%Q)
        by (field; lra).
      set (q := (inject_Z p / inject_Z t)%Q) in *. nra. }
    rewrite <- Zle_Qle in H2. lia.
  - intros ->. subst pct.
    transitivity (py_int (inject_Z 100)); [ | apply py_int_inject_Z ].
    apply py_int_comp. change (inject_Z 100) with 100%Q. field. lra.
Qed.

(** X12. In every state a service object can reach, [get_progress]
    returns a snapshot without changing anything; its percentage is
    between 0 and 100, and it is 100 exactly when there is at least one
    segment and all of them are counted as completed. *)
Theorem get_progress_percentage_range (w : World) :
  reachable w ->
  exists snapshot,
    get_progress w = (inr snapshot, w)
    /\ Progress.progress snapshot = progress (self w)
    /\ Progress.current_task snapshot = current_task (self w)
    /\ (0 <= Progress.percentage snapshot <= 100)%Z
    /\ (Progress.percentage snapshot = 100%Z
        <-> (1 <= total_segments (self w))%Z
            /\ progress (self w) = total_segments (self w)).
Proof.
  intros Hreach. apply reachable_counter_in_range in Hreach.
  unfold counter_in_range in Hreach. unfold get_progress.
  set (t := Z.max 1 (total_segments (self w))).
  rewrite truediv_ok by (apply inject_Z_nonzero; lia).
  eexists. split; [ reflexivity | ]. cbn [Progress.progress
    Progress.current_task Progress.percentage].
  split; [ reflexivity | ]. split; [ reflexivity | ].
  destruct (percentage_range (progress (self w)) t ltac:(lia) ltac:(lia))
    as [Hrange Hfull].
  split; [ exact Hrange | ]. rewrite Hfull. subst t. lia.
Qed.

(** ** Jobs that cannot start *)

(** X13. A job without segments changes nothing.  When the chapter
    directory cannot be listed the job raises the error of the listing;
    when its entries have ASCII names and none of them is a directory
    with an all-digit name the job raises
    [ValueError("No valid video segments")].  In both cases the disk,
    the counter, the total and the task label are what they were before
    the call: the progress of an earlier job stays readable. *)
Theorem generate_video_without_segments (env : Env) (chapter_path : string)
    (video_settings : option Overrides.t) (w : World) :
  let cp := abspath env chapter_path in
  let w0 := snd (job_context env chapter_path video_settings w) in
  (forall e,
     fst (listdir cp w) = inl e ->
     generate_video env chapter_path video_settings w = (inl e, w0))
  /\ (forall entries,
        dirs w !! cp = Some entries ->
        Forall (fun d => ascii_name d = true) entries ->
        (forall d, d ∈ entries ->
                   isdigit d = false \/ dirs w !! join cp d = None) ->
        generate_video env chapter_path video_settings w
        = (inl (ValueError "No valid video segments"), w0))
  /\ files w0 = files w
  /\ progress (self w0) = progress (self w)
  /\ total_segments (self w0) = total_segments (self w)
  /\ current_task (self w0) = current_task (self w).
Proof.
  intros cp w0.
  assert (Hw0 : dirs w0 = dirs w /\ files w0 = files w
                /\ progress (self w0) = progress (self w)
                /\ total_segments (self w0) = total_segments (self w)
                /\ current_task (self w0) = current_task (self w)).
  { subst w0. unfold job_context, interference. cbv zeta. cbn [snd].
    destruct (cancel_requested env AfterClear); cbn; auto. }
  destruct Hw0 as (Hdirs & Hfiles & Hp & Ht & Hc).
  assert (Hgen : forall e,
    fst (generate_video_body env cp (join cp "video.mp4")
           (snd (fst (fst (job_context env chapter_path video_settings w))))
           (w0, no_locals)) = inl e ->
    snd (generate_video_body env cp (join cp "video.mp4")
           (snd (fst (fst (job_context env chapter_path video_settings w))))
           (w0, no_locals)) = (w0, no_locals) ->
    generate_video env chapter_path video_settings w = (inl e, w0)).
  { intros e Hr Hs.
    pose proof (job_context_facts env chapter_path video_settings w) as Hctx.
    pose proof (generate_video_unfold env chapter_path video_settings w)
      as Hunf.
    subst w0.
    destruct (job_context env chapter_path video_settings w)
      as [[[cp' settings] out] w0].
    destruct Hctx as (-> & -> & _). cbn [fst snd] in *. fold cp in Hunf.
    destruct (generate_video_body env cp (join cp "video.mp4") settings
                (w0, no_locals)) as [rb j1].
    cbn [fst snd] in *. subst rb j1. exact Hunf. }
  split; [ | split; [ | auto ] ].
  - intros e He. apply Hgen; rewrite generate_video_body_stages;
      cbn [fst snd]; unfold list_segments, bind, listdir in *;
      rewrite Hdirs; destruct (dirs w !! cp); try discriminate;
      cbn in He |- *; congruence.
  - intros entries He _ Hnone.
    assert (Hl : fst (list_segments cp w0) = inr []).
    { unfold list_segments, bind, listdir, get, ret. rewrite Hdirs, He.
      cbn [fst]. f_equal.
      replace (filter _ entries) with (@nil string); [ reflexivity | ].
      symmetry. clear He. induction entries as [ | d entries IH];
        [ reflexivity | ].
      rewrite filter_cons, IH
        by (intros d' Hd'; apply Hnone; now right).
      destruct (decide _) as [Hd | _]; [ exfalso | reflexivity ].
      unfold isdir in Hd. rewrite Hdirs in Hd.
      destruct (Hnone d ltac:(now left)) as [Hdig | Hdir].
      - rewrite Hdig, andb_false_r in Hd. discriminate.
      - rewrite bool_decide_eq_false_2 in Hd; [ discriminate | ].
        rewrite Hdir. intros [x Hx]. discriminate. }
    apply Hgen; rewrite generate_video_body_stages; cbn [fst snd];
      rewrite Hl; reflexivity.
Qed.

(** X14. A batch size that is not positive.  With segments to render
    and [batch_size = 0] the job raises the [ValueError] of [range];
    with a negative [batch_size] the batch loop has nothing to run and
    the job raises the partial-failure error.  In both cases no segment
    is processed: the job ends in the state its progress initialisation
    left (counter 0, total the number of segments), with the disk
    untouched. *)
Theorem generate_video_bad_batch_size (env : Env) (chapter_path : string)
    (video_settings : option Overrides.t) (w : World)
    (subdirs : list string) :
  let cp := abspath env chapter_path in
  let settings := snd (fst (fst (job_context env chapter_path
                                   video_settings w))) in
  let w0 := snd (job_context env chapter_path video_settings w) in
  fst (list_segments cp w0) = inr subdirs -> subdirs <> [] ->
  (Settings.batch_size settings <= 0)%Z ->
  generate_video env chapter_path video_settings w
  = (inl (if (Settings.batch_size settings =? 0)%Z
          then ValueError "range() arg 3 must not be zero"
          else partial_failure_error),
     snd (start_job subdirs cp w0))
  /\ files (snd (start_job subdirs cp w0)) = files w
  /\ progress (self (snd (start_job subdirs cp w0))) = 0%Z
  /\ total_segments (self (snd (start_job subdirs cp w0)))
     = Z.of_nat (length subdirs).
Proof.
  intros cp settings w0 Hlist Hne Hbs.
  pose proof (job_context_facts env chapter_path video_settings w) as Hctx.
  pose proof (generate_video_unfold env chapter_path video_settings w)
    as Hunf.
  subst cp settings w0.
  destruct (job_context env chapter_path video_settings w)
    as [[[cp settings] out] w0].
  destruct Hctx as (-> & -> & _ & Hfiles & _). cbn [fst snd] in *.
  set (cp := abspath env chapter_path) in *.
  split; [ | split; [ exact Hfiles | split; reflexivity ] ].
  rewrite generate_video_body_stages in Hunf. cbn [fst snd] in Hunf.
  rewrite Hlist in Hunf.
  destruct subdirs as [ | s subdirs]; [ congruence | ].
  cbv zeta in Hunf. unfold py_range0 in Hunf.
  destruct (Z.eqb_spec (Settings.batch_size settings) 0) as [E0 | N0].
  - exact Hunf.
  - destruct (Z.ltb_spec (Settings.batch_size settings) 0); [ | lia ].
    exact Hunf.
Qed.

(** ** The segment list *)

Lemma insert_by_int_Permutation (x : string) (l : list string) :
  insert_by_int x l ≡ₚ x :: l.
Proof.
  induction l as [ | y r IH]; simpl; [ reflexivity | ].
  destruct (_ <? _)%Z; [ reflexivity | ].
  rewrite IH. apply Permutation_swap.
Qed.

Lemma insert_by_int_Forall (P : string -> Prop) (x : string)
    (l : list string) :
  P x -> Forall P l -> Forall P (insert_by_int x l).
Proof.
  intros Hx Hl. rewrite insert_by_int_Permutation. now constructor.
Qed.

Lemma insert_by_int_ascending (x : string) (l : list string) :
  ascending l -> ascending (insert_by_int x l).
Proof.
  induction l as [ | y r IH]; simpl.
  - intros _. split; [ constructor | exact I ].
  - intros [Hy Hr]. destruct (Z.ltb_spec (py_int_of_str x) (py_int_of_str y)).
    + split; [ | split; assumption ].
      constructor; [ lia | ].
      eapply Forall_impl; [ exact Hy | ]. simpl. intros z Hz. lia.
    + split; [ | now apply IH ].
      apply insert_by_int_Forall; [ lia | exact Hy ].
Qed.

Lemma sorted_by_int_spec (l : list string) :
  sorted_by_int l ≡ₚ l /\ ascending (sorted_by_int l).
Proof.
  unfold sorted_by_int. rewrite <- (reverse_Permutation l) at 2.
  induction (reverse l) as [ | x r [IHp IHa]]; simpl.
  - split; [ reflexivity | exact I ].
  - split; [ now rewrite insert_by_int_Permutation, IHp | ].
    now apply insert_by_int_ascending.
Qed.

(** X15. The segments of a chapter.  For a chapter directory whose
    entries have ASCII names, [list_segments] returns the entries that
    are directories with an all-digit name, each as often as the listing
    has it, ordered by ascending integer value of the name (so ["2"]
    comes before ["10"]); it changes nothing. *)
Theorem list_segments_ascending (cp : string) (w w' : World)
    (entries subdirs : list string) :
  dirs w !! cp = Some entries ->
  Forall (fun d => ascii_name d = true) entries ->
  list_segments cp w = (inr subdirs, w') ->
  w' = w
  /\ ascending subdirs
  /\ subdirs ≡ₚ filter (fun d => isdigit d = true
                                   /\ is_Some (dirs w !! join cp d))
                         entries.
Proof.
  intros He _. unfold list_segments, bind, listdir, get, ret. rewrite He.
  intros [= <- <-]. split; [ reflexivity | ].
  destruct (sorted_by_int_spec
              (filter (fun d => isdir w (join cp d) && isdigit d = true)
                      entries)) as [Hp Ha].
  split; [ exact Ha | ].
  rewrite Hp. clear.
  assert (E : filter (fun d => isdir w (join cp d) && isdigit d = true)
                     entries
              = filter (fun d => isdigit d = true
                                 /\ is_Some (dirs w !! join cp d)) entries);
    [ | now rewrite E ].
  induction entries as [ | d entries IH]; [ reflexivity | ].
  rewrite !filter_cons, IH. unfold isdir.
  destruct (decide (bool_decide (is_Some (dirs w !! join cp d))
                    && isdigit d = true)) as [H1 | H1],
           (decide (isdigit d = true /\ is_Some (dirs w !! join cp d)))
             as [H2 | H2]; try reflexivity; exfalso.
  - apply andb_true_iff in H1 as [H1 H1']. apply bool_decide_eq_true in H1.
    tauto.
  - destruct H2 as [H2 H2']. apply H1, andb_true_iff.
    split; [ now apply bool_decide_eq_true | exact H2 ].
Qed.

(** ** Batches *)

(** X16. Bounded batches.  For a positive batch size the batch loop
    runs [ceil(n / batch_size)] batches over [n] segments, and every
    batch holds at least one and at most [batch_size] segments. *)
Theorem batches_are_bounded (subdirs : list string) (batch_size : Z)
    (starts : list Z) :
  py_range0 (Z.of_nat (length subdirs)) batch_size = inr starts ->
  (0 < batch_size)%Z ->
  Z.of_nat (length starts)
  = ((Z.of_nat (length subdirs) + batch_size - 1) / batch_size)%Z
  /\ Forall (fun batch => (0 < length batch)%nat
                          /\ (Z.of_nat (length batch) <= batch_size)%Z)
            (batches_of starts subdirs batch_size).
Proof.
  unfold py_range0. intros E Hpos.
  destruct (Z.eqb_spec batch_size 0); [ lia | ].
  destruct (Z.ltb_spec batch_size 0); [ lia | ].
  injection E as <-.
  set (len := Z.of_nat (length subdirs)).
  set (cnt := ((len + batch_size - 1) / batch_size)%Z).
  assert (Hcnt : (0 <= cnt)%Z) by (apply Z.div_pos; lia).
  assert (Hlast : ((cnt - 1) * batch_size < len \/ cnt = 0)%Z).
  { subst cnt.
    pose proof (Z.div_mod (len + batch_size - 1) batch_size ltac:(lia)).
    pose proof (Z.mod_pos_bound (len + batch_size - 1) batch_size ltac:(lia)).
    nia. }
  split.
  - rewrite length_fmap, length_seqZ. lia.
  - unfold batches_of. apply Forall_map, Forall_fmap, Forall_forall.
    intros k Hk. apply elem_of_seqZ in Hk. cbn.
    unfold slice. rewrite length_take, length_drop.
    replace (k * batch_size + batch_size - k * batch_size)%Z
      with batch_size by lia.
    assert (k * batch_size < len)%Z by nia.
    subst len. split; lia.
Qed.

(** ** The frames of a clip *)

Lemma _apply_effects_size (env : Env) (image frame : Image)
    (time_val duration : Q) (settings : Settings.t) (subdir : string) :
  _apply_effects env image time_val duration settings subdir = inr frame ->
  size_of frame = if Settings.use_pan settings
                  then Settings.resolution settings
                  else size_of image.
Proof.
  unfold _apply_effects, ImageEffects.apply_effects, size_of.
  cbn [Params.use_pan default from_option id].
  destruct (Settings.use_pan settings).
  - destruct (ImageEffects.pan_effect _ _ _ _ _ _) as [e | panned] eqn:Ep;
      cbn [rbind]; [ discriminate | ].
    intros [= <-]. apply pan_effect_size in Ep. cbn in Ep. rewrite <- Ep.
    match goal with
    | |- context [ImageEffects.fade_effect ?i ?t ?d ?p] =>
        destruct (fade_effect_size i t d p) as [-> ->]
    end.
    reflexivity.
  - cbn [rbind]. intros [= <-].
    match goal with
    | |- context [ImageEffects.fade_effect ?i ?t ?d ?p] =>
        destruct (fade_effect_size i t d p) as [-> ->]
    end.
    reflexivity.
Qed.

(** X17. All the frames of a clip have one size.  Every frame the
    frame loop adds has the job's resolution when panning is on, and
    the size of the source picture when panning is off (the resolution
    is then not applied); this holds as well for a loop cut short by a
    cancellation. *)
Theorem rendered_frames_have_one_size (env : Env) (n : nat) :
  forall (i : Z) (frames : list Image) (image : Image) (duration : Q)
         (settings : Settings.t) (subdir : string) (w w' : World)
         (rendered : list Image),
    render_frames env n i frames image duration settings subdir w
    = (inr rendered, w') ->
    let size := if Settings.use_pan settings
                then Settings.resolution settings
                else size_of image in
    Forall (fun frame => size_of frame = size) frames ->
    Forall (fun frame => size_of frame = size) rendered.
Proof.
  induction n as [ | n IH];
    intros i frames image duration settings subdir w w' rendered E size Hf;
    cbn [render_frames] in E.
  - now injection E as <- _.
  - unfold bind at 1 in E.
    destruct (interference env (BeforeFrame subdir i) w) as [[e | []] w1];
      [ discriminate | ].
    unfold bind at 1 in E. unfold is_set at 1 in E.
    destruct (stop_flag (self w1)); [ now injection E as <- _ | ].
    unfold bind at 1 in E. unfold lift at 1 in E.
    destruct (fdiv _ _) as [e | time_val]; [ discriminate | ].
    unfold bind at 1 in E. unfold lift at 1 in E.
    destruct (_apply_effects env image time_val duration settings subdir)
      as [e | frame] eqn:Ef; [ discriminate | ].
    apply IH in E; [ exact E | ].
    apply Forall_app. split; [ exact Hf | ].
    constructor; [ | constructor ].
    now apply _apply_effects_size in Ef.
Qed.

(** ** The end of a job *)

(** X18. The [finally] block of [generate_video].  Whatever its [try]
    block did (returned, raised, was cancelled), [generate_video] hands
    on its result, leaves the service object as the [try] block left it,
    and touches no file but the temp files the job had recorded: each
    of these is removed or left as it is, and where no file is locked
    none of them is left. *)
Theorem generate_video_cleans_up (env : Env) (chapter_path : string)
    (video_settings : option Overrides.t) (w : World)
    (rb : result string) (j1 : Job) :
  let cp := abspath env chapter_path in
  let settings := snd (fst (fst (job_context env chapter_path
                                   video_settings w))) in
  let w0 := snd (job_context env chapter_path video_settings w) in
  let w' := snd (generate_video env chapter_path video_settings w) in
  generate_video_body env cp (join cp "video.mp4") settings (w0, no_locals)
  = (rb, j1) ->
  fst (generate_video env chapter_path video_settings w) = rb
  /\ self w' = self (fst j1)
  /\ (forall p, p ∉ all_temp_files (snd j1) ->
                files w' !! p = files (fst j1) !! p)
  /\ (forall p, p ∈ all_temp_files (snd j1) ->
                files w' !! p = None
                \/ files w' !! p = files (fst j1) !! p)
  /\ (unlocked env ->
      forall p, p ∈ all_temp_files (snd j1) -> files w' !! p = None).
Proof.
  intros cp settings w0 w' Ebody. subst cp settings w0 w'.
  pose proof (job_context_facts env chapter_path video_settings w) as Hctx.
  pose proof (generate_video_unfold env chapter_path video_settings w)
    as Hunf.
  destruct (job_context env chapter_path video_settings w)
    as [[[cp settings] out] w0].
  destruct Hctx as (-> & -> & _). cbn [fst snd] in *.
  rewrite Ebody in Hunf. rewrite Hunf. cbn [fst snd].
  split; [ reflexivity | ].
  destruct (_cleanup_temp_files_lookup env (all_temp_files (snd j1))
              (fst j1))
    as (w2 & Ec & Hs & _ & Hn & Hf & Hu).
  match goal with
  | |- context [self ?x] => set (wf := x)
  end.
  assert (Hwf : wf = w2).
  { subst wf. destruct (all_temp_files (snd j1)).
    - cbn in Ec. now injection Ec.
    - now rewrite Ec. }
  rewrite Hwf. clear wf Hwf.
  split; [ exact Hs | ]. split; [ exact Hn | ].
  split; [ intros p _; apply Hf | ].
  intros Hunl p Hp. destruct (Hu Hunl) as [_ Hf']. rewrite Hf'.
  destruct (decide (p ∈ _)); tauto.
Qed.

(** ** A job on a well-formed chapter *)

#[local] Instance sources_kept_preorder : PreOrder sources_kept.
Proof.
  split.
  - intros w dir name _. reflexivity.
  - intros w1 w2 w3 H12 H23 dir name Hn.
    rewrite (H23 dir name Hn). now apply H12.
Qed.

Lemma usable_segment_kept (w w' : World) (cp : string)
    (settings : Settings.t) (subdir : string) :
  sources_kept w w' ->
  usable_segment w cp settings subdir -> usable_segment w' cp settings subdir.
Proof.
  intros Hk (image & seconds & Hdisk & Hrest).
  exists image, seconds. split; [ | exact Hrest ].
  destruct Hdisk as (fi & fa & Hi & Si & Pi & Ha & Sa & Pa).
  exists fi, fa. rewrite !Hk by auto. auto 10.
Qed.

Lemma source_not_temp (env : Env) (dir dir' name subdir : string) (now : N) :
  name = "image.png" \/ name = "audio.mp3" ->
  join dir name <> join dir' (temp_video_name env subdir)
  /\ join dir name <> join dir' (temp_audio_name env subdir now).
Proof.
  intros Hn. split.
  - apply ends_in_differ with (s1 := String.substring 5 4 name)
                              (s2 := ".mp4").
    + apply join_ends_in. destruct Hn as [-> | ->];
        [ now exists "image" | now exists "audio" ].
    + apply join_ends_in. unfold temp_video_name.
      repeat apply ends_in_append. apply ends_in_refl.
    + destruct Hn as [-> | ->]; reflexivity.
    + destruct Hn as [-> | ->]; discriminate.
  - apply ends_in_differ with (s1 := String.substring 5 4 name)
                              (s2 := ".m4a").
    + apply join_ends_in. destruct Hn as [-> | ->];
        [ now exists "image" | now exists "audio" ].
    + apply join_ends_in. unfold temp_audio_name.
      repeat apply ends_in_append. apply ends_in_refl.
    + destruct Hn as [-> | ->]; reflexivity.
    + destruct Hn as [-> | ->]; discriminate.
Qed.

(** *** Every frame can be computed *)

Lemma fl_at_least (q c : Q) :
  (0 < c)%Q -> (2 * c <= q)%Q -> (c <= fl q)%Q.
Proof. intros Hc H. destruct (fl_bounds q); lra. Qed.

Lemma py_int_pos (q : Q) : (1 <= q)%Q -> (0 < py_int q)%Z.
Proof.
  intros H. rewrite py_int_nonneg by lra.
  pose proof (Qfloor_resp_le 1 q H) as Hf.
  change (Qfloor 1) with 1%Z in Hf. lia.
Qed.

Lemma Qdiv_mult_r (a b : Q) : (0 < b)%Q -> (a / b * b == a)%Q.
Proof. intros Hb. field. lra. Qed.

(** A side of [b] pixels scaled by a factor that is at least the
    rounded quotient of [a >= 4] by [b] keeps at least one pixel. *)
Lemma scaled_side_pos (a b s : Q) :
  (0 < b)%Q -> (4 <= a)%Q -> (fl (a / b) <= s)%Q ->
  (0 < py_int (fmul b s))%Z.
Proof.
  intros Hb Ha Hs. apply py_int_pos. unfold fmul.
  pose proof (Qdiv_mult_r a b Hb) as E.
  assert (Hq : (0 < a / b)%Q) by (apply Qlt_shift_div_l; lra).
  destruct (fl_bounds (a / b) Hq) as [Hlo _].
  set (x := fl (a / b)) in *. set (q := (a / b)%Q) in *.
  apply fl_at_least; [ lra | ]. nra.
Qed.

(** The side the pan travels along, widened by the pan range. *)
Lemma widened_side (o r : Q) :
  (16 <= o)%Q -> (0 < r)%Q -> (4 <= fmul o (fadd 1 r))%Q.
Proof.
  intros Ho Hr. unfold fmul, fadd.
  destruct (fl_bounds (1 + r)) as [Hlo _]; [ lra | ].
  set (x := fl (1 + r)) in *.
  apply fl_at_least; [ lra | ]. nra.
Qed.

Lemma pan_effect_ok (cos : Q -> Q) (pi : Q) (image : Image)
    (time_val duration : Q) (params : Params.t) (ow oh : Z) (h v : Q) :
  Params.output_size params = (ow, oh) ->
  Params.pan_range params = Some (h, v) ->
  (0 < width image)%Z -> (0 < height image)%Z ->
  (16 <= ow)%Z -> (16 <= oh)%Z ->
  ~ (duration == 0)%Q ->
  exists frame,
    ImageEffects.pan_effect cos pi image time_val duration params
    = inr frame.
Proof.
  intros Hsize Hrange Hw Hht How Hoh Hd.
  pose proof (inject_Z_pos _ Hw) as Qw.
  pose proof (inject_Z_pos _ Hht) as Qht.
  assert (Qow : (16 <= inject_Z ow)%Q)
    by (change 16%Q with (inject_Z 16); rewrite <- Zle_Qle; exact How).
  assert (Qoh : (16 <= inject_Z oh)%Q)
    by (change 16%Q with (inject_Z 16); rewrite <- Zle_Qle; exact Hoh).
  destruct (Qleb h 0 && Qleb v 0) eqn:Estill.
  - (* the picture does not move *)
    unfold ImageEffects.pan_effect. rewrite Hsize, Hrange.
    cbn [default from_option id]. cbv beta iota zeta.
    rewrite Estill. rewrite !fdiv_ok by lra. cbn [rbind].
    assert (Pi : (0 < inject_Z (width image) / inject_Z (height image))%Q)
      by (apply Qlt_shift_div_l; lra).
    assert (Po : (0 < inject_Z ow / inject_Z oh)%Q)
      by (apply Qlt_shift_div_l; lra).
    pose proof (fl_pos _ Pi) as Pimg.
    destruct (fl_bounds _ Po) as [Olo Ohi].
    pose proof (Qdiv_mult_r (inject_Z ow) (inject_Z oh) ltac:(lra)) as Eo.
    set (img := fl (inject_Z (width image) / inject_Z (height image))) in *.
    set (out := fl (inject_Z ow / inject_Z oh)) in *.
    set (qo := (inject_Z ow / inject_Z oh)%Q) in *.
    destruct (Qltb out img) eqn:E.
    + apply Qltb_true in E.
      rewrite resize_ok; [ | | lia ].
      * cbn [rbind]. rewrite crop_ok by lia. eexists. reflexivity.
      * apply py_int_pos. unfold fmul. apply fl_at_least; [ lra | ]. nra.
    + apply Qltb_false in E.
      rewrite fdiv_ok by lra. cbn [rbind].
      rewrite resize_ok; [ | lia | ].
      * cbn [rbind]. rewrite crop_ok by lia. eexists. reflexivity.
      * apply py_int_pos. apply fl_at_least; [ lra | ].
        apply Qle_shift_div_l; [ exact Pimg | ]. nra.
  - (* the picture moves *)
    assert (Hpos : (0 < h)%Q \/ (0 < v)%Q).
    { apply andb_false_iff in Estill as [E | E]; apply Qleb_false in E; auto. }
    rewrite (pan_effect_moving cos pi image time_val duration params ow oh
               h v Hsize Hrange Hpos Hw Hht Hd).
    cbv zeta.
    set (hz := if Qltb 0 h && Qltb 0 v
               then (default 0 (Params.segment_index params) mod 2 =? 0)%Z
               else if Qltb 0 v then false else true).
    assert (Haxis : if hz then (0 < h)%Q else (0 < v)%Q).
    { subst hz. destruct (Qltb 0 h) eqn:Eh, (Qltb 0 v) eqn:Ev; cbn [andb].
      - apply Qltb_true in Eh, Ev. now destruct (_ =? _)%Z.
      - now apply Qltb_true in Eh.
      - now apply Qltb_true in Ev.
      - apply Qltb_false in Eh, Ev. destruct Hpos; lra. }
    rewrite resize_ok.
    + cbn [rbind]. rewrite crop_ok by lia. eexists. reflexivity.
    + destruct hz.
      * apply scaled_side_pos with (a := fmul (inject_Z ow) (fadd 1 h));
          [ lra | apply widened_side; lra | apply py_max_l ].
      * apply scaled_side_pos with (a := inject_Z ow);
          [ lra | lra | apply py_max_l ].
    + destruct hz.
      * apply scaled_side_pos with (a := inject_Z oh);
          [ lra | lra | apply py_max_r ].
      * apply scaled_side_pos with (a := fmul (inject_Z oh) (fadd 1 v));
          [ lra | apply widened_side; lra | apply py_max_r ].
Qed.

(** The bound on the output size is not idle.  A 49 x 49 picture asked
    for at 1 x 1 with a pan range too small to show in [1 + h_range]:
    the scale factor is [1 / 49 = 0.02040816326530612] and
    [int(49 * 0.02040816326530612) = int(0.9999999999999999) = 0], so
    the resize is refused. *)
Remark pan_effect_one_pixel_output (cos : Q -> Q)
    (pi time_val duration : Q) :
  let params :=
    {| Params.output_size := (1, 1)%Z; Params.fade_duration := None;
       Params.use_pan := None;
       Params.pan_range := Some (1 # 100000000000000000, 0)%Q;
       Params.segment_index := None |} in
  fadd 1 (1 # 100000000000000000) = 1%Q
  /\ py_int (fmul 49 (fl (1 / 49))) = 0%Z
  /\ ImageEffects.pan_effect cos pi (Bitmap 49 49 "thumbnail") time_val
       duration params
     = inl (ValueError "height and width must be > 0").
Proof. cbv zeta. repeat split; vm_compute; reflexivity. Qed.

Lemma _apply_effects_ok (env : Env) (image : Image) (time_val duration : Q)
    (settings : Settings.t) (subdir : string) :
  (0 < width image)%Z -> (0 < height image)%Z ->
  (16 <= fst (Settings.resolution settings))%Z ->
  (16 <= snd (Settings.resolution settings))%Z ->
  ~ (duration == 0)%Q ->
  exists frame,
    _apply_effects env image time_val duration settings subdir = inr frame.
Proof.
  intros Hw Hh How Hoh Hd. unfold _apply_effects, ImageEffects.apply_effects.
  cbn [Params.use_pan default from_option id].
  destruct (Settings.resolution settings) as [ow oh] eqn:Eres.
  destruct (Settings.pan_range settings) as [h v] eqn:Erange.
  cbn [fst snd] in How, Hoh.
  destruct (Settings.use_pan settings); [ | eexists; reflexivity ].
  destruct (pan_effect_ok (math_cos env) (math_pi env) image time_val
              duration
              {| Params.output_size := (ow, oh);
                 Params.fade_duration := Some (Settings.fade_duration settings);
                 Params.use_pan := Some true;
                 Params.pan_range := Some (h, v);
                 Params.segment_index :=
                   Some (if isdigit subdir then py_int_of_str subdir
                         else 0%Z) |}
              ow oh h v eq_refl eq_refl Hw Hh How Hoh Hd) as [f Ef].
  rewrite Ef. eexists. reflexivity.
Qed.

Lemma frame_sequence_ok (env : Env) (image : Image) (duration : Q)
    (settings : Settings.t) (subdir : string) :
  (0 < width image)%Z -> (0 < height image)%Z ->
  (16 <= fst (Settings.resolution settings))%Z ->
  (16 <= snd (Settings.resolution settings))%Z ->
  ~ (duration == 0)%Q -> ~ (Settings.fps settings == 0)%Q ->
  forall n i, exists frames,
    frame_sequence env n i image duration settings subdir = inr frames.
Proof.
  intros Hw Hh How Hoh Hd Hfps. induction n as [ | n IH]; intros i.
  - eexists. reflexivity.
  - cbn [frame_sequence]. rewrite fdiv_ok by exact Hfps. cbn [rbind].
    destruct (_apply_effects_ok env image
                (fl (inject_Z i / Settings.fps settings))
                duration settings subdir Hw Hh How Hoh Hd) as [f Ef].
    rewrite Ef. cbn [rbind]. destruct (IH (i + 1)%Z) as [fs Efs].
    rewrite Efs. eexists. reflexivity.
Qed.

(** With cooperative collaborators a usable segment is rendered. *)
Lemma _process_segment_ok (env : Env) (subdir cp : string)
    (settings : Settings.t) (w : World) :
  cooperative env ->
  Settings.chapter_path settings = Some cp ->
  (16 <= fst (Settings.resolution settings))%Z ->
  (16 <= snd (Settings.resolution settings))%Z ->
  stop_flag (self w) = false ->
  usable_segment w cp settings subdir ->
  exists a w',
    _process_segment env subdir cp settings w
    = (inr (join cp (temp_video_name env subdir), a), w')
    /\ stop_flag (self w') = false
    /\ sources_kept w w'.
Proof.
  intros (Hquiet & Henc & _) Hcp How Hoh Hflag
         (image & seconds & Hdisk & Hd & Hw & Hh & Hn).
  assert (Hfps : ~ (Settings.fps settings == 0)%Q).
  { intros E. unfold fmul in Hn.
    rewrite (fl_comp _ 0) in Hn by (rewrite E; ring).
    rewrite fl_0 in Hn. change (py_int 0) with 0%Z in Hn. lia. }
  rewrite (_process_segment_loaded env subdir cp cp settings image seconds w
             Hcp Hdisk Hd).
  set (total := py_int (fmul seconds (Settings.fps settings))) in *.
  destruct (Z.eqb_spec total 0) as [E0 | _]; [ lia | ].
  unfold render_and_encode. fold total.
  set (w1 := set_clock (clock w + 1)%N w).
  set (n := Z.to_nat total).
  destruct (frame_sequence_ok env image seconds settings subdir Hw Hh How Hoh
              ltac:(lra) Hfps n 0) as [frames Efs].
  assert (Hlen : length frames = n)
    by (eapply frame_sequence_length, Efs).
  assert (Hne : frames <> []).
  { intros ->. simpl in Hlen. subst n. lia. }
  unfold bind at 1.
  rewrite (render_frames_quiet env subdir image seconds settings w1 Hflag
             (fun j => Hquiet _)).
  rewrite Efs. cbn [rbind app].
  set (temp_file := join cp (temp_video_name env subdir)).
  set (temp_audio_path :=
         join (dirname temp_file) (temp_audio_name env subdir (clock w))).
  destruct (Henc temp_file temp_audio_path frames (Settings.fps settings)
              (video_ffmpeg_params settings (cuda_available (self w1)))
              (Settings.threads settings) Hne) as [size Hsize].
  rewrite (encode_and_count_ok env frames _ temp_file temp_audio_path
             settings size w1);
    [ | apply temp_names_differ | exact Hsize ].
  eexists _, _. split; [ reflexivity | ]. split; [ exact Hflag | ].
  intros dir name Hname. cbn [files set_self set_files].
  destruct (source_not_temp env dir cp name subdir (clock w) Hname)
    as [Hv _].
  destruct (source_not_temp env dir (dirname temp_file) name subdir (clock w)
              Hname) as [_ Ha].
  fold temp_file in Hv. fold temp_audio_path in Ha.
  rewrite lookup_delete_ne, lookup_insert_ne by congruence. reflexivity.
Qed.

Lemma gather_ok (env : Env) (cp : string) (settings : Settings.t) :
  cooperative env ->
  Settings.chapter_path settings = Some cp ->
  (16 <= fst (Settings.resolution settings))%Z ->
  (16 <= snd (Settings.resolution settings))%Z ->
  forall batch w,
    stop_flag (self w) = false ->
    Forall (usable_segment w cp settings) batch ->
    exists rs w',
      gather env batch cp settings w = (inr rs, w')
      /\ video_paths rs
         = map (fun s => join cp (temp_video_name env s)) batch
      /\ stop_flag (self w') = false
      /\ sources_kept w w'.
Proof.
  intros Hco Hcp How Hoh. induction batch as [ | s rest IH];
    intros w Hflag Hall; cbn [gather].
  - exists [], w. split; [ reflexivity | ]. split; [ reflexivity | ].
    split; [ exact Hflag | reflexivity ].
  - apply Forall_cons in Hall as [Hs Hrest].
    destruct (_process_segment_ok env s cp settings w Hco Hcp How Hoh Hflag Hs)
      as (a & w1 & E1 & Hflag1 & Hk1).
    unfold bind at 1. unfold catch at 1. rewrite E1.
    destruct (IH w1 Hflag1) as (rs & w2 & E2 & Hv & Hflag2 & Hk2).
    { eapply Forall_impl; [ exact Hrest | ].
      intros s' Hs'. now apply (usable_segment_kept w w1). }
    unfold bind at 1. rewrite E2.
    eexists _, w2. split; [ reflexivity | ].
    split; [ | split; [ exact Hflag2 | now transitivity w1 ] ].
    unfold video_paths in *. cbn. now rewrite Hv.
Qed.

Lemma run_batches_ok (env : Env) (subdirs : list string) (batch_size : Z)
    (cp : string) (settings : Settings.t) :
  cooperative env ->
  Settings.chapter_path settings = Some cp ->
  (16 <= fst (Settings.resolution settings))%Z ->
  (16 <= snd (Settings.resolution settings))%Z ->
  forall starts j,
    stop_flag (self (fst j)) = false ->
    Forall (usable_segment (fst j) cp settings) subdirs ->
    exists j',
      run_batches env starts subdirs batch_size cp settings j = (inr tt, j')
      /\ temp_video_files (snd j')
         = temp_video_files (snd j)
           ++ map (fun s => join cp (temp_video_name env s))
                  (concat (batches_of starts subdirs batch_size)).
Proof.
  intros Hco Hcp How Hoh. induction starts as [ | i later IH];
    intros j Hflag Hall.
  - exists j. split; [ reflexivity | ]. cbn. now rewrite app_nil_r.
  - destruct (run_batches_step env i later subdirs batch_size cp settings j)
      as (rs & w1 & Eg & _ & Estep).
    destruct (gather_ok env cp settings Hco Hcp How Hoh
                (slice subdirs i (i + batch_size)) (fst j) Hflag)
      as (rs' & w1' & Eg' & Hv & Hflag1 & Hk1).
    { unfold slice. apply Forall_take, Forall_drop, Hall. }
    rewrite Eg in Eg'. injection Eg' as <- <-.
    rewrite Estep. cbv zeta. unfold interference.
    destruct Hco as (Hquiet & Hrest). rewrite Hquiet. cbn [snd ret].
    rewrite Hflag1.
    destruct (IH (w1, {| temp_video_files :=
                           temp_video_files (snd j) ++ video_paths rs;
                         all_temp_files :=
                           all_temp_files (snd j) ++ temp_paths rs |}))
      as (j' & E & Htv).
    + exact Hflag1.
    + eapply Forall_impl; [ exact Hall | ].
      intros s Hs. now apply (usable_segment_kept (fst j) w1).
    + exists j'. split; [ exact E | ].
      rewrite Htv. cbn [snd temp_video_files batches_of map concat].
      now rewrite Hv, map_app, app_assoc.
Qed.

Lemma list_segments_dirs (cp : string) (w1 w2 : World) :
  dirs w1 = dirs w2 ->
  fst (list_segments cp w1) = fst (list_segments cp w2).
Proof.
  intros H. unfold list_segments, bind, listdir, get, ret, isdir.
  rewrite H. destruct (dirs w2 !! cp); [ | reflexivity ].
  cbn. now rewrite H.
Qed.


(** ** Runs of the further properties on the demo chapter *)

Ltac by_evaluation :=
  first [ reflexivity | vm_compute; reflexivity | vm_compute; discriminate ].

Lemma apply_effects_frame_size_witness :
  (exists frame,
     ImageEffects.apply_effects Demo.cos Demo.pi demo_picture 1 2 demo_moving
     = inr frame
     /\ (width frame, height frame) = (640, 360)%Z)
  /\ exists frame,
       ImageEffects.apply_effects Demo.cos Demo.pi demo_picture 1 2
         demo_no_pan = inr frame
       /\ (width frame, height frame) = (1600, 1200)%Z.
Proof.
  destruct (apply_effects_frame_size Demo.cos Demo.pi demo_picture 1 2
              demo_moving) as [Hpan _].
  destruct (apply_effects_frame_size Demo.cos Demo.pi demo_picture 1 2
              demo_no_pan) as [_ Hoff].
  split; [ | exact (Hoff eq_refl) ].
  destruct (ImageEffects.apply_effects Demo.cos Demo.pi demo_picture 1 2
              demo_moving) as [e | frame] eqn:E;
    [ vm_compute in E; discriminate | ].
  exists frame. split; [ reflexivity | ].
  apply Hpan; [ reflexivity | discriminate ].
Defined.


Lemma load_resources_succeeds_iff_witness :
  fst (_load_resources (join Demo.chapter "1") (640, 360)%Z Demo.world)
  = inr (demo_picture,
         {| filename := join (join Demo.chapter "1") "audio.mp3";
            duration := Some 2%Q |}).
Proof.
  apply (load_resources_succeeds_iff (join Demo.chapter "1") (640, 360)%Z
           Demo.world).
  exists 2%Q. split; [ exact demo_segment_one | ].
  split; [ vm_compute; discriminate | reflexivity ].
Defined.

Lemma load_resources_errors_witness :
  fst (_load_resources (join Demo.chapter "2") (640, 360)%Z
         Demo.broken_world)
  = inl (ValueError "File too small: /projects/demo/ch1/2/audio.mp3")
  /\ fst (_load_resources (join Demo.chapter "3") (640, 360)%Z Demo.world)
     = inl (FileNotFoundError
              "File not found: /projects/demo/ch1/3/image.png").
Proof.
  destruct (load_resources_errors (join Demo.chapter "2") (640, 360)%Z
              Demo.broken_world) as (_ & _ & _ & Hsmall & _).
  destruct (load_resources_errors (join Demo.chapter "3") (640, 360)%Z
              Demo.world) as (Hmissing & _).
  split.
  - apply (Hsmall (Demo.picture "two") {| st_size := 0; payload := Blob |});
      by_evaluation.
  - apply Hmissing. by_evaluation.
Defined.

Lemma segment_failures_are_isolated_witness :
  _process_segment Demo.quiet "2" Demo.chapter Demo.slow_settings
    Demo.broken_world
  = (inl (ValueError "File too small: /projects/demo/ch1/2/audio.mp3"),
     set_clock (clock Demo.broken_world + 1)%N Demo.broken_world)
  /\ exists rs,
       fst (gather Demo.quiet ["1"; "2"] Demo.chapter Demo.slow_settings
              Demo.broken_world) = inr rs
       /\ length rs = 2%nat.
Proof.
  destruct (segment_failures_are_isolated Demo.quiet) as [Hload Hbatch].
  split.
  - apply (Hload "2" Demo.chapter Demo.chapter); by_evaluation.
  - exact (Hbatch ["1"; "2"] Demo.chapter Demo.slow_settings
             Demo.broken_world).
Defined.

Lemma temp_names_within_a_job_witness :
  is_Some (files (snd (_process_segment Demo.quiet "1" Demo.chapter
                         Demo.slow_settings Demo.world))
             !! "/projects/demo/ch1/vid_1_4242.mp4").
Proof.
  destruct (temp_names_within_a_job Demo.quiet) as (Hreturned & _).
  destruct (Hreturned "1" Demo.chapter Demo.slow_settings Demo.world
              (snd (_process_segment Demo.quiet "1" Demo.chapter
                      Demo.slow_settings Demo.world))
              "/projects/demo/ch1/vid_1_4242.mp4"
              "/projects/demo/ch1/temp_audio_1_4242_1700000000000000000.m4a")
    as (_ & _ & Hclip).
  - by_evaluation.
  - exact Hclip.
Defined.

Lemma demo_unlocked : unlocked Demo.quiet.
Proof. intros path now. reflexivity. Qed.

Lemma cleanup_temp_files_removes_exactly_witness :
  exists w',
    _cleanup_temp_files Demo.quiet
      ["/projects/demo/ch1/1/audio.mp3"; "/projects/demo/ch1/gone.m4a"]
      Demo.world = (inr tt, w')
    /\ files w' !! "/projects/demo/ch1/1/audio.mp3" = None
    /\ files w' !! "/projects/demo/ch1/video.mp4" = Some Demo.old_video.
Proof.
  destruct (cleanup_temp_files_removes_exactly Demo.quiet
              ["/projects/demo/ch1/1/audio.mp3"; "/projects/demo/ch1/gone.m4a"]
              Demo.world) as (w' & E & _ & Hkept & _ & Hgone).
  exists w'. split; [ exact E | ]. split.
  - apply (Hgone demo_unlocked). now left.
  - rewrite Hkept; [ reflexivity | ].
    intros H. repeat (apply elem_of_cons in H as [H | H]; [ discriminate | ]).
    now apply elem_of_nil in H.
Defined.



Lemma get_progress_percentage_range_witness :
  exists snapshot,
    get_progress
      (snd (generate_video Demo.quiet Demo.chapter (Some Demo.slow)
              Demo.world))
    = (inr snapshot,
       snd (generate_video Demo.quiet Demo.chapter (Some Demo.slow)
              Demo.world))
    /\ (0 <= Progress.percentage snapshot <= 100)%Z.
Proof.
  destruct (get_progress_percentage_range
              (snd (generate_video Demo.quiet Demo.chapter (Some Demo.slow)
                      Demo.world)))
    as (snapshot & E & _ & _ & Hrange & _).
  - apply reach_job_done.
    apply (reach_init Demo.quiet Demo.disk Demo.tree 1700000000000000000%N).
  - exists snapshot. split; [ exact E | exact Hrange ].
Defined.

Lemma generate_video_without_segments_witness :
  fst (generate_video Demo.quiet "/projects/demo/ch1/1" None Demo.world)
  = inl (ValueError "No valid video segments")
  /\ exists e,
       fst (generate_video Demo.quiet "/projects/demo/ch9" None Demo.world)
       = inl e.
Proof.
  destruct (generate_video_without_segments Demo.quiet
              "/projects/demo/ch1/1" None Demo.world) as (_ & Hnone & _).
  destruct (generate_video_without_segments Demo.quiet
              "/projects/demo/ch9" None Demo.world) as (Hmissing & _).
  split.
  - rewrite (Hnone ["image.png"; "audio.mp3"]);
      [ reflexivity | by_evaluation | repeat constructor | ].
    intros d Hd. left.
    repeat (apply elem_of_cons in Hd as [-> | Hd]; [ reflexivity | ]).
    now apply elem_of_nil in Hd.
  - eexists.
    rewrite (Hmissing (FileNotFoundError "/projects/demo/ch9"));
      [ reflexivity | by_evaluation ].
Defined.

Lemma generate_video_bad_batch_size_witness :
  fst (generate_video Demo.quiet Demo.chapter (Some demo_zero_batch)
         Demo.world)
  = inl (ValueError "range() arg 3 must not be zero").
Proof.
  destruct (generate_video_bad_batch_size Demo.quiet Demo.chapter
              (Some demo_zero_batch) Demo.world ["1"; "2"]) as (E & _).
  - by_evaluation.
  - discriminate.
  - by_evaluation.
  - rewrite E. reflexivity.
Defined.

Lemma list_segments_ascending_witness :
  ascending ["1"; "2"]
  /\ ["1"; "2"]
     ≡ₚ filter (fun d => isdigit d = true
                         /\ is_Some (dirs Demo.world
                                       !! join Demo.chapter d))
               ["2"; "notes"; "1"; "video.mp4"].
Proof.
  destruct (list_segments_ascending Demo.chapter Demo.world Demo.world
              ["2"; "notes"; "1"; "video.mp4"] ["1"; "2"])
    as (_ & Hasc & Hperm).
  - by_evaluation.
  - repeat constructor.
  - by_evaluation.
  - split; [ exact Hasc | exact Hperm ].
Defined.

Lemma batches_are_bounded_witness :
  Z.of_nat (length [0; 2]%Z) = 2%Z
  /\ Forall (fun batch => (0 < length batch)%nat
                          /\ (Z.of_nat (length batch) <= 2)%Z)
            (batches_of [0; 2]%Z ["1"; "2"; "3"] 2).
Proof.
  apply (batches_are_bounded ["1"; "2"; "3"] 2 [0; 2]%Z); by_evaluation.
Defined.

Lemma rendered_frames_have_one_size_witness :
  Forall (fun frame => size_of frame = (640, 360)%Z)
    (match fst (render_frames Demo.quiet 3 0 [] demo_picture 2
                  Demo.slow_settings "1" Demo.world) with
     | inr rendered => rendered
     | inl _ => []
     end).
Proof.
  destruct (render_frames Demo.quiet 3 0 [] demo_picture 2
              Demo.slow_settings "1" Demo.world) as [[e | rendered] w'] eqn:E;
    [ constructor | ].
  cbn [fst].
  exact (rendered_frames_have_one_size Demo.quiet 3 0 [] demo_picture 2
           Demo.slow_settings "1" Demo.world w' rendered E
           (Forall_nil_2 _)).
Defined.

Lemma generate_video_cleans_up_witness :
  fst (generate_video demo_stop_after_batch Demo.chapter (Some Demo.slow)
         Demo.world) = inl cancellation_error
  /\ files (snd (generate_video demo_stop_after_batch Demo.chapter
                   (Some Demo.slow) Demo.world))
       !! "/projects/demo/ch1/vid_1_4242.mp4" = None.
Proof.
  pose proof (generate_video_cleans_up demo_stop_after_batch Demo.chapter
                (Some Demo.slow) Demo.world _ _ (surjective_pairing _)) as H.
  cbv zeta in H. destruct H as (Hr & _ & _ & _ & Hgone).
  split; [ rewrite Hr; by_evaluation | ].
  apply Hgone; [ intros path now; reflexivity | ].
  vm_compute. now left.
Defined.

Lemma demo_cooperative : cooperative Demo.quiet.
Proof.
  split; [ reflexivity | split ].
  - intros output_path temp_audio_path frames fps ffmpeg_params threads Hne.
    destruct frames as [ | frame frames]; [ congruence | ].
    eexists. reflexivity.
  - split; [ | exact demo_unlocked ].
    intros cmd. eexists. reflexivity.
Qed.

Lemma demo_segments_usable :
  Forall (usable_segment Demo.world Demo.chapter Demo.slow_settings)
    ["1"; "2"].
Proof.
  repeat constructor.
  - exists demo_picture, 2%Q. split; [ exact demo_segment_one | ].
    repeat split; by_evaluation.
  - exists (Bitmap 1600 1200 "two"), 3%Q. split.
    + exists (Demo.picture "two"), (Demo.narration 3).
      repeat split; by_evaluation.
    + repeat split; by_evaluation.
Qed.

